(** * StandLog analytics: funnels, personas and the delivery queue

    A shallow embedding of the state machines of the StandLog script
    (js/modules/funnels/funnel.js, js/modules/personas/personas.js,
    js/modules/tracking/core.js and the bundled main script with the class
    StandLogAnalytics), followed by the properties established about them.

    Conventions.
    - A JavaScript object that is mutated in place is a record that is
      threaded through the functions that mutate it; a [Map] keyed by
      strings is a [gmap string _], a [Set] of strings a [gset string].
    - A function that can raise returns the state it reached together with
      a [completion]: mutations done before the exception stay visible.
    - JavaScript numbers are [jsnum]: exact rationals extended with NaN and
      the two infinities (rounding of doubles and the sign of zero are not
      represented; the counters of the program are integers).
    - Strings are byte strings; [toLowerCase] is the ASCII one. *)

From Stdlib Require Import ZArith QArith Qround Lia Ascii String.
From stdpp Require Import gmap strings list fin_maps pretty.

Local Open Scope Z_scope.
Local Open Scope string_scope.

(** ** JavaScript values and builtins *)

Module JS.

Inductive exn := TypeError | SyntaxError.

(** How a statement list ends. *)
Inductive completion := Normal | Throw (e : exn).

(** How an expression ends. *)
Inductive outcome (A : Type) := Return (a : A) | Raise (e : exn).
Arguments Return {A} a.
Arguments Raise {A} e.

(** [Array.prototype.forEach] with a callback that mutates a state [St]:
    the first exception leaves the loop with the state reached so far. *)
Fixpoint forEach {A St : Type} (f : A -> St -> St * completion) (l : list A) (s : St)
  : St * completion :=
  match l with
  | [] => (s, Normal)
  | x :: l' =>
      match f x s with
      | (s', Normal) => forEach f l' s'
      | r => r
      end
  end.

(** The same, the callback also receiving the index. *)
Fixpoint forEachFrom {A St : Type} (f : A -> nat -> St -> St * completion)
    (i : nat) (l : list A) (s : St) : St * completion :=
  match l with
  | [] => (s, Normal)
  | x :: l' =>
      match f x i s with
      | (s', Normal) => forEachFrom f (S i) l' s'
      | r => r
      end
  end.

Definition forEachi {A St : Type} (f : A -> nat -> St -> St * completion)
    (l : list A) (s : St) : St * completion :=
  forEachFrom f 0 l s.

(** Numbers. *)
Inductive jsnum := Fin (q : Q) | NaN | PosInf | NegInf.

Definition num (z : Z) : jsnum := Fin (inject_Z z).

Definition Qsgn (q : Q) : comparison := (q ?= 0)%Q.

Definition inf_of (c : comparison) : jsnum :=
  match c with Gt => PosInf | Lt => NegInf | Eq => NaN end.

Definition flip (c : comparison) : comparison := CompOpp c.

(** [a / b]. *)
Definition div (a b : jsnum) : jsnum :=
  match a, b with
  | NaN, _ | _, NaN => NaN
  | Fin x, Fin y =>
      match Qsgn y with
      | Eq => inf_of (Qsgn x)
      | _ => Fin (x / y)
      end
  | Fin _, (PosInf | NegInf) => Fin 0
  | PosInf, Fin y => match Qsgn y with Lt => NegInf | _ => PosInf end
  | NegInf, Fin y => match Qsgn y with Lt => PosInf | _ => NegInf end
  | (PosInf | NegInf), (PosInf | NegInf) => NaN
  end.

(** [a * b]. *)
Definition mul (a b : jsnum) : jsnum :=
  match a, b with
  | NaN, _ | _, NaN => NaN
  | Fin x, Fin y => Fin (x * y)
  | Fin x, PosInf | PosInf, Fin x => inf_of (Qsgn x)
  | Fin x, NegInf | NegInf, Fin x => inf_of (flip (Qsgn x))
  | PosInf, PosInf | NegInf, NegInf => PosInf
  | PosInf, NegInf | NegInf, PosInf => NegInf
  end.

(** [a + b]. *)
Definition add (a b : jsnum) : jsnum :=
  match a, b with
  | NaN, _ | _, NaN => NaN
  | Fin x, Fin y => Fin (x + y)
  | PosInf, NegInf | NegInf, PosInf => NaN
  | PosInf, _ | _, PosInf => PosInf
  | NegInf, _ | _, NegInf => NegInf
  end.

(** [a < b] on numbers, undefined ([None]) when one of them is NaN. *)
Definition numLess (a b : jsnum) : option bool :=
  match a, b with
  | NaN, _ | _, NaN => None
  | Fin x, Fin y => Some (match (x ?= y)%Q with Lt => true | _ => false end)
  | NegInf, (Fin _ | PosInf) => Some true
  | Fin _, PosInf => Some true
  | _, _ => Some false
  end.

(** [a === b] on numbers. *)
Definition numEq (a b : jsnum) : bool :=
  match a, b with
  | Fin x, Fin y => Qeq_bool x y
  | PosInf, PosInf | NegInf, NegInf => true
  | _, _ => false
  end.

(** [Math.min(a, b)]. *)
Definition min (a b : jsnum) : jsnum :=
  match numLess a b with
  | None => NaN
  | Some true => a
  | Some false => b
  end.

(** [Math.round(a)]: the nearest integer, halves rounded up. *)
Definition round (a : jsnum) : jsnum :=
  match a with
  | Fin x => num (Qfloor (x + (1 # 2)))
  | _ => a
  end.

(** Values: the primitives and arrays of values. *)
#[warnings="-register-all"]
Inductive jsval :=
  | VUndefined
  | VNull
  | VBool (b : bool)
  | VNum (n : jsnum)
  | VStr (s : string)
  | VArr (l : list jsval).

Section Conversions.

(** Two conversions of the host that are taken as given: a string read
    as a number, and a value written as a string (used for numbers,
    booleans and arrays). *)
Variable StringToNumber : string -> jsnum.
Variable ToString : jsval -> string.

Definition ToNumber (v : jsval) : jsnum :=
  match v with
  | VUndefined => NaN
  | VNull => num 0
  | VBool b => if b then num 1 else num 0
  | VNum n => n
  | VStr s => StringToNumber s
  | VArr _ => StringToNumber (ToString v)
  end.

(** The primitive an operand of a comparison is turned into. *)
Definition ToPrimitive (v : jsval) : jsval :=
  match v with
  | VArr _ => VStr (ToString v)
  | _ => v
  end.

(** The abstract relational comparison [x < y]; [None] is undefined. *)
Definition IsLessThan (x y : jsval) : option bool :=
  match ToPrimitive x, ToPrimitive y with
  | VStr a, VStr b => Some (match String.compare a b with Lt => true | _ => false end)
  | px, py => numLess (ToNumber px) (ToNumber py)
  end.

(** [x < y], [x > y], [x <= y], [x >= y]. *)
Definition lt (x y : jsval) : bool := default false (IsLessThan x y).
Definition gt (x y : jsval) : bool := default false (IsLessThan y x).
Definition le (x y : jsval) : bool :=
  match IsLessThan y x with Some false => true | _ => false end.
Definition ge (x y : jsval) : bool :=
  match IsLessThan x y with Some false => true | _ => false end.

End Conversions.

(** [x === y]. Two arrays are equal when they are the same object; the
    comparisons of the program have a metric, never an array, on one
    side, so that an array is equal to nothing. *)
Definition strictEq (x y : jsval) : bool :=
  match x, y with
  | VUndefined, VUndefined | VNull, VNull => true
  | VBool a, VBool b => Bool.eqb a b
  | VNum a, VNum b => numEq a b
  | VStr a, VStr b => String.eqb a b
  | _, _ => false
  end.

(** The comparison of [Array.prototype.includes]: [===] except that NaN
    is found. *)
Definition sameValueZero (x y : jsval) : bool :=
  match x, y with
  | VNum NaN, VNum NaN => true
  | _, _ => strictEq x y
  end.

(** Strings. *)

(** [s.includes(sub)]. *)
Fixpoint includes (s sub : string) : bool :=
  if String.prefix sub s then true
  else match s with
       | EmptyString => false
       | String _ s' => includes s' sub
       end.

(** [s.replace(c, "")] for a one-character string [c]: the first occurrence
    only. *)
Fixpoint removeFirst (c : ascii) (s : string) : string :=
  match s with
  | EmptyString => EmptyString
  | String a s' => if Ascii.eqb a c then s' else String a (removeFirst c s')
  end.

(** [s.replace(/\*/g, ".*")]. *)
Fixpoint starToDotStar (s : string) : string :=
  match s with
  | EmptyString => EmptyString
  | String a s' =>
      if Ascii.eqb a "*"%char then String "."%char (String "*"%char (starToDotStar s'))
      else String a (starToDotStar s')
  end.

Definition lowerAscii (a : ascii) : ascii :=
  let n := nat_of_ascii a in
  if (65 <=? n)%nat && (n <=? 90)%nat then ascii_of_nat (n + 32) else a.

(** [s.toLowerCase()]. *)
Fixpoint toLowerCase (s : string) : string :=
  match s with
  | EmptyString => EmptyString
  | String a s' => String (lowerAscii a) (toLowerCase s')
  end.

(** Truthiness of an optional string: [undefined] and [""] are falsy. *)
Definition truthy (o : option string) : option string :=
  match o with
  | Some EmptyString | None => None
  | Some s => Some s
  end.

End JS.

(** ** The funnel analyzer (js/modules/funnels/funnel.js) *)

Module Funnel.
Import JS.

(** What [getElementInfo] records of a clicked element. *)
Record element := {
  tagName : string;
  el_id : string;
  className : string;
}.

(** The fields of an event the analyzer reads ([title], [form] and
    [properties] are carried along and never inspected). *)
Record event := {
  ev_type : string;
  ev_url : option string;
  ev_name : option string;
  ev_element : option element;
  ev_timestamp : Z;
  ev_sessionId : string;
  ev_userId : string;
}.

Record step := {
  st_id : string;
  st_name : option string;
  st_url : option string;
  st_event : option string;
  st_selector : option string;
  st_order : nat;
}.

Record funnel := {
  f_id : string;
  f_name : string;
  steps : list step;
  timeWindow : Z;
  allowBacktrack : bool;
}.

Record stepStats := {
  stepIndex : nat;
  reached : Z;
  dropped : Z;
  conversionFromPrevious : jsnum;
  averageTimeToNext : Z;
}.

Record funnelStats := {
  totalSessions : Z;
  completedSessions : Z;
  conversionRate : jsnum;
  stat_steps : list stepStats;
}.

Record completedStep := {
  cs_stepIndex : nat;
  cs_timestamp : Z;
  cs_event : event;
}.

Inductive sessionStatus := active | completed.

Record session := {
  s_sessionId : string;
  s_userId : string;
  startTime : Z;
  currentStep : Z;
  completedSteps : list completedStep;
  s_events : list event;
  status : sessionStatus;
}.

(** One entry of [this.funnelData]. *)
Record funnelDataEntry := {
  fd_funnel : funnel;
  sessions : gmap string session;
  stats : funnelStats;
}.

Record FunnelAnalyzer := {
  config_funnels : list funnel;
  events : list event;
  funnelData : gmap string funnelDataEntry;
}.

(** The step definitions and options handed to [defineFunnel]. *)
Record stepConfig := {
  sc_id : option string;
  sc_name : option string;
  sc_url : option string;
  sc_event : option string;
  sc_selector : option string;
}.

Record funnelOptions := {
  opt_name : option string;
  opt_timeWindow : option Z;
  opt_allowBacktrack : bool;
}.

(** The keys of [localStorage] read by [getSessionId] and [getUserId]. *)
Record storage := {
  standlog_session : option string;
  standlog_user : option string;
}.

Definition initializeFunnelStats (stepCount : nat) : funnelStats :=
  {| totalSessions := 0;
     completedSessions := 0;
     conversionRate := num 0;
     stat_steps :=
       map (fun i => {| stepIndex := i; reached := 0; dropped := 0;
                        conversionFromPrevious := num 0;
                        averageTimeToNext := 0 |})
           (seq 0 stepCount) |}.

Definition mkStep (index : nat) (c : stepConfig) : step :=
  {| st_id := match truthy (sc_id c) with
              | Some i => i
              | None => "step_" +:+ pretty index
              end;
     st_name := sc_name c;
     st_url := sc_url c;
     st_event := sc_event c;
     st_selector := sc_selector c;
     st_order := index |}.

(** [defineFunnel]: the options object is spread last, so a given
    [timeWindow] is kept as it is, and [allowBacktrack] has the truth value
    of the option. *)
Definition defineFunnel (funnelId : string) (cs : list stepConfig)
    (options : funnelOptions) (fa : FunnelAnalyzer) : FunnelAnalyzer :=
  let f := {| f_id := funnelId;
              f_name := match truthy (opt_name options) with
                        | Some n => n
                        | None => funnelId
                        end;
              steps := imap mkStep cs;
              timeWindow := match opt_timeWindow options with
                            | Some t => t
                            | None => 3600000
                            end;
              allowBacktrack := opt_allowBacktrack options |} in
  {| config_funnels := config_funnels fa ++ [f];
     events := events fa;
     funnelData :=
       <[funnelId := {| fd_funnel := f; sessions := ∅;
                        stats := initializeFunnelStats (length (steps f)) |}]>
         (funnelData fa) |}.

Definition getSessionId (ls : storage) : string :=
  match truthy (standlog_session ls) with Some s => s | None => "anonymous" end.

Definition getUserId (ls : storage) : string :=
  match truthy (standlog_user ls) with Some s => s | None => "anonymous" end.

Definition elementMatchesSelector (el : option element) (selector : string) : bool :=
  match el with
  | None => false (* the TypeError is caught *)
  | Some e =>
      String.eqb (el_id e) (removeFirst "#" selector)
      || includes (className e) (removeFirst "." selector)
      || String.eqb (toLowerCase (tagName e)) (toLowerCase selector)
  end.

Section Analyzer.

(** The constructor [new RegExp(pattern)] of the host: [None] when it
    raises a SyntaxError, otherwise the [test] method of the result. *)
Variable RegExp : string -> option (string -> bool).

Definition urlMatches (eventUrl stepUrl : string) : outcome bool :=
  if includes stepUrl "*" then
    match RegExp (starToDotStar stepUrl) with
    | Some test => Return (test eventUrl)
    | None => Raise SyntaxError
    end
  else Return (includes eventUrl stepUrl).

(** Selector-based matching and the final [return false]. *)
Definition selectorClause (e : event) (s : step) : outcome bool :=
  match truthy (st_selector s) with
  | Some sel =>
      if String.eqb (ev_type e) "click"
      then Return (elementMatchesSelector (ev_element e) sel)
      else Return false
  | None => Return false
  end.

(** Event-based matching, then the rest. *)
Definition eventClause (e : event) (s : step) : outcome bool :=
  match truthy (st_event s) with
  | Some name =>
      if String.eqb (ev_type e) "custom" && bool_decide (ev_name e = Some name)
      then Return true
      else if String.eqb (ev_type e) name then Return true
      else selectorClause e s
  | None => selectorClause e s
  end.

Definition eventMatchesStep (e : event) (s : step) : outcome bool :=
  match truthy (st_url s) with
  | Some stepUrl =>
      match String.eqb (ev_type e) "pageview", truthy (ev_url e) with
      | true, Some eventUrl => urlMatches eventUrl stepUrl
      | _, _ => eventClause e s
      end
  | None => eventClause e s
  end.

(** The session and the statistics a step completion works on: the two
    objects [processStepCompletion] and [updateFunnelStats] mutate. *)
Record fstate := {
  fs_session : session;
  fs_stats : funnelStats;
}.

Definition set_reached (r : Z) (s : stepStats) : stepStats :=
  {| stepIndex := stepIndex s; reached := r; dropped := dropped s;
     conversionFromPrevious := conversionFromPrevious s;
     averageTimeToNext := averageTimeToNext s |}.

Definition set_conversionFromPrevious (c : jsnum) (s : stepStats) : stepStats :=
  {| stepIndex := stepIndex s; reached := reached s; dropped := dropped s;
     conversionFromPrevious := c;
     averageTimeToNext := averageTimeToNext s |}.

Definition percent (a b : Z) : jsnum := mul (div (num a) (num b)) (num 100).

(** [updateFunnelStats]; [registered] is [funnelData.funnel]. Reading
    [stats.steps[stepIndex].reached] out of range raises before anything
    is written. *)
Definition updateFunnelStats (registered : funnel) (i : nat) (st : funnelStats)
  : funnelStats * completion :=
  match stat_steps st !! i with
  | None => (st, Throw TypeError)
  | Some cur =>
      let cur1 := set_reached (reached cur + 1) cur in
      let steps1 := <[i := cur1]> (stat_steps st) in
      let steps2 :=
        match i with
        | O => steps1
        | S j =>
            match steps1 !! j with
            | Some previousStep =>
                <[i := set_conversionFromPrevious
                         (percent (reached cur1) (reached previousStep)) cur1]> steps1
            | None => steps1
            end
        end in
      let total := if (i =? 0)%nat then totalSessions st + 1 else totalSessions st in
      if (Z.of_nat i =? Z.of_nat (length (steps registered)) - 1)%Z then
        ({| totalSessions := total;
            completedSessions := completedSessions st + 1;
            conversionRate := percent (completedSessions st + 1) total;
            stat_steps := steps2 |}, Normal)
      else
        ({| totalSessions := total;
            completedSessions := completedSessions st;
            conversionRate := conversionRate st;
            stat_steps := steps2 |}, Normal)
  end.

Definition advance (i : nat) (e : event) (s : session) : session :=
  {| s_sessionId := s_sessionId s; s_userId := s_userId s;
     startTime := startTime s;
     currentStep := Z.of_nat i;
     completedSteps :=
       completedSteps s ++
         [{| cs_stepIndex := i; cs_timestamp := ev_timestamp e; cs_event := e |}];
     s_events := s_events s;
     status := status s |}.

Definition set_status (st : sessionStatus) (s : session) : session :=
  {| s_sessionId := s_sessionId s; s_userId := s_userId s;
     startTime := startTime s; currentStep := currentStep s;
     completedSteps := completedSteps s; s_events := s_events s;
     status := st |}.

Definition set_currentStep (k : Z) (s : session) : session :=
  {| s_sessionId := s_sessionId s; s_userId := s_userId s;
     startTime := startTime s; currentStep := k;
     completedSteps := completedSteps s; s_events := s_events s;
     status := status s |}.

Definition push_event (e : event) (s : session) : session :=
  {| s_sessionId := s_sessionId s; s_userId := s_userId s;
     startTime := startTime s; currentStep := currentStep s;
     completedSteps := completedSteps s; s_events := s_events s ++ [e];
     status := status s |}.

(** [processStepCompletion(funnel, session, stepIndex, event)].
    [onFunnelComplete] and [onStepBacktrack] write to the console and
    dispatch a notification; they change nothing of the analyzer. *)
Definition processStepCompletion (f registered : funnel) (i : nat) (e : event)
    (σ : fstate) : fstate * completion :=
  let session := fs_session σ in
  let expectedStep := currentStep session + 1 in
  if (Z.of_nat i =? expectedStep)%Z then
    let session1 := advance i e session in
    match updateFunnelStats registered i (fs_stats σ) with
    | (st', Throw x) => ({| fs_session := session1; fs_stats := st' |}, Throw x)
    | (st', Normal) =>
        if (Z.of_nat i =? Z.of_nat (length (steps f)) - 1)%Z then
          ({| fs_session := set_status completed session1; fs_stats := st' |}, Normal)
        else ({| fs_session := session1; fs_stats := st' |}, Normal)
    end
  else if allowBacktrack f && (Z.of_nat i <? expectedStep)%Z then
    ({| fs_session := set_currentStep (Z.of_nat i) session;
        fs_stats := fs_stats σ |}, Normal)
  else (σ, Normal).

(** The callback of [funnel.steps.forEach] in [checkFunnelStep]. *)
Definition checkStep (f registered : funnel) (e : event) (s : step) (i : nat)
    (σ : fstate) : fstate * completion :=
  match eventMatchesStep e s with
  | Raise x => (σ, Throw x)
  | Return true => processStepCompletion f registered i e σ
  | Return false => (σ, Normal)
  end.

Definition newSession (e : event) : session :=
  {| s_sessionId := ev_sessionId e; s_userId := ev_userId e;
     startTime := ev_timestamp e; currentStep := -1;
     completedSteps := []; s_events := []; status := active |}.

(** The session of the event in an entry, created when absent, with the
    event pushed on its list. *)
Definition openSession (e : event) (fd : funnelDataEntry) : session :=
  push_event e (default (newSession e) (sessions fd !! ev_sessionId e)).

Definition store (e : event) (σ : fstate) (fd : funnelDataEntry) : funnelDataEntry :=
  {| fd_funnel := fd_funnel fd;
     sessions := <[ev_sessionId e := fs_session σ]> (sessions fd);
     stats := fs_stats σ |}.

Definition set_funnelData (d : gmap string funnelDataEntry) (fa : FunnelAnalyzer)
  : FunnelAnalyzer :=
  {| config_funnels := config_funnels fa; events := events fa; funnelData := d |}.

(** [checkFunnelStep(funnel, event)]. *)
Definition checkFunnelStep (f : funnel) (e : event) (fa : FunnelAnalyzer)
  : FunnelAnalyzer * completion :=
  match funnelData fa !! f_id f with
  | None => (fa, Throw TypeError)
  | Some fd =>
      let '(σ, c) :=
        forEachi (checkStep f (fd_funnel fd) e) (steps f)
          {| fs_session := openSession e fd; fs_stats := stats fd |} in
      (set_funnelData (<[f_id f := store e σ fd]> (funnelData fa)) fa, c)
  end.

Definition analyzeEvent (e : event) (fa : FunnelAnalyzer) : FunnelAnalyzer * completion :=
  forEach (fun f => checkFunnelStep f e) (config_funnels fa) fa.

Definition tag (ls : storage) (e : event) : event :=
  {| ev_type := ev_type e; ev_url := ev_url e; ev_name := ev_name e;
     ev_element := ev_element e; ev_timestamp := ev_timestamp e;
     ev_sessionId := getSessionId ls; ev_userId := getUserId ls |}.

(** [addEvent(event)], with the storage it reads the identifiers from. *)
Definition addEvent (ls : storage) (e : event) (fa : FunnelAnalyzer)
  : FunnelAnalyzer * completion :=
  let e' := tag ls e in
  analyzeEvent e'
    {| config_funnels := config_funnels fa;
       events := events fa ++ [e'];
       funnelData := funnelData fa |}.

(** A run of [addEvent] over a list of events; an exception ends the
    handling of its event only, the next event is handled as usual. *)
Definition addEvents (l : list (storage * event)) (fa : FunnelAnalyzer) : FunnelAnalyzer :=
  fold_left (fun fa x => fst (addEvent (fst x) (snd x) fa)) l fa.

End Analyzer.

(** The analyzer as constructed: [config.funnels] is the list of the
    configuration, empty by default, and [funnelData] has no entry. *)
Definition create (funnels : list funnel) : FunnelAnalyzer :=
  {| config_funnels := funnels; events := []; funnelData := ∅ |}.

End Funnel.

(** ** Runs of the funnel analyzer, and what its statistics count *)

Module FunnelSpec.
Import JS Funnel.

(** The states an analyzer goes through: funnels are defined and events
    are added, in any order. *)
Inductive reachable (RegExp : string -> option (string -> bool))
  : FunnelAnalyzer -> Prop :=
  | reach_create funnels : reachable RegExp (create funnels)
  | reach_defineFunnel fa funnelId cs options :
      reachable RegExp fa ->
      reachable RegExp (defineFunnel funnelId cs options fa)
  | reach_addEvent fa ls e :
      reachable RegExp fa ->
      reachable RegExp (addEvent RegExp ls e fa).1.

(** [reached[i] >= reached[i+1]] for every adjacent pair of steps. *)
Definition monotone (st : funnelStats) : Prop :=
  forall i a b,
    stat_steps st !! i = Some a -> stat_steps st !! S i = Some b ->
    reached b <= reached a.

(** No funnel registered under [funnelId] allows backtracking. *)
Definition noBacktrack (funnelId : string) (fa : FunnelAnalyzer) : Prop :=
  forall f, f ∈ config_funnels fa -> f_id f = funnelId -> allowBacktrack f = false.

(** 1 when the session is at step [k] or beyond. *)
Definition atLeast (k : nat) (s : session) : Z :=
  if bool_decide (Z.of_nat k <= currentStep s) then 1 else 0.

(** The number of sessions at step [k] or beyond. *)
Definition sessionsAtLeast (k : nat) (m : gmap string session) : Z :=
  map_fold (fun _ s n => atLeast k s + n) 0 m.

(** Each [reached] counter is the number of sessions at its step or beyond. *)
Definition counted (st : funnelStats) (m : gmap string session) : Prop :=
  forall k a, stat_steps st !! k = Some a -> reached a = sessionsAtLeast k m.

(** The same while one session is being worked on, [rest] being the others. *)
Definition countedWith (σ : fstate) (rest : gmap string session) : Prop :=
  forall k a, stat_steps (fs_stats σ) !! k = Some a ->
    reached a = atLeast k (fs_session σ) + sessionsAtLeast k rest.

Definition countedAll (fa : FunnelAnalyzer) : Prop :=
  forall funnelId fd,
    funnelData fa !! funnelId = Some fd -> noBacktrack funnelId fa ->
    counted (stats fd) (sessions fd).

(** The completed steps of a session are the steps 0 to [currentStep],
    each once and in order. *)
Definition inOrder (s : session) : Prop :=
  -1 <= currentStep s
  /\ map cs_stepIndex (completedSteps s) = seq 0 (Z.to_nat (currentStep s + 1)).

Definition inOrderAll (fa : FunnelAnalyzer) : Prop :=
  forall funnelId fd sid s,
    funnelData fa !! funnelId = Some fd -> noBacktrack funnelId fa ->
    sessions fd !! sid = Some s -> inOrder s.

End FunnelSpec.

(** ** Sample funnels and events *)

Module FunnelExamples.
Import JS Funnel.

(** A host whose [RegExp] constructor rejects every pattern; the sample
    funnels below have no URL pattern, so it is never called on them. *)
Definition noRegExp : string -> option (string -> bool) := fun _ => None.

(** A host constructor for the patterns [urlMatches] builds from plain
    globs: literal characters, [.] and [.*], searched anywhere in the
    input. As in every ECMAScript engine, a pattern whose parentheses do
    not balance is a SyntaxError; balanced parentheses group and are
    otherwise transparent. The other special characters of regular
    expressions are outside this model. *)
Inductive token := Lit (c : ascii) | Dot | DotStar.

Fixpoint balanced (depth : nat) (s : string) : bool :=
  match s with
  | EmptyString => Nat.eqb depth 0
  | String c s' =>
      if Ascii.eqb c "("%char then balanced (S depth) s'
      else if Ascii.eqb c ")"%char then
        match depth with
        | O => false
        | S d => balanced d s'
        end
      else balanced depth s'
  end.

Fixpoint tokens (s : string) : list token :=
  match s with
  | EmptyString => []
  | String c s' =>
      if Ascii.eqb c "("%char || Ascii.eqb c ")"%char then tokens s'
      else if Ascii.eqb c "."%char then
        match s' with
        | String d s'' => if Ascii.eqb d "*"%char then DotStar :: tokens s'' else Dot :: tokens s'
        | EmptyString => [Dot]
        end
      else Lit c :: tokens s'
  end.

(** Some suffix of [s] satisfies [f]. *)
Fixpoint someSuffix (f : string -> bool) (s : string) : bool :=
  f s || match s with
         | EmptyString => false
         | String _ s' => someSuffix f s'
         end.

(** The tokens match a prefix of [s]. *)
Fixpoint matchHere (ts : list token) (s : string) : bool :=
  match ts with
  | [] => true
  | Lit c :: ts' =>
      match s with
      | String a s' => Ascii.eqb a c && matchHere ts' s'
      | EmptyString => false
      end
  | Dot :: ts' =>
      match s with
      | String _ s' => matchHere ts' s'
      | EmptyString => false
      end
  | DotStar :: ts' => someSuffix (matchHere ts') s
  end.

Definition globRegExp (pattern : string) : option (string -> bool) :=
  if balanced 0 pattern then Some (someSuffix (matchHere (tokens pattern))) else None.

Definition onUrl (pattern : string) : stepConfig :=
  {| sc_id := None; sc_name := None; sc_url := Some pattern;
     sc_event := None; sc_selector := None |}.

Definition pageview (url : string) (t : Z) : event :=
  {| ev_type := "pageview"; ev_url := Some url; ev_name := None;
     ev_element := None; ev_timestamp := t;
     ev_sessionId := ""; ev_userId := "" |}.

Definition tab : storage :=
  {| standlog_session := Some "s1"; standlog_user := Some "u1" |}.

Definition onEvent (name : string) : stepConfig :=
  {| sc_id := None; sc_name := None; sc_url := None;
     sc_event := Some name; sc_selector := None |}.

Definition onSelector (sel : string) : stepConfig :=
  {| sc_id := None; sc_name := None; sc_url := None;
     sc_event := None; sc_selector := Some sel |}.

Definition custom (name : string) (t : Z) : event :=
  {| ev_type := "custom"; ev_url := None; ev_name := Some name;
     ev_element := None; ev_timestamp := t;
     ev_sessionId := ""; ev_userId := "" |}.

Definition click (tag id cls : string) (t : Z) : event :=
  {| ev_type := "click"; ev_url := None; ev_name := None;
     ev_element := Some {| tagName := tag; el_id := id; className := cls |};
     ev_timestamp := t; ev_sessionId := ""; ev_userId := "" |}.

Definition options (backtrack : bool) : funnelOptions :=
  {| opt_name := None; opt_timeWindow := None; opt_allowBacktrack := backtrack |}.

(** cart, then shipping, then payment: three steps matched by custom
    events, backtracking disabled. *)
Definition checkout : FunnelAnalyzer :=
  defineFunnel "checkout" [onEvent "cart"; onEvent "shipping"; onEvent "payment"]
    (options false) (create []).

(** Two steps, backtracking allowed. *)
Definition signup : FunnelAnalyzer :=
  defineFunnel "signup" [onEvent "form"; onEvent "done"] (options true) (create []).

(** A landing event, then any click, then a click on the element [#buy]. *)
Definition shop : FunnelAnalyzer :=
  defineFunnel "shop" [onEvent "landing"; onEvent "click"; onSelector "#buy"]
    (options false) (create []).

Definition checkoutFunnel : funnel :=
  default {| f_id := ""; f_name := ""; steps := []; timeWindow := 0;
             allowBacktrack := false |} (head (config_funnels checkout)).

(** The checkout funnel after cart, payment and shipping events of one
    session, in this order. *)
Definition checkoutRun : FunnelAnalyzer :=
  addEvents noRegExp
    [(tab, custom "cart" 1); (tab, custom "payment" 2); (tab, custom "shipping" 3)]
    checkout.

(** The signup funnel after a session went through it, back and through
    it again. *)
Definition signupRun : FunnelAnalyzer :=
  addEvents noRegExp
    [(tab, custom "form" 1); (tab, custom "done" 2);
     (tab, custom "form" 3); (tab, custom "done" 4)]
    signup.

(** A funnel whose first step has a URL pattern with an unbalanced
    parenthesis, and a second funnel defined after it. *)
Definition broken : FunnelAnalyzer :=
  defineFunnel "thanks" [onUrl "/thanks"] (options false)
    (defineFunnel "promo" [onUrl "/promo(*"; onEvent "buy"] (options false) (create [])).

(** The [reached] counters of a funnel. *)
Definition reachedOf (funnelId : string) (fa : FunnelAnalyzer) : list Z :=
  match funnelData fa !! funnelId with
  | Some fd => map reached (stat_steps (stats fd))
  | None => []
  end.

(** The progress of a session in a funnel. *)
Definition currentStepOf (funnelId sid : string) (fa : FunnelAnalyzer) : option Z :=
  fd ← funnelData fa !! funnelId; s ← sessions fd !! sid; Some (currentStep s).

Definition completedOf (funnelId sid : string) (fa : FunnelAnalyzer) : list nat :=
  match funnelData fa !! funnelId ≫= fun fd => sessions fd !! sid with
  | Some s => map cs_stepIndex (completedSteps s)
  | None => []
  end.

End FunnelExamples.

(** ** The persona analyzer (js/modules/personas/personas.js) *)

Module Persona.
Import JS.

Record deviceInfo := { userAgent : string }.

Record page := {
  pg_url : option string;
  pg_referrer : option string;
}.

(** The fields of an event the analyzer reads. *)
Record event := {
  ev_type : string;
  ev_timestamp : Z;
  ev_name : option string;
  ev_url : option string;
  ev_page : option page;
  ev_device : option deviceInfo;
}.

Record session := {
  sess_id : string;
  startTime : Z;
  lastActivity : Z;
  duration : Z;
  pageViews : Z;
  clicks : Z;
  conversions : Z;
  formSubmissions : Z;
  sess_events : list event;
  entryPage : option string;
  device : option deviceInfo;
  referrer : option string;
}.

(** An object used as a table of counters, its keys in insertion order
    (no key of the program is the decimal form of an integer). *)
Abbreviation counts := (list (string * Z)).

(** [user.metrics]; [locations] is never written. *)
Record userMetrics := {
  totalSessions : Z;
  totalPageViews : Z;
  totalDuration : Z;
  totalClicks : Z;
  conversionEvents : Z;
  deviceTypes : counts;
  browsers : counts;
  referrers : counts;
  pages : counts;
}.

(** An entry of [user.personas]. *)
Record assignment := {
  as_id : string;
  assignedAt : Z;
  confidence : jsnum;
}.

(** A user profile; [attributes] is never written. *)
Record userProfile := {
  u_id : string;
  firstSeen : Z;
  lastSeen : Z;
  sessions : list session;
  currentSession : option session;
  personas : list assignment;
  metrics : userMetrics;
}.

Record rule := {
  metric : string;
  operator : string;
  value : jsval;
  timeframe : option string;
}.

(** A persona; [icon] and [created] are never read. *)
Record persona := {
  p_id : string;
  p_name : string;
  p_description : string;
  rules : list rule;
  p_color : string;
}.

(** The configuration handed to [definePersona]: an object with the keys
    [name], [description], [rules] and [color], the last two optional.
    The object is spread over the persona, so that a key that is given
    is taken as it is. *)
Record personaConfig := {
  cfg_name : string;
  cfg_description : string;
  cfg_rules : option (list rule);
  cfg_color : option string;
}.

(** The segment metrics [updatePersonaMetrics] computes; the other keys
    of the object keep their initial values. *)
Record personaMetrics := {
  totalUsers : Z;
  activeUsers : Z;
  avgSessionDuration : jsnum;
  avgPageViews : jsnum;
  conversionRate : jsnum;
}.

Record segment := {
  seg_persona : persona;
  seg_users : gset string;
  seg_metrics : personaMetrics;
}.

Record PersonaAnalyzer := {
  config_personas : list persona;
  users : gmap string userProfile;
  segments : gmap string segment;
}.

(** What a call reads of the clock and of the random generator:
    [Date.now()] and the identifier of a new session. *)
Record env := {
  now : Z;
  freshSessionId : string;
}.

(** *** Setters *)

Definition set_users (m : gmap string userProfile) (pa : PersonaAnalyzer) : PersonaAnalyzer :=
  {| config_personas := config_personas pa; users := m; segments := segments pa |}.

Definition set_segments (m : gmap string segment) (pa : PersonaAnalyzer) : PersonaAnalyzer :=
  {| config_personas := config_personas pa; users := users pa; segments := m |}.

Definition set_seg_users (s : gset string) (seg : segment) : segment :=
  {| seg_persona := seg_persona seg; seg_users := s; seg_metrics := seg_metrics seg |}.

Definition set_seg_metrics (pm : personaMetrics) (seg : segment) : segment :=
  {| seg_persona := seg_persona seg; seg_users := seg_users seg; seg_metrics := pm |}.

Definition set_personas (l : list assignment) (u : userProfile) : userProfile :=
  {| u_id := u_id u; firstSeen := firstSeen u; lastSeen := lastSeen u;
     sessions := sessions u; currentSession := currentSession u;
     personas := l; metrics := metrics u |}.

Definition set_lastSeen (t : Z) (u : userProfile) : userProfile :=
  {| u_id := u_id u; firstSeen := firstSeen u; lastSeen := t;
     sessions := sessions u; currentSession := currentSession u;
     personas := personas u; metrics := metrics u |}.

Definition set_current (s : session) (m : userMetrics) (u : userProfile) : userProfile :=
  {| u_id := u_id u; firstSeen := firstSeen u; lastSeen := lastSeen u;
     sessions := sessions u; currentSession := Some s;
     personas := personas u; metrics := m |}.

(** *** Defining personas *)

Definition initializePersonaMetrics : personaMetrics :=
  {| totalUsers := 0; activeUsers := 0; avgSessionDuration := num 0;
     avgPageViews := num 0; conversionRate := num 0 |}.

Definition mkPersona (id : string) (config : personaConfig) : persona :=
  {| p_id := id;
     p_name := cfg_name config;
     p_description := cfg_description config;
     rules := default [] (cfg_rules config);
     p_color := default "#757575" (cfg_color config) |}.

Definition definePersona (id : string) (config : personaConfig) (pa : PersonaAnalyzer)
  : PersonaAnalyzer :=
  let persona := mkPersona id config in
  {| config_personas := config_personas pa ++ [persona];
     users := users pa;
     segments := <[id := {| seg_persona := persona; seg_users := ∅;
                            seg_metrics := initializePersonaMetrics |}]> (segments pa) |}.

Definition mkRule (m op : string) (v : jsval) (tf : string) : rule :=
  {| metric := m; operator := op; value := v; timeframe := Some tf |}.

Definition vnum (z : Z) : jsval := VNum (num z).

Definition powerUserConfig : personaConfig :=
  {| cfg_name := "Power User";
     cfg_description := "Highly engaged users with frequent interactions";
     cfg_rules := Some [ mkRule "pageViews" ">" (vnum 10) "session";
                         mkRule "sessionDuration" ">" (vnum 300000) "session";
                         mkRule "clickCount" ">" (vnum 50) "session" ];
     cfg_color := Some "#4CAF50" |}.

Definition casualUserConfig : personaConfig :=
  {| cfg_name := "Casual User";
     cfg_description := "Regular users with moderate engagement";
     cfg_rules := Some [ mkRule "pageViews" "between" (VArr [vnum 3; vnum 10]) "session";
                         mkRule "sessionDuration" "between"
                           (VArr [vnum 60000; vnum 300000]) "session" ];
     cfg_color := Some "#2196F3" |}.

Definition bouncerConfig : personaConfig :=
  {| cfg_name := "Bouncer";
     cfg_description := "Users who leave quickly with minimal interaction";
     cfg_rules := Some [ mkRule "pageViews" "<=" (vnum 1) "session";
                         mkRule "sessionDuration" "<" (vnum 30000) "session" ];
     cfg_color := Some "#F44336" |}.

Definition mobileUserConfig : personaConfig :=
  {| cfg_name := "Mobile User";
     cfg_description := "Users primarily accessing via mobile devices";
     cfg_rules := Some [ mkRule "deviceType" "=" (VStr "mobile") "session";
                         mkRule "mobileSessionRatio" ">" (VNum (Fin (8 # 10))) "week" ];
     cfg_color := Some "#FF9800" |}.

Definition converterConfig : personaConfig :=
  {| cfg_name := "Converter";
     cfg_description := "Users who complete conversion actions";
     cfg_rules := Some [ mkRule "conversionEvents" ">" (vnum 0) "session";
                         mkRule "funnelCompletion" "=" (VBool true) "session" ];
     cfg_color := Some "#9C27B0" |}.

Definition initializeDefaultPersonas (pa : PersonaAnalyzer) : PersonaAnalyzer :=
  definePersona "converter" converterConfig
    (definePersona "mobile_user" mobileUserConfig
      (definePersona "bouncer" bouncerConfig
        (definePersona "casual_user" casualUserConfig
          (definePersona "power_user" powerUserConfig pa)))).

(** The analyzer as constructed. *)
Definition create : PersonaAnalyzer :=
  initializeDefaultPersonas {| config_personas := []; users := ∅; segments := ∅ |}.

(** *** Profiles and sessions *)

Definition emptyMetrics : userMetrics :=
  {| totalSessions := 0; totalPageViews := 0; totalDuration := 0; totalClicks := 0;
     conversionEvents := 0; deviceTypes := []; browsers := []; referrers := [];
     pages := [] |}.

Definition createUserProfile (ε : env) (userId : string) : userProfile :=
  {| u_id := userId; firstSeen := now ε; lastSeen := now ε; sessions := [];
     currentSession := None; personas := []; metrics := emptyMetrics |}.

Definition SESSION_TIMEOUT : Z := 1800000.

Definition isNewSession (currentSession : session) (e : event) : bool :=
  (SESSION_TIMEOUT <? ev_timestamp e - lastActivity currentSession)%Z.

(** [a || b] on optional strings. *)
Definition orElse (a b : option string) : option string :=
  match truthy a with Some x => Some x | None => b end.

(** [event.page?.url || event.url]. *)
Definition eventUrl (e : event) : option string :=
  orElse (ev_page e ≫= pg_url) (ev_url e).

Definition newSession (ε : env) (e : event) : session :=
  {| sess_id := freshSessionId ε;
     startTime := ev_timestamp e; lastActivity := ev_timestamp e; duration := 0;
     pageViews := 0; clicks := 0; conversions := 0; formSubmissions := 0;
     sess_events := [];
     entryPage := eventUrl e;
     device := ev_device e;
     referrer := ev_page e ≫= pg_referrer |}.

Definition set_totalSessions (n : Z) (m : userMetrics) : userMetrics :=
  {| totalSessions := n; totalPageViews := totalPageViews m;
     totalDuration := totalDuration m; totalClicks := totalClicks m;
     conversionEvents := conversionEvents m; deviceTypes := deviceTypes m;
     browsers := browsers m; referrers := referrers m; pages := pages m |}.

(** [startNewSession]: the current session, if any, is archived. *)
Definition startNewSession (ε : env) (u : userProfile) (e : event) : userProfile :=
  {| u_id := u_id u; firstSeen := firstSeen u; lastSeen := lastSeen u;
     sessions := match currentSession u with
                 | Some s => sessions u ++ [s]
                 | None => sessions u
                 end;
     currentSession := Some (newSession ε e);
     personas := personas u;
     metrics := set_totalSessions (totalSessions (metrics u) + 1) (metrics u) |}.

(** [obj[k] = (obj[k] || 0) + 1]. *)
Fixpoint incr (k : string) (l : counts) : counts :=
  match l with
  | [] => [(k, 1)]
  | (k', n) :: l' => if String.eqb k' k then (k', n + 1) :: l' else (k', n) :: incr k l'
  end.

(** [obj[k] || 0]. *)
Fixpoint count (k : string) (l : counts) : Z :=
  match l with
  | [] => 0
  | (k', n) :: l' => if String.eqb k' k then n else count k l'
  end.

Definition getDeviceType (userAgent : string) : string :=
  if includes userAgent "Mobile" || includes userAgent "Android"
     || includes userAgent "iPhone" || includes userAgent "iPad"
  then "mobile"
  else if includes userAgent "Tablet" then "tablet"
  else "desktop".

Definition getBrowser (userAgent : string) : string :=
  if includes userAgent "Chrome" then "Chrome"
  else if includes userAgent "Firefox" then "Firefox"
  else if includes userAgent "Safari" then "Safari"
  else if includes userAgent "Edge" then "Edge"
  else "Other".

Definition updatePageMetrics (e : event) (m : userMetrics) : userMetrics :=
  {| totalSessions := totalSessions m; totalPageViews := totalPageViews m;
     totalDuration := totalDuration m; totalClicks := totalClicks m;
     conversionEvents := conversionEvents m; deviceTypes := deviceTypes m;
     browsers := browsers m;
     referrers := match truthy (ev_page e ≫= pg_referrer) with
                  | Some r => incr r (referrers m)
                  | None => referrers m
                  end;
     pages := match truthy (eventUrl e) with
              | Some u => incr u (pages m)
              | None => pages m
              end |}.

Definition updateDeviceMetrics (d : deviceInfo) (m : userMetrics) : userMetrics :=
  {| totalSessions := totalSessions m; totalPageViews := totalPageViews m;
     totalDuration := totalDuration m; totalClicks := totalClicks m;
     conversionEvents := conversionEvents m;
     deviceTypes := incr (getDeviceType (userAgent d)) (deviceTypes m);
     browsers := incr (getBrowser (userAgent d)) (browsers m);
     referrers := referrers m; pages := pages m |}.

(** What the [switch] on the type of the event adds to the counters of
    the profile and of the session. *)
Record increments := {
  dPageViews : Z;
  dClicks : Z;
  dConversions : Z;
  dForms : Z;
}.

Definition bump (d : increments) (m : userMetrics) : userMetrics :=
  {| totalSessions := totalSessions m;
     totalPageViews := totalPageViews m + dPageViews d;
     totalDuration := totalDuration m;
     totalClicks := totalClicks m + dClicks d;
     conversionEvents := conversionEvents m + dConversions d;
     deviceTypes := deviceTypes m; browsers := browsers m;
     referrers := referrers m; pages := pages m |}.

Definition set_totalDuration (d : Z) (m : userMetrics) : userMetrics :=
  {| totalSessions := totalSessions m; totalPageViews := totalPageViews m;
     totalDuration := d; totalClicks := totalClicks m;
     conversionEvents := conversionEvents m; deviceTypes := deviceTypes m;
     browsers := browsers m; referrers := referrers m; pages := pages m |}.

(** The session after the event: logged, stamped, counted and timed. *)
Definition touch (e : event) (d : increments) (s : session) : session :=
  {| sess_id := sess_id s; startTime := startTime s;
     lastActivity := ev_timestamp e;
     duration := ev_timestamp e - startTime s;
     pageViews := pageViews s + dPageViews d;
     clicks := clicks s + dClicks d;
     conversions := conversions s + dConversions d;
     formSubmissions := formSubmissions s + dForms d;
     sess_events := sess_events s ++ [e];
     entryPage := entryPage s; device := device s; referrer := referrer s |}.

Definition isConversion (e : event) : bool :=
  match truthy (ev_name e) with
  | Some n => includes n "conversion"
  | None => false
  end.

Definition increment (pv cl cv fs : Z) : increments :=
  {| dPageViews := pv; dClicks := cl; dConversions := cv; dForms := fs |}.

(** The [switch (event.type)] of [updateUserProfile]. *)
Definition switchOnType (e : event) : increments :=
  if String.eqb (ev_type e) "pageview" then increment 1 0 0 0
  else if String.eqb (ev_type e) "click" then increment 0 1 0 0
  else if String.eqb (ev_type e) "custom" then
    if isConversion e then increment 0 0 1 0 else increment 0 0 0 0
  else if String.eqb (ev_type e) "form_submit" then increment 0 0 0 1
  else increment 0 0 0 0.

Definition sumDurations (l : list session) : Z :=
  fold_left (fun total s => total + duration s) l 0.

(** [updateUserProfile(user, event)]. *)
Definition updateUserProfile (ε : env) (u : userProfile) (e : event) : userProfile :=
  let u1 := set_lastSeen (ev_timestamp e) u in
  let u2 := match currentSession u1 with
            | Some s => if isNewSession s e then startNewSession ε u1 e else u1
            | None => startNewSession ε u1 e
            end in
  let session := default (newSession ε e) (currentSession u2) in
  let d := switchOnType e in
  let m1 := bump d (metrics u2) in
  let m2 := if String.eqb (ev_type e) "pageview" then updatePageMetrics e m1 else m1 in
  let m3 := match ev_device e with
            | Some dev => updateDeviceMetrics dev m2
            | None => m2
            end in
  set_current (touch e d session) (set_totalDuration (sumDurations (sessions u2)) m3) u2.

(** *** Metrics and rules *)

Definition getMostFrequentDevice (u : userProfile) : string :=
  snd (fold_left
         (fun acc entry =>
            if (fst acc <? snd entry)%Z then (snd entry, fst entry) else acc)
         (deviceTypes (metrics u)) (0, "desktop")).

Definition getMobileSessionRatio (u : userProfile) : jsnum :=
  if (0 <? totalSessions (metrics u))%Z
  then div (num (count "mobile" (deviceTypes (metrics u)))) (num (totalSessions (metrics u)))
  else num 0.

(** [timeframe === "session"]. *)
Definition isSessionTimeframe (tf : option string) : bool :=
  match tf with
  | Some t => String.eqb t "session"
  | None => false
  end.

(** [session?.field || 0]. *)
Definition sessionField (field : session -> Z) (u : userProfile) : jsval :=
  match currentSession u with
  | Some s => vnum (field s)
  | None => vnum 0
  end.

(** [getUserMetric(user, metric, timeframe = "all")]. *)
Definition getUserMetric (u : userProfile) (metric : string) (tf : option string) : jsval :=
  if String.eqb metric "pageViews" then
    if isSessionTimeframe tf then sessionField pageViews u
    else vnum (totalPageViews (metrics u))
  else if String.eqb metric "sessionDuration" then
    if isSessionTimeframe tf then sessionField duration u
    else VNum (div (num (totalDuration (metrics u))) (num (totalSessions (metrics u))))
  else if String.eqb metric "clickCount" then
    if isSessionTimeframe tf then sessionField clicks u
    else vnum (totalClicks (metrics u))
  else if String.eqb metric "conversionEvents" then
    if isSessionTimeframe tf then sessionField conversions u
    else vnum (conversionEvents (metrics u))
  else if String.eqb metric "deviceType" then VStr (getMostFrequentDevice u)
  else if String.eqb metric "mobileSessionRatio" then VNum (getMobileSessionRatio u)
  else if String.eqb metric "funnelCompletion" then
    VBool (match currentSession u with
           | Some s => (0 <? conversions s)%Z
           | None => false
           end)
  else vnum 0.

(** [v[i]]. *)
Definition index (v : jsval) (i : nat) : outcome jsval :=
  match v with
  | VUndefined | VNull => Raise TypeError
  | VArr l => Return (default VUndefined (l !! i))
  | VStr s => Return (match String.get i s with
                      | Some c => VStr (String c EmptyString)
                      | None => VUndefined
                      end)
  | VBool _ | VNum _ => Return VUndefined
  end.

Section Rules.

Variable StringToNumber : string -> jsnum.
Variable ToString : jsval -> string.

(** [v.includes(x)]: the method of arrays and of strings; other values
    have none. *)
Definition valueIncludes (v x : jsval) : outcome bool :=
  match v with
  | VArr l => Return (existsb (fun y => sameValueZero y x) l)
  | VStr s => Return (includes s (match x with VStr t => t | _ => ToString x end))
  | _ => Raise TypeError
  end.

(** [evaluateRule(user, rule)]. *)
Definition evaluateRule (u : userProfile) (r : rule) : outcome bool :=
  let v := getUserMetric u (metric r) (timeframe r) in
  let op := operator r in
  if String.eqb op ">" then Return (gt StringToNumber ToString v (value r))
  else if String.eqb op "<" then Return (lt StringToNumber ToString v (value r))
  else if String.eqb op ">=" then Return (ge StringToNumber ToString v (value r))
  else if String.eqb op "<=" then Return (le StringToNumber ToString v (value r))
  else if String.eqb op "=" then Return (strictEq v (value r))
  else if String.eqb op "!=" then Return (negb (strictEq v (value r)))
  else if String.eqb op "between" then
    match index (value r) 0 with
    | Raise x => Raise x
    | Return low =>
        if ge StringToNumber ToString v low then
          match index (value r) 1 with
          | Raise x => Raise x
          | Return high => Return (le StringToNumber ToString v high)
          end
        else Return false
    end
  else if String.eqb op "in" then valueIncludes (value r) v
  else Return false.

(** [l.every(f)] for a predicate that can raise. *)
Fixpoint every {A : Type} (f : A -> outcome bool) (l : list A) : outcome bool :=
  match l with
  | [] => Return true
  | x :: l' =>
      match f x with
      | Return true => every f l'
      | r => r
      end
  end.

Definition userMatchesPersona (u : userProfile) (p : persona) : outcome bool :=
  every (evaluateRule u) (rules p).

Definition ruleScore (u : userProfile) (r : rule) : jsnum :=
  let userValue := getUserMetric u (metric r) (timeframe r) in
  let ruleValue := value r in
  if String.eqb (operator r) ">" && gt StringToNumber ToString userValue ruleValue then
    min (num 1)
        (div (ToNumber StringToNumber ToString userValue)
             (mul (ToNumber StringToNumber ToString ruleValue) (num 2)))
  else if String.eqb (operator r) "=" && strictEq userValue ruleValue then num 1
  else num 0.

Definition calculatePersonaConfidence (u : userProfile) (p : persona) : jsnum :=
  let score := fold_left (fun score r => add score (ruleScore u r)) (rules p) (num 0) in
  round (mul (div score (num (Z.of_nat (length (rules p))))) (num 100)).

(** *** Assignment *)

(** What [analyzeUserPersona] works on: the profile, the segments and
    the local set [newPersonas]. *)
Record astate := {
  a_user : userProfile;
  a_segments : gmap string segment;
  a_new : gset string;
}.

(** The callback of [this.config.personas.forEach]; [current] is
    [currentPersonas]. The profile is extended before the segment is
    looked up. *)
Definition assign (ε : env) (current : gset string) (p : persona) (σ : astate)
  : astate * completion :=
  let u := a_user σ in
  match userMatchesPersona u p with
  | Raise x => (σ, Throw x)
  | Return false => (σ, Normal)
  | Return true =>
      let new' := a_new σ ∪ {[p_id p]} in
      if decide (p_id p ∈ current) then
        ({| a_user := u; a_segments := a_segments σ; a_new := new' |}, Normal)
      else
        let u' := set_personas
                    (personas u ++
                       [{| as_id := p_id p; assignedAt := now ε;
                           confidence := calculatePersonaConfidence u p |}]) u in
        match a_segments σ !! p_id p with
        | None => ({| a_user := u'; a_segments := a_segments σ; a_new := new' |},
                   Throw TypeError)
        | Some seg =>
            ({| a_user := u';
                a_segments := <[p_id p := set_seg_users (seg_users seg ∪ {[u_id u]}) seg]>
                                (a_segments σ);
                a_new := new' |}, Normal)
        end
  end.

(** The callback of [user.personas.filter], run over the list: the kept
    entries and the segments after the deletions. An exception leaves
    [user.personas] unassigned. *)
Fixpoint revoke (new : gset string) (userId : string) (l : list assignment)
    (segs : gmap string segment) : list assignment * gmap string segment * completion :=
  match l with
  | [] => ([], segs, Normal)
  | p :: l' =>
      if decide (as_id p ∈ new) then
        let '(kept, segs', c) := revoke new userId l' segs in (p :: kept, segs', c)
      else
        match segs !! as_id p with
        | None => ([], segs, Throw TypeError)
        | Some seg =>
            revoke new userId l'
              (<[as_id p := set_seg_users (seg_users seg ∖ {[userId]}) seg]> segs)
        end
  end.

Definition count_if {A : Type} (f : A -> bool) (l : list A) : Z :=
  Z.of_nat (length (filter (fun x => f x = true) l)).

Definition average (f : userProfile -> jsnum) (l : list userProfile) : jsnum :=
  div (fold_left (fun sum u => add sum (f u)) l (num 0)) (num (Z.of_nat (length l))).

(** The metrics of one segment, from the profiles of its members. *)
Definition segmentMetrics (ε : env) (all : gmap string userProfile) (seg : segment)
  : personaMetrics :=
  let members := omap (fun id => all !! id) (elements (seg_users seg)) in
  let active := count_if (fun u => (now ε - lastSeen u <? 86400000)%Z) members in
  match members with
  | [] => {| totalUsers := 0; activeUsers := active;
             avgSessionDuration := avgSessionDuration (seg_metrics seg);
             avgPageViews := avgPageViews (seg_metrics seg);
             conversionRate := conversionRate (seg_metrics seg) |}
  | _ => {| totalUsers := Z.of_nat (length members); activeUsers := active;
            avgSessionDuration :=
              average (fun u => div (num (totalDuration (metrics u)))
                                    (num (totalSessions (metrics u)))) members;
            avgPageViews :=
              average (fun u => div (num (totalPageViews (metrics u)))
                                    (num (totalSessions (metrics u)))) members;
            conversionRate :=
              div (num (count_if (fun u => (0 <? conversionEvents (metrics u))%Z) members))
                  (num (Z.of_nat (length members))) |}
  end.

(** [updatePersonaMetrics()]. *)
Definition updatePersonaMetrics (ε : env) (pa : PersonaAnalyzer) : PersonaAnalyzer :=
  set_segments
    ((fun seg => set_seg_metrics (segmentMetrics ε (users pa) seg) seg) <$> segments pa) pa.

(** [analyzeUserPersona(user)], the profile being the one stored under
    [userId]. *)
Definition analyzeUserPersona (ε : env) (userId : string) (pa : PersonaAnalyzer)
  : PersonaAnalyzer * completion :=
  match users pa !! userId with
  | None => (pa, Throw TypeError)
  | Some u =>
      let current : gset string := list_to_set (map as_id (personas u)) in
      match forEach (assign ε current) (config_personas pa)
              {| a_user := u; a_segments := segments pa; a_new := ∅ |} with
      | (σ, Throw x) =>
          (set_segments (a_segments σ) (set_users (<[userId := a_user σ]> (users pa)) pa),
           Throw x)
      | (σ, Normal) =>
          let u1 := a_user σ in
          match revoke (a_new σ) (u_id u1) (personas u1) (a_segments σ) with
          | (_, segs, Throw x) =>
              (set_segments segs (set_users (<[userId := u1]> (users pa)) pa), Throw x)
          | (kept, segs, Normal) =>
              (updatePersonaMetrics ε
                 (set_segments segs
                    (set_users (<[userId := set_personas kept u1]> (users pa)) pa)),
               Normal)
          end
      end
  end.

(** [addUserEvent(userId, event)]. *)
Definition addUserEvent (ε : env) (userId : string) (e : event) (pa : PersonaAnalyzer)
  : PersonaAnalyzer * completion :=
  let u := default (createUserProfile ε userId) (users pa !! userId) in
  analyzeUserPersona ε userId
    (set_users (<[userId := updateUserProfile ε u e]> (users pa)) pa).

(** A run of [addUserEvent]; an exception ends the handling of its
    event only. *)
Definition addUserEvents (l : list (env * string * event)) (pa : PersonaAnalyzer)
  : PersonaAnalyzer :=
  fold_left (fun pa x => (addUserEvent x.1.1 x.1.2 x.2 pa).1) l pa.

End Rules.

End Persona.

(** ** Consistency of the persona analyzer *)

Module PersonaSpec.
Import JS Persona.

(** The persona [pid] is on the list of the profile. *)
Definition assigned (u : userProfile) (pid : string) : Prop :=
  pid ∈ map as_id (personas u).

(** A profile is stored under its own identifier. *)
Definition keyed (pa : PersonaAnalyzer) : Prop :=
  forall k u, users pa !! k = Some u -> u_id u = k.

(** The members of a segment are users of the analyzer. *)
Definition known (pa : PersonaAnalyzer) : Prop :=
  forall pid seg x,
    segments pa !! pid = Some seg -> x ∈ seg_users seg -> is_Some (users pa !! x).

(** Every persona of the configuration, and every persona on the list
    of a profile, has a segment. *)
Definition segmented (pa : PersonaAnalyzer) : Prop :=
  (forall p, p ∈ config_personas pa -> is_Some (segments pa !! p_id p))
  /\ (forall k u pid, users pa !! k = Some u -> assigned u pid ->
        is_Some (segments pa !! pid)).

(** The list of a profile and the membership sets of the segments say
    the same. *)
Definition agree (pa : PersonaAnalyzer) : Prop :=
  forall k u pid seg,
    users pa !! k = Some u -> segments pa !! pid = Some seg ->
    (assigned u pid <-> u_id u ∈ seg_users seg).

Definition consistent (pa : PersonaAnalyzer) : Prop :=
  keyed pa /\ known pa /\ segmented pa /\ agree pa.

(** The state of [analyzeUserPersona] while it works on the profile stored
    under [uid] in [pa]: the segments are those of [pa] up to the
    membership of [uid], which follows the list of the profile. *)
Definition tracks (pa : PersonaAnalyzer) (uid : string) (σ : astate) : Prop :=
  u_id (a_user σ) = uid
  /\ (forall pid, is_Some (a_segments σ !! pid) <-> is_Some (segments pa !! pid))
  /\ (forall pid seg', a_segments σ !! pid = Some seg' ->
        exists seg, segments pa !! pid = Some seg
          /\ forall x, x <> uid -> (x ∈ seg_users seg' <-> x ∈ seg_users seg))
  /\ (forall pid seg', a_segments σ !! pid = Some seg' ->
        (assigned (a_user σ) pid <-> uid ∈ seg_users seg'))
  /\ (forall pid, assigned (a_user σ) pid -> is_Some (a_segments σ !! pid)).

(** The entries [revoke] takes off the list. *)
Definition revoked (new : gset string) (l : list assignment) (pid : string) : Prop :=
  pid ∈ map as_id l /\ pid ∉ new.

(** What [revoke] does to a segment. *)
Definition revokeIn (new : gset string) (uid : string) (l : list assignment)
    (pid : string) (seg : segment) : segment :=
  if bool_decide (revoked new l pid)
  then set_seg_users (seg_users seg ∖ {[uid]}) seg
  else seg.

(** The persona [pid] is on the list of the profile of [uid]. *)
Definition listed (pa : PersonaAnalyzer) (uid pid : string) : Prop :=
  exists u, users pa !! uid = Some u /\ assigned u pid.

(** [uid] is in the membership set of the segment of [pid]. *)
Definition member (pa : PersonaAnalyzer) (uid pid : string) : Prop :=
  exists seg, segments pa !! pid = Some seg /\ uid ∈ seg_users seg.

(** The Power User persona as the constructor defines it. *)
Definition powerUser : persona := mkPersona "power_user" powerUserConfig.

(** The number of sessions counted in the metrics is the number of
    archived sessions plus the one in progress. *)
Definition sessionsCounted (u : userProfile) : Prop :=
  totalSessions (metrics u) =
    Z.of_nat (length (sessions u))
    + match currentSession u with Some _ => 1 | None => 0 end.

(** The sum of the durations of a list of sessions, as the claim words
    it; to be compared with the [reduce] of the code, [sumDurations]. *)
Fixpoint archivedDuration (l : list session) : Z :=
  match l with
  | [] => 0
  | s :: l' => duration s + archivedDuration l'
  end.

End PersonaSpec.

(** ** A sample visit *)

Module PersonaExamples.
Import JS Persona.

(** Conversions of a host; the built-in rules compare numbers with
    numbers, strings with strings and booleans with booleans, and need
    neither. *)
Definition hostNumber : string -> jsnum := fun _ => NaN.
Definition hostString : jsval -> string := fun _ => "".

Definition at_ (t : Z) : env :=
  {| now := t; freshSessionId := "session_" +:+ pretty t |}.

Definition pageview (t : Z) : env * string * event :=
  (at_ t, "u1",
   {| ev_type := "pageview"; ev_timestamp := t; ev_name := None;
      ev_url := Some "/home"; ev_page := None; ev_device := None |}).

Definition click (t : Z) : env * string * event :=
  (at_ t, "u1",
   {| ev_type := "click"; ev_timestamp := t; ev_name := None;
      ev_url := Some "/home"; ev_page := None; ev_device := None |}).

Definition times (n : nat) (from : Z) : list Z :=
  map (fun i => from + Z.of_nat i) (seq 0 n).

(** Eleven page views and fifty-five clicks, the last one 310 seconds
    after the first page view. *)
Definition visit : list (env * string * event) :=
  map pageview (times 11 1000) ++ map click (times 54 2000) ++ [click 311000].

(** Ten clicks, more than half an hour later. *)
Definition comeback : list (env * string * event) :=
  map click (times 10 3000000).

Definition engaged : PersonaAnalyzer :=
  addUserEvents hostNumber hostString visit create.

Definition lapsed : PersonaAnalyzer :=
  addUserEvents hostNumber hostString comeback engaged.

(** The profile of the visitor, and the session in progress. *)
Definition profileOf (pa : PersonaAnalyzer) : userProfile :=
  default (createUserProfile (at_ 0) "u1") (users pa !! "u1").

Definition sessionOf (pa : PersonaAnalyzer) : session :=
  default (newSession (at_ 0) (click 0).2) (currentSession (profileOf pa)).

Definition isListed (pa : PersonaAnalyzer) (uid pid : string) : bool :=
  match users pa !! uid with
  | Some u => bool_decide (pid ∈ map as_id (personas u))
  | None => false
  end.

Definition isMember (pa : PersonaAnalyzer) (uid pid : string) : bool :=
  match segments pa !! pid with
  | Some seg => bool_decide (uid ∈ seg_users seg)
  | None => false
  end.

End PersonaExamples.

(** ** The delivery queue of the tracker (js/modules/tracking/core.js)

    [sendEvents] is an asynchronous function: it runs up to its [await]
    at the time of the call, and its continuation runs when the answer to
    the request arrives. The tracker is a transition system over the
    calls of the page ([addEvent], the interval timer, the unload
    handler) and the answers of the network; the requests in flight stand
    for the suspended calls of [sendEvents]. *)

Module Tracker.

(** An event: type, time and payload as tracked, and the three tags
    [addEvent] writes. *)
Record event := {
  ev_type : string;
  ev_timestamp : Z;
  ev_payload : string;
  ev_sessionId : option string;
  ev_userId : option string;
  ev_projectId : option string;
}.

(** A request [POST .../events]; the [meta] part of its payload (time,
    URL, user agent) is left out. *)
Record request := {
  rq_id : nat;
  rq_events : list event;
  rq_keepalive : bool;
}.

Record tracker := {
  key : string;
  sessionId : option string;
  userId : option string;
  events : list event;
  inflight : list request;
  nextRequest : nat;
}.

(** How a request ends: with a success status ([response.ok]), with
    another status, or with a rejection of [fetch]. *)
Inductive response := Ok | NotOk | NetworkError.

Inductive input :=
  | AddEvent (e : event)
  | Tick
  | Unload
  | Response (id : nat) (r : response).

Definition set_events (l : list event) (t : tracker) : tracker :=
  {| key := key t; sessionId := sessionId t; userId := userId t;
     events := l; inflight := inflight t; nextRequest := nextRequest t |}.

Definition set_inflight (l : list request) (t : tracker) : tracker :=
  {| key := key t; sessionId := sessionId t; userId := userId t;
     events := events t; inflight := l; nextRequest := nextRequest t |}.

Definition tag (t : tracker) (e : event) : event :=
  {| ev_type := ev_type e; ev_timestamp := ev_timestamp e; ev_payload := ev_payload e;
     ev_sessionId := sessionId t; ev_userId := userId t; ev_projectId := Some (key t) |}.

(** [sendEvents(isBeforeUnload)] up to its [await]: the payload is a copy
    of the buffer. *)
Definition sendEvents (isBeforeUnload : bool) (t : tracker) : tracker * list request :=
  match events t with
  | [] => (t, [])
  | _ =>
      let rq := {| rq_id := nextRequest t; rq_events := events t;
                   rq_keepalive := isBeforeUnload |} in
      ({| key := key t; sessionId := sessionId t; userId := userId t;
          events := events t; inflight := inflight t ++ [rq];
          nextRequest := S (nextRequest t) |}, [rq])
  end.

(** [addEvent(eventData)]. *)
Definition addEvent (e : event) (t : tracker) : tracker * list request :=
  let t1 := set_events (events t ++ [tag t e]) t in
  if (10 <=? length (events t1))%nat then sendEvents false t1 else (t1, []).

(** The callback of [setInterval(..., 5000)]. *)
Definition tick (t : tracker) : tracker * list request :=
  if (0 <? length (events t))%nat then sendEvents false t else (t, []).

(** [sendEvents] after its [await], for the request [id]. *)
Definition respond (id : nat) (r : response) (t : tracker) : tracker * list request :=
  match find (fun rq => Nat.eqb (rq_id rq) id) (inflight t) with
  | None => (t, [])
  | Some _ =>
      let t1 := set_inflight (filter (fun rq => rq_id rq <> id) (inflight t)) t in
      match r with
      | Ok => (set_events [] t1, [])
      | NotOk | NetworkError => (t1, [])
      end
  end.

Definition step (t : tracker) (i : input) : tracker * list request :=
  match i with
  | AddEvent e => addEvent e t
  | Tick => tick t
  | Unload => sendEvents true t
  | Response id r => respond id r t
  end.

(** A run: the state reached and the requests issued, in order. *)
Fixpoint run (t : tracker) (l : list input) : tracker * list request :=
  match l with
  | [] => (t, [])
  | i :: l' =>
      let '(t1, out1) := step t i in
      let '(t2, out2) := run t1 l' in
      (t2, (out1 ++ out2)%list)
  end.

(** The tracker after [identifyUser]. *)
Definition create (key sessionId userId : string) : tracker :=
  {| key := key; sessionId := Some sessionId; userId := Some userId;
     events := []; inflight := []; nextRequest := 0 |}.

End Tracker.

(** ** The delivery queue of the main script (class StandLogAnalytics)

    Here [sendEvents] first awaits [ensureSession], which posts the
    session once, and builds its payload after that. A call of
    [sendEvents] is suspended in one of three places. The answer to a
    session request stands for the resolution of [fetch] and of
    [response.json()]: [ensureSession] touches nothing of the instance
    between the two, and the continuation of [sendEvents] follows in
    microtasks, before any other call. *)

Module Analytics.

Record event := {
  ev_type : string;
  ev_timestamp : Z;
  ev_url : string;
  ev_payload : string;
  ev_sessionId : string;
  ev_userId : string;
}.

Record sessionData := {
  sessionId : string;
  userId : string;
  anonymousId : string;
  startTime : Z;
}.

Inductive task :=
  | AwaitSession (id : nat) (isBeforeUnload : bool)
      (** in [ensureSession], at [await fetch(.../session)] *)
  | Resume (isBeforeUnload : bool)
      (** at [await this.ensureSession()], the session being created already *)
  | AwaitEvents (id : nat)
      (** at [await fetch(.../event)] *).

(** The requests; the batch of an event request is the buffer, each
    event formatted by [formatEventForAPI]. *)
Inductive request :=
  | SessionRequest (id : nat) (anonymousId : string)
  | EventsRequest (id : nat) (sessionId : string) (batch : list event)
      (keepalive : bool).

Record analytics := {
  session : sessionData;
  events : list event;
  sessionCreated : bool;
  tasks : list task;
  nextRequest : nat;
}.

(** The answer to a session request: a success status with the [id] of
    the body, if any; another status; or an exception ([fetch] rejected,
    or the body is not JSON). *)
Inductive sessionResponse :=
  | SessionOk (id : option string)
  | SessionNotOk
  | SessionError.

(** The answer to an event request: [fetch] resolved, whatever the
    status, or was rejected. *)
Inductive eventsResponse := Settled (ok : bool) | Rejected.

Inductive input :=
  | AddEvent (e : event)
  | Unload
  | Microtask
  | SessionAnswer (id : nat) (r : sessionResponse)
  | EventsAnswer (id : nat) (r : eventsResponse).

Definition set_events (l : list event) (a : analytics) : analytics :=
  {| session := session a; events := l; sessionCreated := sessionCreated a;
     tasks := tasks a; nextRequest := nextRequest a |}.

Definition set_tasks (l : list task) (a : analytics) : analytics :=
  {| session := session a; events := events a; sessionCreated := sessionCreated a;
     tasks := l; nextRequest := nextRequest a |}.

Definition set_sessionId (id : string) (s : sessionData) : sessionData :=
  {| sessionId := id; userId := userId s; anonymousId := anonymousId s;
     startTime := startTime s |}.

(** [ensureSession()] up to its return or its [await]: [None] when it
    returns at once, the session being created; otherwise the identifier
    of the session request it waits for. *)
Definition ensureSession (a : analytics) : analytics * list request * option nat :=
  if sessionCreated a then (a, [], None)
  else
    ({| session := session a; events := events a; sessionCreated := sessionCreated a;
        tasks := tasks a; nextRequest := S (nextRequest a) |},
     [SessionRequest (nextRequest a) (anonymousId (session a))],
     Some (nextRequest a)).

(** [sendEvents(isBeforeUnload)] up to its first suspension, inside or
    after [ensureSession]. *)
Definition sendEvents (isBeforeUnload : bool) (a : analytics) : analytics * list request :=
  match events a with
  | [] => (a, [])
  | _ =>
      let '(a1, out, waits) := ensureSession a in
      (set_tasks
         (tasks a1 ++ [match waits with
                       | Some id => AwaitSession id isBeforeUnload
                       | None => Resume isBeforeUnload
                       end]) a1, out)
  end.

(** [addEvent(eventData)]. *)
Definition addEvent (e : event) (a : analytics) : analytics * list request :=
  let a1 := set_events (events a ++ [e]) a in
  if (5 <=? length (events a1))%nat then sendEvents false a1 else (a1, []).

(** [sendEvents] after [await this.ensureSession()]: the payload is
    built from the buffer as it is now, and posted. *)
Definition postEvents (isBeforeUnload : bool) (a : analytics) : analytics * list request :=
  ({| session := session a; events := events a; sessionCreated := sessionCreated a;
      tasks := tasks a ++ [AwaitEvents (nextRequest a)];
      nextRequest := S (nextRequest a) |},
   [EventsRequest (nextRequest a) (sessionId (session a)) (events a) isBeforeUnload]).

(** [ensureSession] after its [await]. *)
Definition settleSession (r : sessionResponse) (a : analytics) : analytics :=
  match r with
  | SessionOk id =>
      {| session := match JS.truthy id with
                    | Some i => set_sessionId i (session a)
                    | None => session a
                    end;
         events := events a; sessionCreated := true;
         tasks := tasks a; nextRequest := nextRequest a |}
  | SessionNotOk | SessionError => a
  end.

Definition isAwaitSession (id : nat) (k : task) : option bool :=
  match k with
  | AwaitSession id' b => if Nat.eqb id' id then Some b else None
  | _ => None
  end.

Definition isAwaitEvents (id : nat) (k : task) : bool :=
  match k with
  | AwaitEvents id' => Nat.eqb id' id
  | _ => false
  end.

Definition isResume (k : task) : option bool :=
  match k with
  | Resume b => Some b
  | _ => None
  end.

(** The first task [f] recognises, and the others. *)
Fixpoint take {A : Type} (f : task -> option A) (l : list task) : option (A * list task) :=
  match l with
  | [] => None
  | k :: l' =>
      match f k with
      | Some x => Some (x, l')
      | None =>
          match take f l' with
          | Some (x, rest) => Some (x, k :: rest)
          | None => None
          end
      end
  end.

Definition step (a : analytics) (i : input) : analytics * list request :=
  match i with
  | AddEvent e => addEvent e a
  | Unload => sendEvents true a
  | Microtask =>
      match take isResume (tasks a) with
      | Some (b, rest) => postEvents b (set_tasks rest a)
      | None => (a, [])
      end
  | SessionAnswer id r =>
      match take (isAwaitSession id) (tasks a) with
      | Some (b, rest) => postEvents b (settleSession r (set_tasks rest a))
      | None => (a, [])
      end
  | EventsAnswer id r =>
      match take (fun k => if isAwaitEvents id k then Some tt else None) (tasks a) with
      | Some (_, rest) =>
          match r with
          | Settled _ => (set_events [] (set_tasks rest a), [])
          | Rejected => (set_tasks rest a, [])
          end
      | None => (a, [])
      end
  end.

Fixpoint run (a : analytics) (l : list input) : analytics * list request :=
  match l with
  | [] => (a, [])
  | i :: l' =>
      let '(a1, out1) := step a i in
      let '(a2, out2) := run a1 l' in
      (a2, (out1 ++ out2)%list)
  end.

(** The instance after [init]. *)
Definition create (s : sessionData) : analytics :=
  {| session := s; events := []; sessionCreated := false; tasks := [];
     nextRequest := 0 |}.

End Analytics.

(** ** Sample deliveries *)

Module DeliveryExamples.

Definition hit (n : Z) : Tracker.event :=
  {| Tracker.ev_type := "click"; Tracker.ev_timestamp := n;
     Tracker.ev_payload := ""; Tracker.ev_sessionId := None;
     Tracker.ev_userId := None; Tracker.ev_projectId := None |}.

Definition tracker0 : Tracker.tracker := Tracker.create "k" "s" "u".

(** An event as the tracker buffers it. *)
Definition tagged (n : Z) : Tracker.event := Tracker.tag tracker0 (hit n).

Definition shot (n : Z) : Analytics.event :=
  {| Analytics.ev_type := "click"; Analytics.ev_timestamp := n;
     Analytics.ev_url := "/"; Analytics.ev_payload := "";
     Analytics.ev_sessionId := "s"; Analytics.ev_userId := "u" |}.

Definition analytics0 : Analytics.analytics :=
  Analytics.create
    {| Analytics.sessionId := "s"; Analytics.userId := "u";
       Analytics.anonymousId := "a"; Analytics.startTime := 0 |}.

End DeliveryExamples.

(** ** Session creation before delivery *)

Module DeliverySpec.
Import Analytics.

Definition isEventsRequest (rq : request) : bool :=
  match rq with
  | EventsRequest _ _ _ _ => true
  | SessionRequest _ _ => false
  end.

Definition isSessionTask (k : task) : bool :=
  match k with
  | AwaitSession _ _ => true
  | _ => false
  end.

(** The input is the answer to a session request that is in flight: a
    call of [ensureSession] completes. *)
Definition settles (a : analytics) (i : input) : Prop :=
  exists id r, i = SessionAnswer id r
    /\ is_Some (take (isAwaitSession id) (tasks a)).



(** The session is created and no session request is in flight. *)
Definition established (a : analytics) : Prop :=
  sessionCreated a = true /\ forall k, k ∈ tasks a -> isSessionTask k = false.


(** The input is a successful answer, carrying an identifier, to a
    session request that is in flight: the identifier of the session is
    replaced by the one of the answer. *)
Definition adopts (a : analytics) (i : input) : Prop :=
  exists id x, i = SessionAnswer id (SessionOk (Some x)) /\ x <> ""
    /\ is_Some (take (isAwaitSession id) (tasks a)).


End DeliverySpec.

(** ** The analysis of a funnel (js/modules/funnels/funnel.js)

    [getFunnelAnalysis] and the functions it calls read the data of a
    funnel and change nothing. The sessions of a funnel are held in a
    [Map]; the order in which it lists them is not represented, so that
    the list of sessions of an analysis, and with it the order of the
    transitions of the time analysis, is fixed up to a permutation. *)

From Stdlib Require Import Lqa.
From stdpp Require Import sorting.

Local Open Scope Z_scope.
Local Open Scope string_scope.

Module FunnelAnalysis.
Import JS Funnel.

Record dropoff := {
  do_fromStep : nat;
  do_toStep : nat;
  dropoffCount : Z;
  dropoffRate : jsnum;
  do_insights : list string;
}.

Record timing := {
  tm_sessionId : string;
  tm_fromStep : nat;
  tm_toStep : nat;
  tm_duration : Z;
}.

(** An entry of [aggregated] as [aggregateTimings] creates and fills it. *)
Record bucket := {
  bk_fromStep : nat;
  bk_toStep : nat;
  bk_durations : list Z;
}.

(** The same entry with its statistics; a key that is read out of range
    is [None]. *)
Record transition := {
  tr_fromStep : nat;
  tr_toStep : nat;
  durations : list Z;
  average : jsnum;
  median : option Z;
  tr_min : option Z;
  tr_max : option Z;
}.

Record analysis := {
  an_funnel : funnel;
  an_stats : funnelStats;
  an_sessions : list session;
  dropoffAnalysis : list dropoff;
  timeAnalysis : list transition;
}.

Definition generateDropoffInsights : list string :=
  [ "High dropoff rate detected";
    "Consider simplifying this step";
    "Average time spent: 2.3 minutes" ].

(** The body of the loop of [analyzeDropoffs] for the index [i]. *)
Definition dropoffAt (st : funnelStats) (i : nat) : option dropoff :=
  current ← stat_steps st !! i;
  next ← stat_steps st !! S i;
  let count := reached current - reached next in
  Some {| do_fromStep := i; do_toStep := S i;
          dropoffCount := count;
          dropoffRate := percent count (reached current);
          do_insights := generateDropoffInsights |}.

(** [analyzeDropoffs(funnelData)]: [i] runs from 0 while
    [i < stats.steps.length - 1]. *)
Definition analyzeDropoffs (fd : funnelDataEntry) : list dropoff :=
  omap (dropoffAt (stats fd)) (seq 0 (length (stat_steps (stats fd)) - 1)).

(** The body of the inner loop of [analyzeTimings]; the indices are
    positions in [session.completedSteps]. *)
Definition timingAt (s : session) (i : nat) : option timing :=
  cur ← completedSteps s !! i;
  next ← completedSteps s !! S i;
  Some {| tm_sessionId := s_sessionId s; tm_fromStep := i; tm_toStep := S i;
          tm_duration := cs_timestamp next - cs_timestamp cur |}.

Definition sessionTimings (s : session) : list timing :=
  omap (timingAt s) (seq 0 (length (completedSteps s) - 1)).

(** [Array.from(funnelData.sessions.values())]. *)
Definition sessionList (fd : funnelDataEntry) : list session :=
  (map_to_list (sessions fd)).*2.

(** The key of a timing in [aggregated]. *)
Definition key (t : timing) : string :=
  pretty (tm_fromStep t) +:+ "_" +:+ pretty (tm_toStep t).

(** The first loop of [aggregateTimings] for one timing: the entry under
    the key is created when absent, and the duration is pushed on it.
    The keys of the object are kept in the order of their creation. *)
Fixpoint collect (k : string) (t : timing) (aggregated : list (string * bucket))
  : list (string * bucket) :=
  match aggregated with
  | [] => [(k, {| bk_fromStep := tm_fromStep t; bk_toStep := tm_toStep t;
                  bk_durations := [tm_duration t] |})]
  | (k', b) :: rest =>
      if String.eqb k' k
      then (k', {| bk_fromStep := bk_fromStep b; bk_toStep := bk_toStep b;
                   bk_durations := bk_durations b ++ [tm_duration t] |}) :: rest
      else (k', b) :: collect k t rest
  end.

(** The second loop for one entry: [durations.sort((a, b) => a - b)] puts
    the durations in ascending order. *)
Definition summarize (b : bucket) : transition :=
  let sorted := merge_sort Z.le (bk_durations b) in
  {| tr_fromStep := bk_fromStep b; tr_toStep := bk_toStep b;
     durations := sorted;
     average := div (num (fold_left Z.add sorted 0)) (num (Z.of_nat (length sorted)));
     median := sorted !! (length sorted / 2)%nat;
     tr_min := sorted !! 0%nat;
     tr_max := sorted !! (length sorted - 1)%nat |}.

Definition aggregateTimings (timings : list timing) : list transition :=
  map (fun entry => summarize entry.2)
      (fold_left (fun aggregated t => collect (key t) t aggregated) timings []).

Definition analyzeTimings (fd : funnelDataEntry) : list transition :=
  aggregateTimings (sessionList fd ≫= sessionTimings).

(** The entry [collect] creates for a timing, and an entry with the
    duration of a timing pushed on it. *)
Definition fresh (t : timing) : bucket :=
  {| bk_fromStep := tm_fromStep t; bk_toStep := tm_toStep t;
     bk_durations := [tm_duration t] |}.

Definition extend (b : bucket) (t : timing) : bucket :=
  {| bk_fromStep := bk_fromStep b; bk_toStep := bk_toStep b;
     bk_durations := bk_durations b ++ [tm_duration t] |}.

(** The character does not occur in the string. *)
Fixpoint absent (c : ascii) (s : string) : Prop :=
  match s with
  | EmptyString => True
  | String a s' => a <> c /\ absent c s'
  end.

(** The timings of the transition from [i] to [j]. *)
Definition between (i j : nat) (timings : list timing) : list timing :=
  filter (fun t => tm_fromStep t = i /\ tm_toStep t = j) timings.

(** [getFunnelAnalysis(funnelId)]; [None] is [null]. *)
Definition getFunnelAnalysis (funnelId : string) (fa : FunnelAnalyzer) : option analysis :=
  match funnelData fa !! funnelId with
  | None => None
  | Some fd =>
      Some {| an_funnel := fd_funnel fd;
              an_stats := stats fd;
              an_sessions := sessionList fd;
              dropoffAnalysis := analyzeDropoffs fd;
              timeAnalysis := analyzeTimings fd |}
  end.

Section CsvExport.

(** Two conversions of the host that are taken as given: a number
    written as a string, and [JSON.stringify(analysis, null, 2)]. *)
Variable NumberToString : jsnum -> string.
Variable stringify : option analysis -> string.

Definition csvRow (index : nat) (s : stepStats) : string :=
  String.concat ","
    [ "Step " +:+ NumberToString (num (Z.of_nat index + 1));
      NumberToString (num (reached s));
      NumberToString (conversionFromPrevious s) +:+ "%";
      NumberToString (num (averageTimeToNext s)) +:+ "ms" ].

Definition csvRows (a : analysis) : list string :=
  String.concat "," ["Step"; "Reached"; "Conversion Rate"; "Avg Time"]
    :: imap csvRow (stat_steps (an_stats a)).

(** [convertToCSV(analysis)]: reading [analysis.stats] of [null] raises. *)
Definition convertToCSV (a : option analysis) : outcome string :=
  match a with
  | None => Raise TypeError
  | Some a => Return (String.concat (String "010"%char EmptyString) (csvRows a))
  end.

(** [exportFunnelData(funnelId, format = "json")]. *)
Definition exportFunnelData (funnelId : string) (format : option string)
    (fa : FunnelAnalyzer) : outcome string :=
  let analysis := getFunnelAnalysis funnelId fa in
  if String.eqb (default "json" format) "csv" then convertToCSV analysis
  else Return (stringify analysis).

End CsvExport.

End FunnelAnalysis.

(** ** Analyzers whose funnels are all registered *)

Module FunnelRuns.
Import JS Funnel.

(** The analyzers built from an empty configuration by defining funnels
    under identifiers not used before and adding events. *)
Inductive defined (RegExp : string -> option (string -> bool))
  : FunnelAnalyzer -> Prop :=
  | defined_create : defined RegExp (create [])
  | defined_defineFunnel fa funnelId cs options :
      defined RegExp fa ->
      funnelData fa !! funnelId = None ->
      defined RegExp (defineFunnel funnelId cs options fa)
  | defined_addEvent fa ls e :
      defined RegExp fa ->
      defined RegExp (addEvent RegExp ls e fa).1.

(** Every URL pattern of a step is accepted by the host. *)
Definition compiles (RegExp : string -> option (string -> bool))
    (fa : FunnelAnalyzer) : Prop :=
  forall f s u,
    f ∈ config_funnels fa -> s ∈ steps f ->
    truthy (st_url s) = Some u -> includes u "*" = true ->
    is_Some (RegExp (starToDotStar u)).

(** The last step of the funnel is among the completed steps. *)
Definition finished (f : funnel) (s : session) : Prop :=
  exists c, c ∈ completedSteps s
    /\ Z.of_nat (cs_stepIndex c) = Z.of_nat (length (steps f)) - 1.

(** What holds of a session of the funnel [f]. *)
Definition sound (f : funnel) (s : session) : Prop :=
  -1 <= currentStep s < Z.of_nat (length (steps f))
  /\ (status s = completed <-> finished f s).

(** The entry of a funnel is the one [defineFunnel] made for it: it has
    one statistics record per step, and its sessions are sound. *)
Definition registeredAs (f : funnel) (fd : funnelDataEntry) : Prop :=
  fd_funnel fd = f
  /\ length (stat_steps (stats fd)) = length (steps f)
  /\ forall sid s, sessions fd !! sid = Some s -> sound f s.

Definition registered (fa : FunnelAnalyzer) : Prop :=
  forall f, f ∈ config_funnels fa ->
    exists fd, funnelData fa !! f_id f = Some fd /\ registeredAs f fd.

(** The overall counters repeat the counters of the first and of the
    last step. *)
Definition tallied (st : funnelStats) : Prop :=
  (forall a, stat_steps st !! 0%nat = Some a -> totalSessions st = reached a)
  /\ (forall a, last (stat_steps st) = Some a -> completedSessions st = reached a).

(** Every entry has one statistics record per step of its funnel, and
    tallied counters. *)
Definition shaped (fa : FunnelAnalyzer) : Prop :=
  forall funnelId fd, funnelData fa !! funnelId = Some fd ->
    length (stat_steps (stats fd)) = length (steps (fd_funnel fd))
    /\ tallied (stats fd).

(** 1 when the session is at step [k]. *)
Definition exactlyAt (k : nat) (s : session) : Z :=
  if bool_decide (currentStep s = Z.of_nat k) then 1 else 0.

(** The number of sessions at step [k]. *)
Definition sessionsAt (k : nat) (m : gmap string session) : Z :=
  map_fold (fun _ s n => exactlyAt k s + n) 0 m.

End FunnelRuns.

(** ** More sample runs of the funnel analyzer *)

Module FunnelRunsExamples.
Import JS Funnel FunnelExamples.

(** The checkout funnel after one session went through its three steps,
    two seconds between them, and a second session entered it. *)
Definition checkoutDone : FunnelAnalyzer :=
  addEvents noRegExp
    [(tab, custom "cart" 1000); (tab, custom "shipping" 3000);
     (tab, custom "payment" 5000);
     ({| standlog_session := Some "s2"; standlog_user := Some "u2" |},
      custom "cart" 6000)]
    checkout.

(** An analyzer handed the checkout funnel in its configuration, the
    funnel never being defined. *)
Definition preconfigured : FunnelAnalyzer := create [checkoutFunnel].

End FunnelRunsExamples.

(** ** The analysis of a persona (js/modules/personas/personas.js)

    [getPersonaAnalysis] reads a segment and the profiles of its members.
    As in [updatePersonaMetrics], the order in which the [Set] of
    members is listed is not represented. *)

Module PersonaAnalysis.
Import JS Persona.

(** A row of [users] in the result of [getPersonaAnalysis]. *)
Record userRow := {
  row_id : string;
  row_firstSeen : Z;
  row_lastSeen : Z;
  row_totalSessions : Z;
  row_confidence : jsnum;
}.

Record personaAnalysis := {
  an_persona : persona;
  an_metrics : personaMetrics;
  an_users : list userRow;
  an_insights : list string;
}.

(** [x || 0] for an optional number: zero and NaN are falsy. *)
Definition orZero (x : option jsnum) : jsnum :=
  match x with
  | Some (Fin q) => if Qeq_bool q 0 then num 0 else Fin q
  | Some PosInf => PosInf
  | Some NegInf => NegInf
  | Some NaN | None => num 0
  end.

(** [a > b] on numbers. *)
Definition numGreater (a b : jsnum) : bool := default false (numLess b a).

(** [Array.from(segment.users).map((id) => this.users.get(id)).filter(Boolean)]. *)
Definition membersOf (all : gmap string userProfile) (seg : segment) : list userProfile :=
  omap (fun id => all !! id) (elements (seg_users seg)).

Definition rowOf (personaId : string) (u : userProfile) : userRow :=
  {| row_id := u_id u;
     row_firstSeen := firstSeen u;
     row_lastSeen := lastSeen u;
     row_totalSessions := totalSessions (metrics u);
     row_confidence :=
       orZero (confidence <$> find (fun p => String.eqb (as_id p) personaId) (personas u)) |}.

Section Insights.

(** [(x * 100).toFixed(1)], a conversion of the host. *)
Variable toFixed1 : jsnum -> string.

(** [generatePersonaInsights(segment, users)]. *)
Definition generatePersonaInsights (seg : segment) : list string :=
  let m := seg_metrics seg in
  (if numGreater (conversionRate m) (Fin (1 # 10))
   then ["High conversion rate: " +:+ toFixed1 (mul (conversionRate m) (num 100)) +:+ "%"]
   else [])
  ++ (if numGreater (avgSessionDuration m) (num 300000)
      then ["Users in this segment have long session durations"]
      else [])
  ++ (if (0 <? totalUsers m)%Z
         && numGreater (div (num (activeUsers m)) (num (totalUsers m))) (Fin (1 # 2))
      then ["High user engagement and activity"]
      else []).

(** [getPersonaAnalysis(personaId)]; [None] is [null]. *)
Definition getPersonaAnalysis (personaId : string) (pa : PersonaAnalyzer)
  : option personaAnalysis :=
  match segments pa !! personaId with
  | None => None
  | Some seg =>
      Some {| an_persona := seg_persona seg;
              an_metrics := seg_metrics seg;
              an_users := map (rowOf personaId) (membersOf (users pa) seg);
              an_insights := generatePersonaInsights seg |}
  end.

End Insights.

End PersonaAnalysis.

(** ** Runs of the persona analyzer, and what its profiles record *)

Module PersonaRuns.
Import JS Persona.

(** The states an analyzer goes through: personas are defined, events
    are added, and the timer of [startAutoSegmentation] refreshes the
    metrics of the segments. *)
Inductive reachable (StringToNumber : string -> jsnum) (ToString : jsval -> string)
  : PersonaAnalyzer -> Prop :=
  | reach_create : reachable StringToNumber ToString create
  | reach_definePersona pa id config :
      reachable StringToNumber ToString pa ->
      reachable StringToNumber ToString (definePersona id config pa)
  | reach_addUserEvent pa ε userId e :
      reachable StringToNumber ToString pa ->
      reachable StringToNumber ToString
        (addUserEvent StringToNumber ToString ε userId e pa).1
  | reach_updatePersonaMetrics pa ε :
      reachable StringToNumber ToString pa ->
      reachable StringToNumber ToString (updatePersonaMetrics ε pa).

(** The sessions of a profile: the archived ones, then the one in
    progress. *)
Definition allSessions (u : userProfile) : list session :=
  sessions u ++ option_list (currentSession u).

Definition sumOf (f : session -> Z) (l : list session) : Z :=
  fold_left (fun total s => total + f s) l 0.

(** The number of events of a list that satisfy [f]. *)
Definition countEvents (f : event -> bool) (l : list event) : Z :=
  Z.of_nat (length (filter (fun e => f e = true) l)).

Definition hasType (ty : string) (e : event) : bool := String.eqb (ev_type e) ty.

(** A custom event whose name includes "conversion". *)
Definition isConversionEvent (e : event) : bool := hasType "custom" e && isConversion e.

(** The counters of the profile are the sums of the counters of its
    sessions, the one in progress included. *)
Definition summed (u : userProfile) : Prop :=
  totalPageViews (metrics u) = sumOf pageViews (allSessions u)
  /\ totalClicks (metrics u) = sumOf clicks (allSessions u)
  /\ conversionEvents (metrics u) = sumOf conversions (allSessions u).

(** The counters and the times of a session are those of its events. *)
Definition logged (s : session) : Prop :=
  pageViews s = countEvents (hasType "pageview") (sess_events s)
  /\ clicks s = countEvents (hasType "click") (sess_events s)
  /\ conversions s = countEvents isConversionEvent (sess_events s)
  /\ formSubmissions s = countEvents (hasType "form_submit") (sess_events s)
  /\ (exists first, head (sess_events s) = Some first /\ startTime s = ev_timestamp first)
  /\ (exists final, last (sess_events s) = Some final /\ lastActivity s = ev_timestamp final)
  /\ duration s = lastActivity s - startTime s.

(** A table of counters has one entry per key, each at least 1. *)
Definition tidy (l : counts) : Prop :=
  NoDup l.*1 /\ forall k n, (k, n) ∈ l -> 1 <= n.

(** What holds of every profile of an analyzer. *)
Definition kept (u : userProfile) : Prop :=
  summed u
  /\ (forall s, s ∈ allSessions u -> logged s)
  /\ tidy (deviceTypes (metrics u))
  /\ tidy (browsers (metrics u)).

(** [session?.field || 0], the session being the one in progress. *)
Definition inSession (field : session -> Z) (u : userProfile) : Z :=
  match currentSession u with
  | Some s => field s
  | None => 0
  end.

(** The Casual User, Bouncer, Mobile User and Converter personas as the
    constructor defines them. *)
Definition casualUser : persona := mkPersona "casual_user" casualUserConfig.
Definition bouncer : persona := mkPersona "bouncer" bouncerConfig.
Definition mobileUser : persona := mkPersona "mobile_user" mobileUserConfig.
Definition converter : persona := mkPersona "converter" converterConfig.

(** What holds of the state of [analyzeUserPersona] during its loop over
    the personas [ps], started on the profile [u]: the profile changes in
    its list only, which keeps what it had; the identifiers in
    [newPersonas] are on the list, and belong to personas that the
    profile matches. *)
Definition looping (StringToNumber : string -> jsnum) (ToString : jsval -> string)
    (ps : list persona) (u : userProfile) (σ : astate) : Prop :=
  (exists l, a_user σ = set_personas l u)
  /\ (forall pid, pid ∈ map as_id (personas u) -> pid ∈ map as_id (personas (a_user σ)))
  /\ (forall pid, pid ∈ a_new σ -> pid ∈ map as_id (personas (a_user σ)))
  /\ (forall pid, pid ∈ a_new σ ->
        exists p, p ∈ ps /\ p_id p = pid
          /\ userMatchesPersona StringToNumber ToString u p = Return true).

(** A rule that [calculatePersonaConfidence] gives a score to. *)
Definition scored (r : rule) : Prop := operator r = ">" \/ operator r = "=".

(** The events of a profile, session by session. *)
Definition allEvents (u : userProfile) : list event := allSessions u ≫= sess_events.

(** The event carries device information of the type [ty]. *)
Definition onDevice (ty : string) (e : event) : bool :=
  match ev_device e with
  | Some d => String.eqb (getDeviceType (userAgent d)) ty
  | None => false
  end.

(** [totalSessions] is the number of sessions, and the counter of a
    device type is the number of events that came from such a device. *)
Definition deviceCounted (u : userProfile) : Prop :=
  totalSessions (metrics u) = Z.of_nat (length (allSessions u))
  /\ forall ty, count ty (deviceTypes (metrics u)) = countEvents (onDevice ty) (allEvents u).

End PersonaRuns.

(** ** More sample visits *)

Module PersonaRunsExamples.
Import JS Persona PersonaExamples.

Definition laptop : deviceInfo :=
  {| userAgent := "Mozilla/5.0 (X11; Linux x86_64) Gecko/20100101 Firefox/120.0" |}.

Definition phone : deviceInfo :=
  {| userAgent := "Mozilla/5.0 (iPhone; CPU iPhone OS 17_0) Version/17.0 Mobile Safari/604.1" |}.

(** A page view with the device information of the tracker. *)
Definition view (t : Z) (d : deviceInfo) : env * string * event :=
  (at_ t, "u1",
   {| ev_type := "pageview"; ev_timestamp := t; ev_name := None;
      ev_url := Some "/home"; ev_page := None; ev_device := Some d |}).

(** A custom event. *)
Definition named (t : Z) (name : string) : env * string * event :=
  (at_ t, "u1",
   {| ev_type := "custom"; ev_timestamp := t; ev_name := Some name;
      ev_url := Some "/home"; ev_page := None; ev_device := None |}).

(** One page view on a laptop, then two on a phone. *)
Definition roaming : PersonaAnalyzer :=
  addUserEvents hostNumber hostString
    [view 1000 laptop; view 2000 phone; view 3000 phone] create.

(** A page view, then a conversion. *)
Definition converted : PersonaAnalyzer :=
  addUserEvents hostNumber hostString
    [view 1000 laptop; named 2000 "conversion_signup"] create.

End PersonaRunsExamples.

(** ** What the requests of a run carry *)

Module DeliveryRuns.

(** [b] is a part of [l] in one piece. *)
Definition segment {A : Type} (b l : list A) : Prop :=
  exists pre post, l = (pre ++ b ++ post)%list.

(** The events handed to [addEvent] in the course of a run, in order. *)
Definition trackerAdded (l : list Tracker.input) : list Tracker.event :=
  omap (fun i => match i with Tracker.AddEvent e => Some e | _ => None end) l.

Definition analyticsAdded (l : list Analytics.input) : list Analytics.event :=
  omap (fun i => match i with Analytics.AddEvent e => Some e | _ => None end) l.

End DeliveryRuns.

Module DeliveryRunsExamples.
Import DeliveryExamples.

(** One event, a timer flush that succeeds, a second event, and the
    page is left. *)
Definition shortVisit : list Tracker.input :=
  [Tracker.AddEvent (hit 1); Tracker.Tick; Tracker.Response 0 Tracker.Ok;
   Tracker.AddEvent (hit 2); Tracker.Unload].

(** Six events, of which the fifth and the sixth start a flush each
    before any session exists; the first session request is answered,
    the events are posted and the post is settled; then the second
    session request is answered. *)
Definition doubleFlush : list Analytics.input :=
  [Analytics.AddEvent (shot 1); Analytics.AddEvent (shot 2); Analytics.AddEvent (shot 3);
   Analytics.AddEvent (shot 4); Analytics.AddEvent (shot 5); Analytics.AddEvent (shot 6);
   Analytics.SessionAnswer 0 (Analytics.SessionOk None);
   Analytics.EventsAnswer 2 (Analytics.Settled true);
   Analytics.SessionAnswer 1 (Analytics.SessionOk None)].

End DeliveryRunsExamples.

(** ** The selector of an element

    The tracker (js/modules/tracking/core.js) reports a CSS selector
    with every click, from [generateSelector]. The funnel analyzer
    matches the element of a click against the selector of a step with
    [elementMatchesSelector], on what its own [getElementInfo] keeps of
    the element. *)

Module Selectors.
Import JS Funnel.

(** An element of the document, as far as the two functions read it. *)
Record domElement := {
  dom_tagName : string;
  dom_id : string;
  dom_className : string;
}.

(** [s.split(sep)] for a one-character separator. *)
Fixpoint split (sep : ascii) (s : string) : list string :=
  match s with
  | EmptyString => [EmptyString]
  | String c s' =>
      if Ascii.eqb c sep then EmptyString :: split sep s'
      else match split sep s' with
           | w :: ws => String c w :: ws
           | [] => [String c EmptyString]
           end
  end.

(** [generateSelector(element)] of the tracker. *)
Definition generateSelector (el : domElement) : string :=
  match dom_id el with
  | String _ _ => "#" +:+ dom_id el
  | EmptyString =>
      let selector := toLowerCase (dom_tagName el) in
      match dom_className el with
      | String _ _ =>
          selector +:+ "." +:+ String.concat "." (split " " (dom_className el))
      | EmptyString => selector
      end
  end.

(** [getElementInfo(element)] of the funnel analyzer; the text of the
    element, which no function reads, is left out. *)
Definition getElementInfo (el : domElement) : element :=
  {| tagName := toLowerCase (dom_tagName el);
     el_id := dom_id el;
     className := dom_className el |}.

End Selectors.

Module SelectorsExamples.
Import Selectors.

Definition buyButton : domElement :=
  {| dom_tagName := "BUTTON"; dom_id := ""; dom_className := "btn primary" |}.

End SelectorsExamples.

(** ** The personas of the main script (class StandLogAnalytics)

    The main script keeps personas of its own in a [Map] from
    identifiers to persona objects, which [forEach] visits in the order
    in which the identifiers were first set. The profile of the user is
    made of the counters of the session. *)

Module ScriptPersonas.
Import JS.

Record rule := {
  metric : string;
  operator : string;
  value : jsval;
}.

(** A persona object; [rules] is [None] when [config.rules] is not an
    array. *)
Record persona := {
  p_id : string;
  name : option string;
  rules : option (list rule);
  users : gset string;
}.

(** The fields of [sessionData] that [getUserProfile] reads. *)
Record sessionData := {
  startTime : Z;
  pageViews : Z;
  clicks : Z;
}.

Record userProfile := {
  up_userId : string;
  up_pageViews : Z;
  up_sessionDuration : Z;
  up_clicks : Z;
}.

(** [Map.prototype.set]: the value of a key that is present is replaced
    where it stands. *)
Fixpoint mapSet {V : Type} (k : string) (v : V) (m : list (string * V))
  : list (string * V) :=
  match m with
  | [] => [(k, v)]
  | (k', v') :: m' =>
      if String.eqb k' k then (k', v) :: m' else (k', v') :: mapSet k v m'
  end.

(** [definePersona(id, config)]. *)
Definition definePersona (id : string) (cfg_name : option string)
    (cfg_rules : option (list rule)) (m : list (string * persona))
  : list (string * persona) :=
  mapSet id {| p_id := id; name := cfg_name; rules := cfg_rules; users := ∅ |} m.

(** The two personas [initPersonas] sets up. *)
Definition initPersonas : list (string * persona) :=
  definePersona "bouncer" (Some "Bouncer")
    (Some [{| metric := "sessionDuration"; operator := "<";
              value := VNum (num 30000) |}])
    (definePersona "power_user" (Some "Power User")
       (Some [{| metric := "pageViews"; operator := ">"; value := VNum (num 10) |}])
       []).

(** [getUserProfile(userId)], at the time [now]. *)
Definition getUserProfile (now : Z) (sd : sessionData) (userId : string) : userProfile :=
  {| up_userId := userId;
     up_pageViews := pageViews sd;
     up_sessionDuration := now - startTime sd;
     up_clicks := clicks sd |}.

(** [getUserMetricValue(user, metric)]. *)
Definition getUserMetricValue (u : userProfile) (metric : string) : jsval :=
  if String.eqb metric "pageViews" then VNum (num (up_pageViews u))
  else if String.eqb metric "sessionDuration" then VNum (num (up_sessionDuration u))
  else if String.eqb metric "clicks" then VNum (num (up_clicks u))
  else VNum (num 0).

Section Rules.

Variable StringToNumber : string -> jsnum.
Variable ToString : jsval -> string.

(** The callback of [persona.rules.every]. *)
Definition ruleHolds (u : userProfile) (r : rule) : bool :=
  let v := getUserMetricValue u (metric r) in
  if String.eqb (operator r) ">" then gt StringToNumber ToString v (value r)
  else if String.eqb (operator r) "<" then lt StringToNumber ToString v (value r)
  else if String.eqb (operator r) ">=" then ge StringToNumber ToString v (value r)
  else if String.eqb (operator r) "<=" then le StringToNumber ToString v (value r)
  else if String.eqb (operator r) "=" then strictEq v (value r)
  else false.

(** [userMatchesPersona(user, persona)]; the callback raises nothing, so
    that [every] is a conjunction. *)
Definition userMatchesPersona (u : userProfile) (p : persona) : outcome bool :=
  match rules p with
  | None => Raise TypeError
  | Some rs => Return (forallb (ruleHolds u) rs)
  end.

(** [persona.users.add(userId)], for the entry of a persona. *)
Definition addUser (userId : string) (entry : string * persona) : string * persona :=
  (entry.1,
   {| p_id := p_id entry.2; name := name entry.2; rules := rules entry.2;
      users := {[userId]} ∪ users entry.2 |}).

(** [analyzeUserPersona(userId)]: the map after the call, and the list
    returned. The persona objects are distinct and each is visited once,
    at its position. *)
Definition analyzeUserPersona (now : Z) (sd : sessionData) (userId : string)
    (m : list (string * persona)) : list (string * persona) * outcome (list string) :=
  let user := getUserProfile now sd userId in
  let r :=
    forEachi
      (fun (entry : string * persona) i (σ : list string * list (string * persona)) =>
         match userMatchesPersona user entry.2 with
         | Raise x => (σ, Throw x)
         | Return true => ((σ.1 ++ [entry.1])%list, alter (addUser userId) i σ.2, Normal)
         | Return false => (σ, Normal)
         end)
      m ([], m) in
  (r.1.2, match r.2 with Normal => Return r.1.1 | Throw x => Raise x end).

End Rules.

End ScriptPersonas.

Module ScriptPersonasSpec.
Import JS ScriptPersonas.

(** The user matches the persona of the entry. *)
Definition matching (StringToNumber : string -> jsnum) (ToString : jsval -> string)
    (u : userProfile) (entry : string * persona) : bool :=
  match userMatchesPersona StringToNumber ToString u entry.2 with
  | Return true => true
  | _ => false
  end.

(** What an analysis makes of an entry. *)
Definition analyzed (StringToNumber : string -> jsnum) (ToString : jsval -> string)
    (u : userProfile) (userId : string) (entry : string * persona) : string * persona :=
  if matching StringToNumber ToString u entry then addUser userId entry else entry.

End ScriptPersonasSpec.

Module ScriptPersonasExamples.
Import ScriptPersonas PersonaExamples.

(** A session that started at time 0, one page viewed. *)
Definition oneView : sessionData := {| startTime := 0; pageViews := 1; clicks := 0 |}.

(** The personas after an analysis of the user one second into the
    session. *)
Definition early : list (string * persona) :=
  (analyzeUserPersona hostNumber hostString 1000 oneView "u1" initPersonas).1.

End ScriptPersonasExamples.

(** * Loops *)

Section Loops.
Import JS.
Context {A St : Type}.

(** An invariant of the callback is an invariant of the loop, whether the
    loop ends normally or by an exception. *)
Lemma forEachFrom_invariant (P : St -> Prop) (f : A -> nat -> St -> St * completion)
    (l : list A) (i : nat) (s : St) :
  P s ->
  (forall j x s, l !! j = Some x -> P s -> P (f x (i + j)%nat s).1) ->
  P (forEachFrom f i l s).1.
Proof.
  revert i s. induction l as [|x l IH]; intros i s Hs Hf; [done|].
  cbn [forEachFrom].
  pose proof (Hf 0%nat x s eq_refl Hs) as Hx. rewrite Nat.add_0_r in Hx.
  destruct (f x i s) as [s' [|err]]; [|done].
  apply IH; [done|].
  intros j y t Hj Ht. replace (S i + j)%nat with (i + S j)%nat by lia.
  by apply Hf.
Qed.

Lemma forEachi_invariant (P : St -> Prop) (f : A -> nat -> St -> St * completion)
    (l : list A) (s : St) :
  P s ->
  (forall j x s, l !! j = Some x -> P s -> P (f x j s).1) ->
  P (forEachi f l s).1.
Proof.
  intros Hs Hf. unfold forEachi.
  apply (forEachFrom_invariant P f l 0%nat s Hs). intros j x t. apply Hf.
Qed.

Lemma forEach_invariant (P : St -> Prop) (f : A -> St -> St * completion)
    (l : list A) (s : St) :
  P s ->
  (forall x s, x ∈ l -> P s -> P (f x s).1) ->
  P (forEach f l s).1.
Proof.
  revert s. induction l as [|x l IH]; intros s Hs Hf; [done|].
  cbn [forEach].
  pose proof (Hf x s ltac:(left) Hs) as Hx.
  destruct (f x s) as [s' [|err]]; [|done].
  apply IH; [done|]. intros y t Hy. apply Hf. by right.
Qed.

(** The same for an invariant that the first round establishes. *)
Lemma forEach_invariant_cons (P : St -> Prop) (f : A -> St -> St * completion)
    (x : A) (l : list A) (s : St) :
  P (f x s).1 ->
  (forall y t, y ∈ l -> P t -> P (f y t).1) ->
  P (forEach f (x :: l) s).1.
Proof.
  intros Hx Hf. cbn [forEach]. destruct (f x s) as [s' [|err]]; [|done].
  by apply forEach_invariant.
Qed.

(** A loop whose rounds all end normally ends normally. *)
Lemma forEach_normal (P : St -> Prop) (f : A -> St -> St * completion)
    (l : list A) (s : St) :
  P s ->
  (forall x s, x ∈ l -> P s -> (f x s).2 = Normal /\ P (f x s).1) ->
  (forEach f l s).2 = Normal.
Proof.
  revert s. induction l as [|x l IH]; intros s Hs Hf; [done|].
  cbn [forEach]. destruct (Hf x s ltac:(left) Hs) as [Hn Hx].
  destruct (f x s) as [s' c]. cbn in *. subst c.
  apply IH; [done|]. intros y t Hy. apply Hf. by right.
Qed.

End Loops.

(** * Properties of the funnel analyzer *)

Section FunnelFacts.
Import JS Funnel.

Variable RegExp : string -> option (string -> bool).

Implicit Types (f registered : funnel) (e : event) (σ : fstate) (i : nat).

(** A match of a step beyond the expected one changes nothing. *)
Lemma processStepCompletion_skip f registered i e σ :
  currentStep (fs_session σ) + 1 < Z.of_nat i ->
  processStepCompletion f registered i e σ = (σ, Normal).
Proof.
  intros Hlt. unfold processStepCompletion.
  destruct (Z.eqb_spec (Z.of_nat i) (currentStep (fs_session σ) + 1)) as [Heq|_]; [lia|].
  destruct (Z.ltb_spec (Z.of_nat i) (currentStep (fs_session σ) + 1)) as [Hlt'|_]; [lia|].
  by rewrite andb_false_r.
Qed.

(** What one call does to [currentStep]: it advances by exactly one to the
    matched index, or regresses to the matched index (backtracking), or
    stays. *)
Lemma processStepCompletion_currentStep f registered i e σ :
  let c := currentStep (fs_session σ) in
  let c' := currentStep (fs_session (processStepCompletion f registered i e σ).1) in
  (c' = c + 1 /\ Z.of_nat i = c + 1)
  \/ (allowBacktrack f = true /\ c' = Z.of_nat i /\ Z.of_nat i <= c)
  \/ (c' = c /\ Z.of_nat i <> c + 1).
Proof.
  cbn zeta. unfold processStepCompletion.
  destruct (Z.eqb_spec (Z.of_nat i) (currentStep (fs_session σ) + 1)) as [Heq|Hne].
  - left. destruct (updateFunnelStats registered i (fs_stats σ)) as [st' [|x]]; cbn.
    + destruct (_ =? _)%Z; cbn; lia.
    + lia.
  - destruct (allowBacktrack f); cbn [andb].
    + destruct (Z.ltb_spec (Z.of_nat i) (currentStep (fs_session σ) + 1)); cbn.
      * right; left. repeat split; lia.
      * right; right. split; [done | lia].
    + right; right. split; [done | lia].
Qed.

(** An event none of whose matched steps is the expected one or an earlier
    one leaves the session's progress and the statistics as they were: the
    loop over the steps ends in the state it started from. *)
Lemma checkFunnelStep_skip f e fa fd :
  funnelData fa !! f_id f = Some fd ->
  (forall i s, steps f !! i = Some s ->
     eventMatchesStep RegExp e s = Return true ->
     currentStep (openSession e fd) + 1 < Z.of_nat i) ->
  (checkFunnelStep RegExp f e fa).1 =
    set_funnelData
      (<[f_id f := store e {| fs_session := openSession e fd; fs_stats := stats fd |} fd]>
         (funnelData fa)) fa.
Proof.
  intros Hfd Hskip. unfold checkFunnelStep. rewrite Hfd.
  set (σ0 := {| fs_session := openSession e fd; fs_stats := stats fd |}).
  assert ((forEachi (checkStep RegExp f (fd_funnel fd) e) (steps f) σ0).1 = σ0) as Hloop.
  { apply (forEachi_invariant (fun σ => σ = σ0)); [done|].
    intros j s σ Hj ->. unfold checkStep.
    destruct (eventMatchesStep RegExp e s) as [[|]|x] eqn:Hm; [|done..].
    by rewrite processStepCompletion_skip; [|apply (Hskip j s)]. }
  destruct (forEachi _ _ σ0) as [σ c]. cbn in Hloop. by subst σ.
Qed.

End FunnelFacts.

(** ** Monotone funnel shape without backtracking *)

Section FunnelCounting.
Import JS Funnel FunnelSpec.

Variable RegExp : string -> option (string -> bool).

Implicit Types (f registered : funnel) (e : event) (σ : fstate) (i k : nat)
  (m : gmap string session) (s : session).

Lemma sessionsAtLeast_empty k : sessionsAtLeast k ∅ = 0.
Proof. unfold sessionsAtLeast. by rewrite map_fold_empty. Qed.

Lemma sessionsAtLeast_insert k m sid s :
  m !! sid = None ->
  sessionsAtLeast k (<[sid := s]> m) = atLeast k s + sessionsAtLeast k m.
Proof.
  intros Hnone. unfold sessionsAtLeast.
  rewrite map_fold_insert_L; [done | intros; lia | done].
Qed.

Lemma sessionsAtLeast_delete k m sid s :
  m !! sid = Some s ->
  sessionsAtLeast k m = atLeast k s + sessionsAtLeast k (delete sid m).
Proof.
  intros Hs. unfold sessionsAtLeast.
  by rewrite (map_fold_delete_L _ _ sid s m); [| intros; lia |].
Qed.

(** Writing a session back under its key. *)
Lemma sessionsAtLeast_update k m sid s :
  sessionsAtLeast k (<[sid := s]> m) = atLeast k s + sessionsAtLeast k (delete sid m).
Proof.
  rewrite <- (insert_delete_eq m). apply sessionsAtLeast_insert, lookup_delete_eq.
Qed.

Lemma atLeast_antitone k s : atLeast (S k) s <= atLeast k s.
Proof. unfold atLeast. repeat case_bool_decide; lia. Qed.

Lemma sessionsAtLeast_antitone k m : sessionsAtLeast (S k) m <= sessionsAtLeast k m.
Proof.
  induction m as [|sid s m Hnone IH] using map_ind.
  - by rewrite !sessionsAtLeast_empty.
  - rewrite !sessionsAtLeast_insert by done.
    pose proof (atLeast_antitone k s). lia.
Qed.

Lemma counted_monotone st m : counted st m -> monotone st.
Proof.
  intros Hc i a b Ha Hb. rewrite (Hc _ _ Ha), (Hc _ _ Hb).
  apply sessionsAtLeast_antitone.
Qed.

(** [updateFunnelStats] adds one to [reached] of its step and leaves the
    other [reached] counters alone. *)
Lemma updateFunnelStats_reached registered i st k a' :
  stat_steps (updateFunnelStats registered i st).1 !! k = Some a' ->
  exists a, stat_steps st !! k = Some a /\
    reached a' = reached a + (if bool_decide (k = i) then 1 else 0).
Proof.
  unfold updateFunnelStats.
  destruct (stat_steps st !! i) as [cur|] eqn:Hcur; cbn.
  2:{ intros Hk. exists a'. split; [done|].
      case_bool_decide; [congruence | lia]. }
  pose proof (lookup_lt_Some _ _ _ Hcur) as Hlen.
  set (cur1 := set_reached (reached cur + 1) cur).
  set (steps1 := <[i := cur1]> (stat_steps st)).
  assert (forall l2, (l2 = steps1 \/ exists c, l2 = <[i := set_conversionFromPrevious c cur1]> steps1) ->
            l2 !! k = Some a' ->
            exists a, stat_steps st !! k = Some a /\
              reached a' = reached a + (if bool_decide (k = i) then 1 else 0)) as Hgen.
  { intros l2 Hs2 Hk. destruct (decide (k = i)) as [->|Hne].
    - exists cur. split; [done|]. rewrite bool_decide_eq_true_2 by done.
      destruct Hs2 as [->|[c ->]].
      + unfold steps1 in Hk. rewrite list_lookup_insert_eq in Hk by done.
        by inversion Hk.
      + rewrite list_lookup_insert_eq in Hk
          by (unfold steps1; by rewrite length_insert).
        by inversion Hk.
    - exists a'. rewrite bool_decide_eq_false_2 by done. split; [|lia].
      destruct Hs2 as [->|[c ->]].
      + unfold steps1 in Hk. by rewrite list_lookup_insert_ne in Hk.
      + rewrite list_lookup_insert_ne in Hk by done.
        unfold steps1 in Hk. by rewrite list_lookup_insert_ne in Hk. }
  intros Hk. eapply Hgen; [|].
  2:{ destruct (_ =? _)%Z; exact Hk. }
  destruct (_ =? _)%Z; cbn; destruct i as [|j]; eauto;
    destruct (steps1 !! j); eauto.
Qed.

Lemma updateFunnelStats_throw registered i st st' x :
  updateFunnelStats registered i st = (st', Throw x) ->
  st' = st /\ stat_steps st !! i = None.
Proof.
  unfold updateFunnelStats. destruct (stat_steps st !! i); [|by inversion 1].
  destruct (_ =? _)%Z; inversion 1.
Qed.

Lemma atLeast_advance k i e s :
  Z.of_nat i = currentStep s + 1 ->
  atLeast k (advance i e s) = atLeast k s + (if bool_decide (k = i) then 1 else 0).
Proof.
  intros Hi. unfold atLeast, advance; cbn. repeat case_bool_decide; lia.
Qed.

(** Without backtracking a step completion keeps the counters in step
    with the sessions, also when it ends by an exception. *)
Lemma processStepCompletion_counted f registered i e σ rest :
  allowBacktrack f = false ->
  countedWith σ rest ->
  countedWith (processStepCompletion f registered i e σ).1 rest.
Proof.
  intros Hnb Hc. unfold processStepCompletion. rewrite Hnb. cbn [andb].
  destruct (Z.eqb_spec (Z.of_nat i) (currentStep (fs_session σ) + 1)) as [Heq|_]; [|done].
  assert (countedWith {| fs_session := advance i e (fs_session σ);
                         fs_stats := (updateFunnelStats registered i (fs_stats σ)).1 |} rest)
    as Hadv.
  { intros k a' Hk. cbn in Hk. apply updateFunnelStats_reached in Hk as (a & Ha & ->).
    cbn. rewrite atLeast_advance by done. rewrite (Hc _ _ Ha). lia. }
  destruct (updateFunnelStats registered i (fs_stats σ)) as [st' [|x]]; cbn in *.
  - destruct (_ =? _)%Z; cbn; [|done].
    intros k a Hk. apply (Hadv k a Hk).
  - done.
Qed.

Lemma checkStep_counted f registered e st i σ rest :
  allowBacktrack f = false ->
  countedWith σ rest ->
  countedWith (checkStep RegExp f registered e st i σ).1 rest.
Proof.
  intros Hnb Hc. unfold checkStep.
  destruct (eventMatchesStep RegExp e st) as [[|]|x]; [|done..].
  by apply processStepCompletion_counted.
Qed.

Lemma openSession_counted e fd :
  counted (stats fd) (sessions fd) ->
  countedWith {| fs_session := openSession e fd; fs_stats := stats fd |}
    (delete (ev_sessionId e) (sessions fd)).
Proof.
  intros Hc k a Hk. cbn in *. rewrite (Hc _ _ Hk). unfold openSession.
  destruct (sessions fd !! ev_sessionId e) as [s|] eqn:Hs; cbn.
  - by rewrite (sessionsAtLeast_delete k _ _ s Hs).
  - rewrite delete_id by done. unfold atLeast; cbn.
    rewrite bool_decide_eq_false_2 by lia. lia.
Qed.

Lemma store_counted e σ fd :
  countedWith σ (delete (ev_sessionId e) (sessions fd)) ->
  counted (stats (store e σ fd)) (sessions (store e σ fd)).
Proof.
  intros Hc k a Hk. cbn in *. rewrite sessionsAtLeast_update. by apply Hc.
Qed.

Lemma checkFunnelStep_config f e fa :
  config_funnels (checkFunnelStep RegExp f e fa).1 = config_funnels fa.
Proof.
  unfold checkFunnelStep. destruct (funnelData fa !! f_id f); [|done].
  by destruct (forEachi _ _ _).
Qed.

Lemma checkFunnelStep_countedAll f e fa :
  f ∈ config_funnels fa ->
  countedAll fa -> countedAll (checkFunnelStep RegExp f e fa).1.
Proof.
  intros Hin Hall. unfold checkFunnelStep.
  destruct (funnelData fa !! f_id f) as [fd|] eqn:Hfd; [|done].
  set (σ0 := {| fs_session := openSession e fd; fs_stats := stats fd |}).
  pose proof (forEachi_invariant
    (fun σ => allowBacktrack f = false ->
              counted (stats fd) (sessions fd) ->
              countedWith σ (delete (ev_sessionId e) (sessions fd)))
    (checkStep RegExp f (fd_funnel fd) e) (steps f) σ0) as Hloop.
  destruct (forEachi _ _ σ0) as [σ c]. cbn in *.
  intros X fdX HX Hnb. unfold set_funnelData in HX; cbn in HX.
  destruct (decide (f_id f = X)) as [<-|Hne].
  - rewrite lookup_insert_eq in HX. inversion HX; subst fdX.
    apply store_counted. apply Hloop.
    + intros _ Hc. by apply openSession_counted.
    + intros j st τ _ Hτ Hf Hc. apply checkStep_counted; auto.
    + by apply Hnb.
    + by apply (Hall _ _ Hfd).
  - rewrite lookup_insert_ne in HX by done. by apply (Hall _ _ HX).
Qed.

Lemma analyzeEvent_countedAll e fa :
  countedAll fa -> countedAll (analyzeEvent RegExp e fa).1.
Proof.
  intros Hall. unfold analyzeEvent.
  apply (forEach_invariant
    (fun fa' => config_funnels fa' = config_funnels fa /\ countedAll fa')
    (fun f => checkFunnelStep RegExp f e) (config_funnels fa) fa); [done|].
  intros f fa' Hin [Hcfg Hc]. split.
  - by rewrite checkFunnelStep_config.
  - apply checkFunnelStep_countedAll; [by rewrite Hcfg | done].
Qed.

Lemma addEvent_countedAll ls e fa :
  countedAll fa -> countedAll (addEvent RegExp ls e fa).1.
Proof. intros Hall. unfold addEvent. by apply analyzeEvent_countedAll. Qed.

Lemma initializeFunnelStats_counted n : counted (initializeFunnelStats n) ∅.
Proof.
  intros k a Hk. rewrite sessionsAtLeast_empty. cbn in Hk.
  rewrite list_lookup_fmap in Hk. destruct (seq 0 n !! k); by inversion Hk.
Qed.

Lemma defineFunnel_countedAll funnelId cs options fa :
  countedAll fa -> countedAll (defineFunnel funnelId cs options fa).
Proof.
  intros Hall X fdX HX Hnb. cbn in HX.
  destruct (decide (funnelId = X)) as [<-|Hne].
  - rewrite lookup_insert_eq in HX. inversion HX; subst fdX. cbn.
    apply initializeFunnelStats_counted.
  - rewrite lookup_insert_ne in HX by done. apply (Hall X fdX HX).
    intros f Hf. apply Hnb. cbn. apply elem_of_app. by left.
Qed.

Lemma reachable_countedAll fa : reachable RegExp fa -> countedAll fa.
Proof.
  induction 1 as [funnels|fa funnelId cs options _ IH|fa ls e _ IH].
  - intros X fd HX. cbn in HX. by rewrite lookup_empty in HX.
  - by apply defineFunnel_countedAll.
  - by apply addEvent_countedAll.
Qed.

(** *** Steps are completed in order *)

Lemma processStepCompletion_inOrder f registered i e σ :
  allowBacktrack f = false ->
  inOrder (fs_session σ) ->
  inOrder (fs_session (processStepCompletion f registered i e σ).1).
Proof.
  intros Hnb [Hlo Hseq]. unfold processStepCompletion. rewrite Hnb. cbn [andb].
  destruct (Z.eqb_spec (Z.of_nat i) (currentStep (fs_session σ) + 1)) as [Heq|_];
    [|done].
  assert (inOrder (advance i e (fs_session σ))) as Hadv.
  { split; cbn; [lia|]. rewrite map_app, Hseq. cbn.
    replace (Z.to_nat (Z.of_nat i + 1)) with (S i) by lia.
    replace (Z.to_nat (currentStep (fs_session σ) + 1)) with i by lia.
    by rewrite seq_S. }
  destruct (updateFunnelStats registered i (fs_stats σ)) as [st' [|x]]; cbn; [|done].
  by destruct (_ =? _)%Z.
Qed.

Lemma checkFunnelStep_inOrderAll f e fa :
  f ∈ config_funnels fa ->
  inOrderAll fa -> inOrderAll (checkFunnelStep RegExp f e fa).1.
Proof.
  intros Hin Hall. unfold checkFunnelStep.
  destruct (funnelData fa !! f_id f) as [fd|] eqn:Hfd; [|done].
  set (σ0 := {| fs_session := openSession e fd; fs_stats := stats fd |}).
  pose proof (forEachi_invariant
    (fun σ => allowBacktrack f = false ->
              (forall s, sessions fd !! ev_sessionId e = Some s -> inOrder s) ->
              inOrder (fs_session σ))
    (checkStep RegExp f (fd_funnel fd) e) (steps f) σ0) as Hloop.
  destruct (forEachi _ _ σ0) as [σ c]. cbn in *.
  intros X fdX sid s HX Hnb Hs. unfold set_funnelData in HX; cbn in HX.
  destruct (decide (f_id f = X)) as [<-|Hne].
  - rewrite lookup_insert_eq in HX. inversion HX; subst fdX. cbn in Hs.
    destruct (decide (ev_sessionId e = sid)) as [<-|Hsid].
    + rewrite lookup_insert_eq in Hs. inversion Hs; subst s. apply Hloop.
      * intros _ Hold. unfold openSession.
        destruct (sessions fd !! ev_sessionId e) as [s0|]; cbn.
        -- by apply (Hold s0).
        -- by split.
      * intros j st τ _ Hτ Hf Hold. unfold checkStep.
        destruct (eventMatchesStep RegExp e st) as [[|]|x]; cbn; auto.
        apply processStepCompletion_inOrder; auto.
      * by apply Hnb.
      * intros s0 Hs0. by apply (Hall _ _ _ _ Hfd Hnb Hs0).
    + rewrite lookup_insert_ne in Hs by done. by apply (Hall _ _ _ _ Hfd Hnb Hs).
  - rewrite lookup_insert_ne in HX by done. by apply (Hall _ _ _ _ HX Hnb Hs).
Qed.

Lemma addEvent_inOrderAll ls e fa :
  inOrderAll fa -> inOrderAll (addEvent RegExp ls e fa).1.
Proof.
  intros Hall. unfold addEvent, analyzeEvent.
  set (fa1 := {| config_funnels := config_funnels fa; events := _;
                 funnelData := funnelData fa |}).
  apply (forEach_invariant
    (fun fa' => config_funnels fa' = config_funnels fa /\ inOrderAll fa')
    (fun f => checkFunnelStep RegExp f (tag ls e)) (config_funnels fa1) fa1); [done|].
  intros f fa' Hin [Hcfg Hc]. split.
  - by rewrite checkFunnelStep_config.
  - apply checkFunnelStep_inOrderAll; [by rewrite Hcfg | done].
Qed.

Lemma defineFunnel_inOrderAll funnelId cs options fa :
  inOrderAll fa -> inOrderAll (defineFunnel funnelId cs options fa).
Proof.
  intros Hall X fdX sid s HX Hnb Hs. cbn in HX.
  destruct (decide (funnelId = X)) as [<-|Hne].
  - rewrite lookup_insert_eq in HX. inversion HX; subst fdX. cbn in Hs.
    by rewrite lookup_empty in Hs.
  - rewrite lookup_insert_ne in HX by done. apply (Hall X fdX sid s HX); [|done].
    intros f Hf. apply Hnb. cbn. apply elem_of_app. by left.
Qed.

Lemma reachable_inOrderAll fa : reachable RegExp fa -> inOrderAll fa.
Proof.
  induction 1 as [funnels|fa funnelId cs options _ IH|fa ls e _ IH].
  - intros X fd sid s HX. cbn in HX. by rewrite lookup_empty in HX.
  - by apply defineFunnel_inOrderAll.
  - by apply addEvent_inOrderAll.
Qed.

End FunnelCounting.

(** ** The funnel analyzer: no step is skipped, and the funnel shape *)

Section FunnelClaims.
Import JS Funnel FunnelSpec FunnelExamples.

Lemma reachable_addEvents RegExp l fa :
  reachable RegExp fa -> reachable RegExp (addEvents RegExp l fa).
Proof.
  revert fa. induction l as [|[ls e] l IH]; intros fa Hfa; [done|].
  cbn. apply IH. by constructor.
Qed.

(** What [checkFunnelStep] leaves in the entry of its funnel when the loop
    over the steps changed nothing. *)
Lemma checkFunnelStep_skip_lookup RegExp f e fa fd :
  funnelData fa !! f_id f = Some fd ->
  (forall i s, steps f !! i = Some s ->
     eventMatchesStep RegExp e s = Return true ->
     currentStep (openSession e fd) + 1 < Z.of_nat i) ->
  exists fd' s',
    funnelData (checkFunnelStep RegExp f e fa).1 !! f_id f = Some fd'
    /\ sessions fd' !! ev_sessionId e = Some s'
    /\ currentStep s' = currentStep (openSession e fd)
    /\ completedSteps s' = completedSteps (openSession e fd)
    /\ stats fd' = stats fd.
Proof.
  intros Hfd Hskip. rewrite (checkFunnelStep_skip RegExp f e fa fd Hfd Hskip).
  eexists _, _. cbn. rewrite lookup_insert_eq. split; [done|]. cbn.
  by rewrite lookup_insert_eq.
Qed.

(** C1 (as the code has it). Steps are taken one match at a time:
    - one call of [processStepCompletion] moves [currentStep] forward only
      from [k] to [k+1], the matched index being [k+1];
    - a match of a step beyond [currentStep + 1] changes neither the
      session nor any statistics counter;
    - an event all of whose matched steps lie beyond [currentStep + 1]
      leaves [currentStep], [completedSteps] and the statistics of the
      funnel as they were ([openSession e fd] is the session as found, or
      as created at step -1, with the event logged);
    - in particular, in a funnel of three steps without backtracking, an
      event of a new session that matches step 2 and neither step 0 nor
      step 1 leaves [currentStep] at -1;
    - after any run, every session of a funnel registered without
      backtracking has completed exactly the steps 0 to [currentStep],
      in this order. *)
Theorem funnel_no_skip :
  (forall f registered i e σ,
     let σ' := (processStepCompletion f registered i e σ).1 in
     currentStep (fs_session σ) < currentStep (fs_session σ') ->
     currentStep (fs_session σ') = currentStep (fs_session σ) + 1
     /\ Z.of_nat i = currentStep (fs_session σ) + 1)
  /\ (forall f registered i e σ,
        currentStep (fs_session σ) + 1 < Z.of_nat i ->
        processStepCompletion f registered i e σ = (σ, Normal))
  /\ (forall RegExp f e fa fd,
        funnelData fa !! f_id f = Some fd ->
        (forall i s, steps f !! i = Some s ->
           eventMatchesStep RegExp e s = Return true ->
           currentStep (openSession e fd) + 1 < Z.of_nat i) ->
        exists fd' s',
          funnelData (checkFunnelStep RegExp f e fa).1 !! f_id f = Some fd'
          /\ sessions fd' !! ev_sessionId e = Some s'
          /\ currentStep s' = currentStep (openSession e fd)
          /\ completedSteps s' = completedSteps (openSession e fd)
          /\ stats fd' = stats fd)
  /\ (forall RegExp f e fa fd s0 s1 s2,
        funnelData fa !! f_id f = Some fd ->
        steps f = [s0; s1; s2] ->
        allowBacktrack f = false ->
        sessions fd !! ev_sessionId e = None ->
        eventMatchesStep RegExp e s0 = Return false ->
        eventMatchesStep RegExp e s1 = Return false ->
        eventMatchesStep RegExp e s2 = Return true ->
        exists fd' s',
          funnelData (checkFunnelStep RegExp f e fa).1 !! f_id f = Some fd'
          /\ sessions fd' !! ev_sessionId e = Some s'
          /\ currentStep s' = -1
          /\ completedSteps s' = []
          /\ stats fd' = stats fd)
  /\ (forall RegExp fa funnelId fd sid s,
        reachable RegExp fa ->
        funnelData fa !! funnelId = Some fd ->
        noBacktrack funnelId fa ->
        sessions fd !! sid = Some s ->
        -1 <= currentStep s
        /\ map cs_stepIndex (completedSteps s) = seq 0 (Z.to_nat (currentStep s + 1))).
Proof.
  split; [|split; [|split; [|split]]].
  - intros f registered i e σ σ' Hlt. subst σ'.
    destruct (processStepCompletion_currentStep f registered i e σ)
      as [[H1 H2]|[(_ & H1 & H2)|[H1 _]]]; [done | lia | lia].
  - apply processStepCompletion_skip.
  - apply checkFunnelStep_skip_lookup.
  - intros RegExp f e fa fd s0 s1 s2 Hfd Hsteps _ Hnew H0 H1 H2.
    assert (currentStep (openSession e fd) = -1
            /\ completedSteps (openSession e fd) = []) as [Hc Hd].
    { unfold openSession. by rewrite Hnew. }
    rewrite <- Hc, <- Hd. apply checkFunnelStep_skip_lookup; [done|].
    intros i s Hi Hm. rewrite Hc. rewrite Hsteps in Hi.
    destruct i as [|[|[|i]]]; cbn in Hi; [| |lia|done];
      inversion Hi; subst; congruence.
  - intros RegExp fa funnelId fd sid s Hreach Hfd Hnb Hs.
    by apply (reachable_inOrderAll RegExp fa Hreach funnelId fd sid s).
Qed.

(** The last part of [funnel_no_skip] on the checkout funnel: a payment
    event arriving first leaves the session at -1. *)
Lemma funnel_no_skip_witness :
  let e := tag tab (custom "payment" 1) in
  exists fd' s',
    funnelData (checkFunnelStep noRegExp checkoutFunnel e checkout).1 !! "checkout"
      = Some fd'
    /\ sessions fd' !! "s1" = Some s'
    /\ currentStep s' = -1
    /\ completedSteps s' = []
    /\ stats fd' = initializeFunnelStats 3.
Proof.
  cbn zeta.
  destruct (funnelData checkout !! "checkout") as [fd|] eqn:Hfd;
    [|vm_compute in Hfd; discriminate Hfd].
  assert (stats fd = initializeFunnelStats 3 /\ sessions fd = ∅) as [Hst Hs].
  { unfold checkout, defineFunnel in Hfd. cbn in Hfd.
    rewrite lookup_insert_eq in Hfd. inversion Hfd. by split. }
  rewrite <- Hst.
  apply (proj1 (proj2 (proj2 (proj2 funnel_no_skip))) noRegExp checkoutFunnel
           (tag tab (custom "payment" 1)) checkout fd
           (mkStep 0 (onEvent "cart")) (mkStep 1 (onEvent "shipping"))
           (mkStep 2 (onEvent "payment"))).
  - exact Hfd.
  - reflexivity.
  - reflexivity.
  - rewrite Hs. apply lookup_empty.
  - reflexivity.
  - reflexivity.
  - reflexivity.
Defined.

(** C1, read event by event, fails: the shop funnel is at step 0 when a
    click on [#buy] arrives; the click matches step 2, which lies beyond
    [currentStep + 1 = 1], and it matches step 1 as well. The loop over
    the steps completes step 1 and then step 2, so that [currentStep],
    [completedSteps] and the counters all change. *)
Lemma funnel_skip_per_event_counterexample :
  let before := addEvents noRegExp [(tab, custom "landing" 1)] shop in
  let e := click "button" "buy" "" 2 in
  let after := (addEvent noRegExp tab e before).1 in
  currentStepOf "shop" "s1" before = Some 0
  /\ (eventMatchesStep noRegExp (tag tab e)
        <$> (head (config_funnels before) ≫= fun f => steps f !! 2%nat))
     = Some (Return true)
  /\ currentStepOf "shop" "s1" after = Some 2
  /\ completedOf "shop" "s1" before = [0%nat]
  /\ completedOf "shop" "s1" after = [0%nat; 1%nat; 2%nat]
  /\ reachedOf "shop" before = [1; 0; 0]
  /\ reachedOf "shop" after = [1; 1; 1].
Proof. vm_compute. repeat split. Qed.

(** C5 (as the code has it). After any run, the [reached] counters of a
    funnel that is registered without backtracking are non-increasing
    along the steps. *)
Theorem reached_monotone_without_backtracking RegExp fa funnelId fd :
  reachable RegExp fa ->
  funnelData fa !! funnelId = Some fd ->
  noBacktrack funnelId fa ->
  monotone (stats fd).
Proof.
  intros Hreach Hfd Hnb. eapply counted_monotone.
  by apply (reachable_countedAll RegExp fa Hreach funnelId fd).
Qed.

Lemma reached_monotone_without_backtracking_witness :
  exists fd, funnelData checkoutRun !! "checkout" = Some fd /\ monotone (stats fd).
Proof.
  destruct (funnelData checkoutRun !! "checkout") as [fd|] eqn:Hfd.
  - exists fd. split; [reflexivity|].
    apply (reached_monotone_without_backtracking noRegExp checkoutRun "checkout" fd).
    + apply reachable_addEvents. unfold checkout. apply reach_defineFunnel, reach_create.
    + exact Hfd.
    + intros f Hin _. vm_compute in Hin.
      apply list_elem_of_singleton in Hin. by subst f.
  - vm_compute in Hfd. discriminate Hfd.
Defined.

(** C5 fails when backtracking is allowed: in the signup funnel a session
    completes both steps, goes back to the first one and completes the
    second one again; [reached] is then 1 for step 0 and 2 for step 1. *)
Lemma reached_monotone_counterexample :
  reachable noRegExp signupRun
  /\ reachedOf "signup" signupRun = [1; 2]
  /\ exists fd, funnelData signupRun !! "signup" = Some fd /\ ~ monotone (stats fd).
Proof.
  split; [|split].
  - apply reachable_addEvents. unfold signup. apply reach_defineFunnel, reach_create.
  - vm_compute. reflexivity.
  - destruct (funnelData signupRun !! "signup") as [fd|] eqn:Hfd.
    + exists fd. split; [reflexivity|]. intros Hmono.
      vm_compute in Hfd. inversion Hfd; subst fd; clear Hfd.
      specialize (Hmono 0%nat _ _ eq_refl eq_refl). cbn in Hmono. lia.
    + vm_compute in Hfd. discriminate Hfd.
Qed.

End FunnelClaims.

(** * Properties of the persona analyzer *)

Section PersonaFacts.
Import JS Persona PersonaSpec.

Variable StringToNumber : string -> jsnum.
Variable ToString : jsval -> string.

Implicit Types (pa : PersonaAnalyzer) (u : userProfile) (σ : astate)
  (p : persona) (uid pid : string) (ε : env).

(** The four parts of [consistent], laid open. *)
Local Ltac consistent_parts :=
  unfold consistent, keyed, known, segmented, agree;
  split; [|split; [|split; [split|]]]; cbn.

Lemma updateUserProfile_u_id ε u e : u_id (updateUserProfile ε u e) = u_id u.
Proof.
  unfold updateUserProfile; cbn.
  destruct (currentSession u) as [s|]; [destruct (isNewSession s e)|]; reflexivity.
Qed.

Lemma updateUserProfile_personas ε u e : personas (updateUserProfile ε u e) = personas u.
Proof.
  unfold updateUserProfile; cbn.
  destruct (currentSession u) as [s|]; [destruct (isNewSession s e)|]; reflexivity.
Qed.

(** The rules read the metrics and the current session of a profile, not
    its list of personas. *)
Lemma userMatchesPersona_set_personas l u p :
  userMatchesPersona StringToNumber ToString (set_personas l u) p
  = userMatchesPersona StringToNumber ToString u p.
Proof. reflexivity. Qed.

Lemma tracks_init pa uid u :
  consistent pa -> users pa !! uid = Some u ->
  tracks pa uid {| a_user := u; a_segments := segments pa; a_new := ∅ |}.
Proof.
  intros (Hkey & Hknown & [Hcfg Hseg] & Hagree) Hu. repeat split; cbn; try tauto.
  - by apply Hkey.
  - intros pid seg' Hs. exists seg'. split; [done|]. tauto.
  - rewrite <- (Hkey _ _ Hu). by apply (Hagree uid u pid seg').
  - rewrite <- (Hkey _ _ Hu). by apply (Hagree uid u pid seg').
  - intros pid. by apply (Hseg uid u).
Qed.

Lemma assigned_push u pid a :
  assigned (set_personas (personas u ++ [a]) u) pid <-> assigned u pid \/ pid = as_id a.
Proof.
  unfold assigned; cbn. rewrite map_app, elem_of_app. cbn.
  rewrite list_elem_of_singleton. tauto.
Qed.

Lemma assign_tracks ε current p pa uid σ :
  is_Some (segments pa !! p_id p) ->
  tracks pa uid σ ->
  tracks pa uid (assign StringToNumber ToString ε current p σ).1.
Proof.
  intros Hp (Hid & Hdom & Hoth & Hme & Hhas). unfold assign.
  destruct (userMatchesPersona _ _ _ _) as [[|]|x]; [|done..].
  destruct (decide (p_id p ∈ current)); [done|].
  apply Hdom in Hp as [seg Hseg]. rewrite Hseg. cbn.
  split; [|split; [|split; [|split]]]; cbn.
  - done.
  - intros pid. rewrite <- Hdom.
    destruct (decide (p_id p = pid)) as [<-|Hne].
    + rewrite lookup_insert_eq, Hseg. split; eauto.
    + by rewrite lookup_insert_ne.
  - intros pid seg' Hs.
    destruct (decide (p_id p = pid)) as [<-|Hne].
    + rewrite lookup_insert_eq in Hs. inversion Hs; subst seg'; clear Hs.
      destruct (Hoth _ _ Hseg) as (seg0 & Hseg0 & Hx). exists seg0. split; [done|].
      intros x Hne. cbn. rewrite <- (Hx x Hne). rewrite Hid.
      rewrite elem_of_union, elem_of_singleton. tauto.
    + rewrite lookup_insert_ne in Hs by done. by apply Hoth.
  - intros pid seg' Hs. rewrite assigned_push. cbn.
    destruct (decide (p_id p = pid)) as [<-|Hne].
    + rewrite lookup_insert_eq in Hs. inversion Hs; subst seg'; clear Hs. cbn.
      rewrite Hid, elem_of_union, elem_of_singleton. tauto.
    + rewrite lookup_insert_ne in Hs by done. rewrite <- (Hme pid seg' Hs).
      split; [intros [?|?]; [done|congruence] | tauto].
  - intros pid Ha. apply assigned_push in Ha. cbn in Ha.
    destruct (decide (p_id p = pid)) as [<-|Hne].
    + rewrite lookup_insert_eq. eauto.
    + rewrite lookup_insert_ne by done. destruct Ha as [Ha|Ha]; [|congruence].
      by apply Hhas.
Qed.

Lemma revokeIn_nil (new : gset string) uid pid seg : revokeIn new uid [] pid seg = seg.
Proof.
  unfold revokeIn, revoked. rewrite bool_decide_eq_false_2; [done|].
  cbn. rewrite elem_of_nil. tauto.
Qed.

(** [revoke] does not raise when every entry of the list has a segment;
    it keeps the entries that were matched, and takes the user out of the
    segments of the others. *)
Lemma revoke_spec (new : gset string) uid (l : list assignment) (segs : gmap string segment) :
  (forall a, a ∈ l -> is_Some (segs !! as_id a)) ->
  exists segs',
    revoke new uid l segs = (filter (fun a => as_id a ∈ new) l, segs', Normal)
    /\ forall pid, segs' !! pid = revokeIn new uid l pid <$> segs !! pid.
Proof.
  revert segs. induction l as [|a l IH]; intros segs Hhas.
  - exists segs. split; [done|]. intros pid.
    destruct (segs !! pid) as [seg|]; cbn; [|done]. by rewrite revokeIn_nil.
  - cbn [revoke]. destruct (decide (as_id a ∈ new)) as [Hin|Hout].
    + destruct (IH segs) as (segs' & Heq & Hlk).
      { intros b Hb. apply Hhas. by right. }
      exists segs'. rewrite Heq. rewrite filter_cons_True by done. split; [done|].
      intros pid. rewrite Hlk. destruct (segs !! pid) as [seg|]; cbn; [|done].
      f_equal. unfold revokeIn. apply (f_equal (fun b : bool => if b then _ else _)).
      apply bool_decide_ext. unfold revoked. cbn. rewrite elem_of_cons.
      split; [tauto|]. intros [[->|?] ?]; tauto.
    + destruct (Hhas a ltac:(left)) as [seg Hseg]. rewrite Hseg.
      destruct (IH (<[as_id a := set_seg_users (seg_users seg ∖ {[uid]}) seg]> segs))
        as (segs' & Heq & Hlk).
      { intros b Hb. destruct (decide (as_id a = as_id b)) as [<-|Hne].
        - rewrite lookup_insert_eq. eauto.
        - rewrite lookup_insert_ne by done. apply Hhas. by right. }
      exists segs'. rewrite Heq. rewrite filter_cons_False by done. split; [done|].
      intros pid. rewrite Hlk.
      destruct (decide (as_id a = pid)) as [<-|Hne].
      * rewrite lookup_insert_eq, Hseg. cbn. f_equal. unfold revokeIn at 2.
        rewrite bool_decide_eq_true_2 by (split; [left|done]).
        unfold revokeIn. destruct (bool_decide _); [|done].
        unfold set_seg_users; cbn. f_equal. apply set_eq. intros x.
        rewrite !elem_of_difference. tauto.
      * rewrite lookup_insert_ne by done.
        destruct (segs !! pid) as [seg0|]; cbn; [|done].
        f_equal. unfold revokeIn. apply (f_equal (fun b : bool => if b then _ else _)).
        apply bool_decide_ext. unfold revoked. cbn. rewrite elem_of_cons.
        split; [tauto|]. intros [[->|?] ?]; tauto.
Qed.

Lemma assigned_filter (new : gset string) u pid :
  assigned (set_personas (filter (fun a => as_id a ∈ new) (personas u)) u) pid
  <-> assigned u pid /\ pid ∈ new.
Proof.
  unfold assigned; cbn. rewrite !list_elem_of_fmap. split.
  - intros (a & -> & Ha). apply list_elem_of_filter in Ha as [Hn Ha]. eauto.
  - intros [(a & -> & Ha) Hn]. exists a. split; [done|].
    by apply list_elem_of_filter.
Qed.

Lemma revoke_tracks pa uid σ :
  tracks pa uid σ ->
  exists segs',
    revoke (a_new σ) (u_id (a_user σ)) (personas (a_user σ)) (a_segments σ)
      = (filter (fun a => as_id a ∈ a_new σ) (personas (a_user σ)), segs', Normal)
    /\ (forall pid, segs' !! pid
          = revokeIn (a_new σ) uid (personas (a_user σ)) pid <$> a_segments σ !! pid)
    /\ tracks pa uid
         {| a_user := set_personas (filter (fun a => as_id a ∈ a_new σ) (personas (a_user σ)))
                        (a_user σ);
            a_segments := segs'; a_new := a_new σ |}.
Proof.
  intros (Hid & Hdom & Hoth & Hme & Hhas).
  destruct (revoke_spec (a_new σ) (u_id (a_user σ)) (personas (a_user σ)) (a_segments σ))
    as (segs' & Heq & Hlk).
  { intros a Ha. apply Hhas. unfold assigned. apply list_elem_of_fmap. eauto. }
  rewrite Hid in Hlk. exists segs'. split; [done|]. split; [done|].
  assert (forall pid seg', segs' !! pid = Some seg' ->
            exists seg, a_segments σ !! pid = Some seg
              /\ seg' = revokeIn (a_new σ) uid (personas (a_user σ)) pid seg) as Hinv.
  { intros pid seg' Hs. rewrite Hlk in Hs.
    destruct (a_segments σ !! pid) as [seg|]; cbn in Hs; [|done].
    exists seg. split; [done|]. by inversion Hs. }
  split; [|split; [|split; [|split]]]; cbn.
  - done.
  - intros pid. rewrite <- Hdom, Hlk. by rewrite fmap_is_Some.
  - intros pid seg' Hs. destruct (Hinv _ _ Hs) as (seg & Hseg & ->).
    destruct (Hoth _ _ Hseg) as (seg0 & Hseg0 & Hx). exists seg0. split; [done|].
    intros x Hne. rewrite <- (Hx x Hne). unfold revokeIn.
    destruct (bool_decide _); [|done]. cbn.
    rewrite elem_of_difference, elem_of_singleton. tauto.
  - intros pid seg' Hs. destruct (Hinv _ _ Hs) as (seg & Hseg & ->).
    rewrite assigned_filter. rewrite (Hme _ _ Hseg). unfold revokeIn.
    case_bool_decide as Hrev; cbn.
    + rewrite elem_of_difference, elem_of_singleton.
      destruct Hrev as [_ Hout]. tauto.
    + unfold revoked in Hrev. split; [tauto|]. intros Hin. split; [done|].
      apply (Hme _ _ Hseg) in Hin. unfold assigned in Hin.
      destruct (decide (pid ∈ a_new σ)); tauto.
  - intros pid Ha. apply assigned_filter in Ha as [Ha _].
    rewrite Hlk. rewrite fmap_is_Some. by apply Hhas.
Qed.

(** The state of a tracked analysis, written back, is consistent. *)
Lemma tracks_consistent pa uid u σ :
  consistent pa -> users pa !! uid = Some u -> tracks pa uid σ ->
  consistent (set_segments (a_segments σ) (set_users (<[uid := a_user σ]> (users pa)) pa)).
Proof.
  intros (Hkey & Hknown & [Hcfg Hseg] & Hagree) Hu (Hid & Hdom & Hoth & Hme & Hhas).
  consistent_parts.
  - intros k v Hk. destruct (decide (uid = k)) as [<-|Hne].
    + rewrite lookup_insert_eq in Hk. by inversion Hk; subst.
    + rewrite lookup_insert_ne in Hk by done. by apply Hkey.
  - intros pid seg' x Hs Hx. destruct (decide (uid = x)) as [<-|Hne].
    + rewrite lookup_insert_eq. eauto.
    + rewrite lookup_insert_ne by done.
      destruct (Hoth _ _ Hs) as (seg & Hseg0 & Hiff).
      apply (Hknown pid seg x Hseg0). apply Hiff; [congruence | done].
  - intros p Hp. apply Hdom. by apply Hcfg.
  - intros k v pid Hk Ha. destruct (decide (uid = k)) as [<-|Hne].
    + rewrite lookup_insert_eq in Hk. inversion Hk; subst v. by apply Hhas.
    + rewrite lookup_insert_ne in Hk by done. apply Hdom. by apply (Hseg k v).
  - intros k v pid seg' Hk Hs. destruct (decide (uid = k)) as [<-|Hne].
    + rewrite lookup_insert_eq in Hk. inversion Hk; subst v. rewrite Hid.
      by apply Hme.
    + rewrite lookup_insert_ne in Hk by done.
      destruct (Hoth _ _ Hs) as (seg & Hseg0 & Hiff).
      rewrite (Hagree k v pid seg Hk Hseg0). symmetry. apply Hiff.
      rewrite (Hkey _ _ Hk). congruence.
Qed.

Lemma updatePersonaMetrics_consistent ε pa :
  consistent pa -> consistent (updatePersonaMetrics ε pa).
Proof.
  intros (Hkey & Hknown & [Hcfg Hseg] & Hagree).
  assert (forall pid seg', ((fun seg => set_seg_metrics (segmentMetrics ε (users pa) seg) seg)
                              <$> segments pa) !! pid = Some seg' ->
            exists seg, segments pa !! pid = Some seg /\ seg_users seg' = seg_users seg)
    as Hinv.
  { intros pid seg' Hs. rewrite lookup_fmap in Hs.
    destruct (segments pa !! pid) as [seg|]; cbn in Hs; [|done].
    exists seg. split; [done|]. by inversion Hs. }
  consistent_parts.
  - done.
  - intros pid seg' x Hs Hx. destruct (Hinv _ _ Hs) as (seg & Hs0 & Heq).
    rewrite Heq in Hx. by apply (Hknown pid seg).
  - intros p Hp. rewrite lookup_fmap, fmap_is_Some. by apply Hcfg.
  - intros k v pid Hk Ha. rewrite lookup_fmap, fmap_is_Some. by apply (Hseg k v).
  - intros k v pid seg' Hk Hs. destruct (Hinv _ _ Hs) as (seg & Hs0 & Heq).
    rewrite Heq. by apply (Hagree k v pid seg).
Qed.

Lemma analyzeUserPersona_consistent ε uid pa :
  consistent pa ->
  consistent (analyzeUserPersona StringToNumber ToString ε uid pa).1.
Proof.
  intros Hc. unfold analyzeUserPersona.
  destruct (users pa !! uid) as [u|] eqn:Hu; [|done].
  pose proof (forEach_invariant (tracks pa uid)
    (assign StringToNumber ToString ε (list_to_set (map as_id (personas u))))
    (config_personas pa)
    {| a_user := u; a_segments := segments pa; a_new := ∅ |}
    (tracks_init pa uid u Hc Hu)) as Hloop.
  destruct (forEach _ _ _) as [σ [|x]]; cbn in Hloop.
  - assert (tracks pa uid σ) as Hσ.
    { apply Hloop. intros p τ Hp Hτ. apply assign_tracks; [|done].
      by apply Hc. }
    destruct (revoke_tracks pa uid σ Hσ) as (segs' & Heq & _ & Hσ').
    rewrite Heq. cbn. apply updatePersonaMetrics_consistent.
    apply (tracks_consistent pa uid u _ Hc Hu Hσ').
  - cbn. apply (tracks_consistent pa uid u σ Hc Hu). apply Hloop.
    intros p τ Hp Hτ. apply assign_tracks; [|done]. by apply Hc.
Qed.

(** Updating the profile of a user, new or known, keeps the analyzer
    consistent: the list of personas of the profile is not touched. *)
Lemma updateUserProfile_consistent ε uid e pa :
  consistent pa ->
  consistent
    (set_users (<[uid := updateUserProfile ε
                          (default (createUserProfile ε uid) (users pa !! uid)) e]>
                  (users pa)) pa).
Proof.
  intros (Hkey & Hknown & [Hcfg Hseg] & Hagree).
  set (u0 := default (createUserProfile ε uid) (users pa !! uid)).
  assert (u_id u0 = uid) as Hid.
  { unfold u0. destruct (users pa !! uid) as [u|] eqn:Hu; cbn; [by apply Hkey | done]. }
  assert (forall pid, assigned u0 pid -> exists u, users pa !! uid = Some u /\ assigned u pid)
    as Hass.
  { intros pid Ha. unfold u0 in *. destruct (users pa !! uid) as [u|]; cbn in *; [eauto|].
    unfold assigned in Ha. cbn in Ha. by apply elem_of_nil in Ha. }
  consistent_parts.
  - intros k v Hk. destruct (decide (uid = k)) as [<-|Hne].
    + rewrite lookup_insert_eq in Hk. inversion Hk; subst v.
      by rewrite updateUserProfile_u_id.
    + rewrite lookup_insert_ne in Hk by done. by apply Hkey.
  - intros pid seg x Hs Hx. destruct (decide (uid = x)) as [<-|Hne].
    + rewrite lookup_insert_eq. eauto.
    + rewrite lookup_insert_ne by done. by apply (Hknown pid seg).
  - done.
  - intros k v pid Hk Ha. destruct (decide (uid = k)) as [<-|Hne].
    + rewrite lookup_insert_eq in Hk. inversion Hk; subst v.
      unfold assigned in Ha. rewrite updateUserProfile_personas in Ha.
      destruct (Hass pid Ha) as (u & Hu & Hau). by apply (Hseg uid u).
    + rewrite lookup_insert_ne in Hk by done. by apply (Hseg k v).
  - intros k v pid seg Hk Hs. destruct (decide (uid = k)) as [<-|Hne].
    + rewrite lookup_insert_eq in Hk. inversion Hk; subst v.
      rewrite updateUserProfile_u_id, Hid. unfold assigned.
      rewrite updateUserProfile_personas. fold (assigned u0 pid).
      unfold u0. destruct (users pa !! uid) as [u|] eqn:Hu; cbn.
      * rewrite (Hagree uid u pid seg Hu Hs). by rewrite (Hkey _ _ Hu).
      * split.
        -- unfold assigned. cbn. by intros ?%elem_of_nil.
        -- intros Hin. destruct (Hknown pid seg uid Hs Hin) as [? ?]. congruence.
    + rewrite lookup_insert_ne in Hk by done. by apply (Hagree k v pid seg).
Qed.

Lemma addUserEvent_consistent ε uid e pa :
  consistent pa ->
  consistent (addUserEvent StringToNumber ToString ε uid e pa).1.
Proof.
  intros Hc. unfold addUserEvent.
  by apply analyzeUserPersona_consistent, updateUserProfile_consistent.
Qed.

Lemma definePersona_consistent id config pa :
  segments pa !! id = None ->
  consistent pa -> consistent (definePersona id config pa).
Proof.
  intros Hfresh (Hkey & Hknown & [Hcfg Hseg] & Hagree).
  consistent_parts.
  - done.
  - intros pid seg x Hs Hx. destruct (decide (id = pid)) as [<-|Hne].
    + rewrite lookup_insert_eq in Hs. inversion Hs; subst seg. cbn in Hx.
      by apply elem_of_empty in Hx.
    + rewrite lookup_insert_ne in Hs by done. by apply (Hknown pid seg).
  - intros p Hp. apply elem_of_app in Hp as [Hp|Hp].
    + destruct (decide (id = p_id p)) as [<-|Hne].
      * rewrite lookup_insert_eq. eauto.
      * rewrite lookup_insert_ne by done. by apply Hcfg.
    + apply list_elem_of_singleton in Hp. subst p. cbn. rewrite lookup_insert_eq. eauto.
  - intros k v pid Hk Ha. destruct (decide (id = pid)) as [<-|Hne].
    + rewrite lookup_insert_eq. eauto.
    + rewrite lookup_insert_ne by done. by apply (Hseg k v).
  - intros k v pid seg Hk Hs. destruct (decide (id = pid)) as [<-|Hne].
    + rewrite lookup_insert_eq in Hs. inversion Hs; subst seg. cbn. split.
      * intros Ha. destruct (Hseg k v id Hk Ha) as [? ?]. congruence.
      * by intros ?%elem_of_empty.
    + rewrite lookup_insert_ne in Hs by done. by apply (Hagree k v pid seg).
Qed.

Lemma create_consistent : consistent create.
Proof.
  unfold create, initializeDefaultPersonas.
  repeat (apply definePersona_consistent; [by vm_compute|]).
  consistent_parts; intros *; rewrite ?lookup_empty; try done.
  by intros ?%elem_of_nil.
Qed.

(** *** What the analysis leaves of a profile *)

(** During the analysis the profile changes in its list of personas only. *)
Lemma assign_activity ε current p u σ :
  (exists l, a_user σ = set_personas l u) ->
  exists l, a_user (assign StringToNumber ToString ε current p σ).1 = set_personas l u.
Proof.
  intros [l Hl]. unfold assign.
  destruct (userMatchesPersona _ _ _ _) as [[|]|x]; [|eauto..].
  destruct (decide (p_id p ∈ current)); [eauto|].
  destruct (a_segments σ !! p_id p); cbn; rewrite Hl; eauto.
Qed.

Lemma analyzeUserPersona_activity ε uid pa u :
  users pa !! uid = Some u ->
  exists l,
    users (analyzeUserPersona StringToNumber ToString ε uid pa).1 !! uid
      = Some (set_personas l u).
Proof.
  intros Hu. unfold analyzeUserPersona. rewrite Hu.
  pose proof (forEach_invariant (fun σ => exists l, a_user σ = set_personas l u)
    (assign StringToNumber ToString ε (list_to_set (map as_id (personas u))))
    (config_personas pa)
    {| a_user := u; a_segments := segments pa; a_new := ∅ |}) as Hloop.
  destruct (forEach _ _ _) as [σ c]. cbn in Hloop.
  destruct Hloop as [l Hl].
  { exists (personas u). by destruct u. }
  { intros p τ _. apply assign_activity. }
  destruct c as [|x].
  - destruct (revoke _ _ _ _) as [[kept segs] [|x]]; cbn.
    + rewrite lookup_insert_eq, Hl. eauto.
    + rewrite lookup_insert_eq, Hl. eauto.
  - cbn. rewrite lookup_insert_eq, Hl. eauto.
Qed.

Lemma sessionsCounted_create ε uid : sessionsCounted (createUserProfile ε uid).
Proof. reflexivity. Qed.

(** After [updateUserProfile] there is a session in progress, timed up
    to the event; [totalDuration] is the sum over the archived sessions. *)
Lemma updateUserProfile_sessions ε u e :
  let u' := updateUserProfile ε u e in
  exists s',
    currentSession u' = Some s'
    /\ duration s' = ev_timestamp e - startTime s'
    /\ totalDuration (metrics u') = sumDurations (sessions u')
    /\ (sessionsCounted u -> sessionsCounted u').
Proof.
  cbn zeta. unfold updateUserProfile.
  set (u1 := set_lastSeen (ev_timestamp e) u).
  set (u2 := match currentSession u1 with
             | Some s => if isNewSession s e then startNewSession ε u1 e else u1
             | None => startNewSession ε u1 e
             end).
  assert (sessionsCounted u -> is_Some (currentSession u2) -> sessionsCounted u2) as Hcount.
  { unfold u2, u1, sessionsCounted; cbn.
    destruct (currentSession u) as [s|] eqn:Hcur; cbn.
    - destruct (isNewSession s e); cbn; rewrite ?Hcur; cbn; [|done].
      intros Hc _. rewrite Hc, length_app. cbn [length]. lia.
    - intros Hc _. rewrite Hcur, Hc. lia. }
  eexists. split; [reflexivity|]. cbn. split; [reflexivity|].
  split.
  - by destruct (ev_device e); destruct (String.eqb (ev_type e) "pageview").
  - intros Hc. unfold sessionsCounted in *. cbn.
    assert (totalSessions
              match ev_device e with
              | Some dev =>
                  updateDeviceMetrics dev
                    (if String.eqb (ev_type e) "pageview"
                     then updatePageMetrics e (bump (switchOnType e) (metrics u2))
                     else bump (switchOnType e) (metrics u2))
              | None =>
                  if String.eqb (ev_type e) "pageview"
                  then updatePageMetrics e (bump (switchOnType e) (metrics u2))
                  else bump (switchOnType e) (metrics u2)
              end = totalSessions (metrics u2)) as ->.
    { by destruct (ev_device e); destruct (String.eqb (ev_type e) "pageview"). }
    assert (is_Some (currentSession u2)) as Hs.
    { unfold u2, u1; cbn. destruct (currentSession u) as [s|] eqn:Hcur; cbn; [|eauto].
      destruct (isNewSession s e); cbn; rewrite ?Hcur; eauto. }
    specialize (Hcount Hc Hs). destruct Hs as [s Hs]. rewrite Hs in Hcount. done.
Qed.

(** *** The three ways [analyzeUserPersona] ends *)

Lemma analyzeUserPersona_unfold ε uid pa u :
  consistent pa -> users pa !! uid = Some u ->
  let r := forEach (assign StringToNumber ToString ε (list_to_set (map as_id (personas u))))
             (config_personas pa)
             {| a_user := u; a_segments := segments pa; a_new := ∅ |} in
  let σ := r.1 in
  tracks pa uid σ
  /\ match r.2 with
     | Throw x =>
         analyzeUserPersona StringToNumber ToString ε uid pa
         = (set_segments (a_segments σ) (set_users (<[uid := a_user σ]> (users pa)) pa),
            Throw x)
     | Normal =>
         exists segs',
           analyzeUserPersona StringToNumber ToString ε uid pa
           = (updatePersonaMetrics ε
                (set_segments segs'
                   (set_users
                      (<[uid := set_personas
                                  (filter (fun a => as_id a ∈ a_new σ) (personas (a_user σ)))
                                  (a_user σ)]> (users pa)) pa)),
              Normal)
     end.
Proof.
  intros Hc Hu. cbn zeta. unfold analyzeUserPersona. rewrite Hu.
  pose proof (forEach_invariant (tracks pa uid)
    (assign StringToNumber ToString ε (list_to_set (map as_id (personas u))))
    (config_personas pa)
    {| a_user := u; a_segments := segments pa; a_new := ∅ |}
    (tracks_init pa uid u Hc Hu)) as Hloop.
  destruct (forEach _ _ _) as [σ c]. cbn in *.
  assert (tracks pa uid σ) as Hσ.
  { apply Hloop. intros p τ Hp Hτ. apply assign_tracks; [|done]. by apply Hc. }
  split; [done|]. destruct c as [|x]; [|done].
  destruct (revoke_tracks pa uid σ Hσ) as (segs' & Heq & _ & _).
  rewrite Heq. eauto.
Qed.

Lemma listed_member pa uid pid :
  consistent pa -> (listed pa uid pid <-> member pa uid pid).
Proof.
  intros (Hkey & Hknown & [Hcfg Hseg] & Hagree). split.
  - intros (u & Hu & Ha). destruct (Hseg uid u pid Hu Ha) as [seg Hs].
    exists seg. split; [done|]. rewrite <- (Hkey _ _ Hu).
    by apply (Hagree uid u pid seg).
  - intros (seg & Hs & Hin). destruct (Hknown pid seg uid Hs Hin) as [u Hu].
    exists u. split; [done|]. apply (Hagree uid u pid seg Hu Hs).
    by rewrite (Hkey _ _ Hu).
Qed.

(** The set [newPersonas] holds identifiers of personas that the
    profile matches. *)
Lemma assign_new ε current p u σ (Q : string -> Prop) :
  (userMatchesPersona StringToNumber ToString u p = Return true -> Q (p_id p)) ->
  (exists l, a_user σ = set_personas l u) /\ (forall pid, pid ∈ a_new σ -> Q pid) ->
  let σ' := (assign StringToNumber ToString ε current p σ).1 in
  (exists l, a_user σ' = set_personas l u) /\ (forall pid, pid ∈ a_new σ' -> Q pid).
Proof.
  intros HQ [Hl Hnew]. cbn zeta. split; [by apply assign_activity|].
  destruct Hl as [l Hl]. unfold assign. rewrite Hl, userMatchesPersona_set_personas.
  destruct (userMatchesPersona _ _ u p) as [[|]|x]; [|done..].
  assert (forall pid, pid ∈ a_new σ ∪ {[p_id p]} -> Q pid) as Hnew'.
  { intros pid [Hin| ->%elem_of_singleton]%elem_of_union; auto. }
  destruct (decide (p_id p ∈ current)); [done|].
  by destruct (a_segments σ !! p_id p).
Qed.

(** Once a persona is matched and listed, it stays so to the end of the
    loop. *)
Lemma assign_keeps ε current p pid σ :
  pid ∈ a_new σ /\ assigned (a_user σ) pid ->
  let σ' := (assign StringToNumber ToString ε current p σ).1 in
  pid ∈ a_new σ' /\ assigned (a_user σ') pid.
Proof.
  intros [Hnew Ha]. cbn zeta. unfold assign.
  destruct (userMatchesPersona _ _ _ p) as [[|]|x]; [|done..].
  assert (pid ∈ a_new σ ∪ {[p_id p]}) by (apply elem_of_union; by left).
  destruct (decide (p_id p ∈ current)); [done|].
  destruct (a_segments σ !! p_id p); cbn; (split; [done|]);
    apply assigned_push; by left.
Qed.

Lemma assign_first ε p u segs :
  userMatchesPersona StringToNumber ToString u p = Return true ->
  let σ' := (assign StringToNumber ToString ε (list_to_set (map as_id (personas u))) p
               {| a_user := u; a_segments := segs; a_new := ∅ |}).1 in
  p_id p ∈ a_new σ' /\ assigned (a_user σ') (p_id p).
Proof.
  intros Hm. cbn zeta. unfold assign. cbn [a_user]. rewrite Hm. cbn [a_new a_segments].
  assert (p_id p ∈ (∅ : gset string) ∪ {[p_id p]})
    by (apply elem_of_union; right; by apply elem_of_singleton).
  destruct (decide (p_id p ∈ _)) as [Hin|Hout]; cbn.
  - split; [done|]. by apply elem_of_list_to_set in Hin.
  - destruct (segs !! p_id p); cbn; (split; [done|]); apply assigned_push; by right.
Qed.

(** *** The Power User persona *)

Lemma sessionField_current (field : session -> Z) u s :
  currentSession u = Some s -> sessionField field u = vnum (field s).
Proof. unfold sessionField. by intros ->. Qed.

Lemma powerUser_matches u s :
  currentSession u = Some s ->
  pageViews s = 11 -> duration s = 310000 -> clicks s = 55 ->
  userMatchesPersona StringToNumber ToString u powerUser = Return true.
Proof.
  intros Hs Hp Hd Hc. unfold userMatchesPersona, powerUser, evaluateRule. cbn.
  rewrite !(sessionField_current _ u s Hs), Hp, Hd, Hc. reflexivity.
Qed.

Lemma powerUser_fails u s :
  currentSession u = Some s -> clicks s = 10 ->
  userMatchesPersona StringToNumber ToString u powerUser = Return false.
Proof.
  intros Hs Hc. unfold userMatchesPersona, powerUser, evaluateRule. cbn.
  rewrite !(sessionField_current _ u s Hs), Hc. cbn.
  change (inject_Z 50 ?= inject_Z 10)%Q with Gt.
  repeat match goal with
         | |- context [(?a ?= ?b)%Q] => destruct (a ?= b)%Q; cbn
         end; reflexivity.
Qed.

(** The rules of the built-in personas never raise. *)
Lemma defaults_total u p :
  p ∈ config_personas create ->
  exists b, userMatchesPersona StringToNumber ToString u p = Return b.
Proof.
  intros Hp. cbn in Hp.
  repeat (apply elem_of_cons in Hp as [->|Hp]); [..|by apply elem_of_nil in Hp];
    unfold userMatchesPersona, evaluateRule; cbn;
    repeat match goal with
           | |- context [if ?b then _ else _] => destruct b; cbn
           end; eauto.
Qed.

End PersonaFacts.

(** ** The persona analyzer: membership and durations *)

Section PersonaClaims.
Import JS Persona PersonaSpec PersonaExamples.

Implicit Types (pa : PersonaAnalyzer) (u : userProfile) (uid pid : string) (ε : env).

Lemma addUserEvents_consistent StringToNumber ToString l pa :
  consistent pa -> consistent (addUserEvents StringToNumber ToString l pa).
Proof.
  revert pa. induction l as [|[[ε uid] e] l IH]; intros pa Hc; [done|].
  cbn. apply IH. by apply addUserEvent_consistent.
Qed.

(** Every analysis of a constructed analyzer without custom personas
    ends normally. *)
Lemma analyzeUserPersona_defaults_normal StringToNumber ToString ε uid pa u :
  consistent pa -> config_personas pa = config_personas create ->
  users pa !! uid = Some u ->
  (analyzeUserPersona StringToNumber ToString ε uid pa).2 = Normal.
Proof.
  intros Hc Hcfg Hu.
  destruct (analyzeUserPersona_unfold StringToNumber ToString ε uid pa u Hc Hu) as [_ Hr].
  cbn zeta in Hr.
  assert ((forEach (assign StringToNumber ToString ε (list_to_set (map as_id (personas u))))
             (config_personas pa)
             {| a_user := u; a_segments := segments pa; a_new := ∅ |}).2 = Normal) as Hn.
  { apply (forEach_normal (tracks pa uid)); [by apply tracks_init|].
    intros p σ Hp Hσ. split; [|apply assign_tracks; [by apply Hc | done]].
    rewrite Hcfg in Hp. unfold assign.
    destruct (defaults_total StringToNumber ToString (a_user σ) p Hp) as [b ->].
    destruct b; [|done]. destruct (decide _); [done|].
    destruct Hσ as (_ & Hdom & _).
    assert (is_Some (a_segments σ !! p_id p)) as [seg ->]; [|done].
    apply Hdom. apply Hc. by rewrite Hcfg. }
  rewrite Hn in Hr. destruct Hr as [segs' ->]. done.
Qed.

(** C7. In an analyzer with the built-in personas (and any custom ones
    under other identifiers), take a profile whose session in progress
    has 11 page views, lasts 310000 ms and has 55 clicks: the Power User
    persona matches, and after [analyzeUserPersona] the persona is on the
    list of the profile and the user in the membership set of its
    segment. When the session has 10 clicks instead, the persona does not
    match, and an analysis that ends normally - as every analysis does
    when there is no custom persona - leaves the persona off the list and
    the user out of the membership set. *)
Theorem power_user_membership StringToNumber ToString ε pa uid u s custom :
  consistent pa ->
  config_personas pa = (config_personas create ++ custom)%list ->
  (forall p, p ∈ custom -> p_id p <> "power_user") ->
  users pa !! uid = Some u ->
  currentSession u = Some s ->
  let r := analyzeUserPersona StringToNumber ToString ε uid pa in
  (pageViews s = 11 /\ duration s = 310000 /\ clicks s = 55 ->
     userMatchesPersona StringToNumber ToString u powerUser = Return true
     /\ listed r.1 uid "power_user" /\ member r.1 uid "power_user")
  /\ (clicks s = 10 ->
        userMatchesPersona StringToNumber ToString u powerUser = Return false
        /\ (r.2 = Normal ->
              ~ listed r.1 uid "power_user" /\ ~ member r.1 uid "power_user")
        /\ (custom = [] -> r.2 = Normal)).
Proof.
  intros Hc Hcfg Hcustom Hu Hs. cbn zeta.
  pose proof (analyzeUserPersona_consistent StringToNumber ToString ε uid pa Hc) as Hc'.
  destruct (analyzeUserPersona_unfold StringToNumber ToString ε uid pa u Hc Hu) as [_ Hr].
  cbn zeta in Hr.
  assert (exists rest, config_personas pa = powerUser :: rest) as [rest Hrest].
  { rewrite Hcfg. eexists. reflexivity. }
  split.
  - intros (Hp & Hd & Hk).
    pose proof (powerUser_matches StringToNumber ToString u s Hs Hp Hd Hk) as Hm.
    split; [done|].
    assert (listed (analyzeUserPersona StringToNumber ToString ε uid pa).1 uid "power_user")
      as Hl; [|split; [done | by apply listed_member]].
    pose proof (forEach_invariant_cons
      (fun σ => "power_user" ∈ a_new σ /\ assigned (a_user σ) "power_user")
      (assign StringToNumber ToString ε (list_to_set (map as_id (personas u))))
      powerUser rest
      {| a_user := u; a_segments := segments pa; a_new := ∅ |}
      (assign_first StringToNumber ToString ε powerUser u (segments pa) Hm)) as Hloop.
    rewrite <- Hrest in Hloop.
    destruct (forEach _ _ _) as [σ c]. cbn in Hloop, Hr.
    destruct Hloop as [Hnew Ha].
    { intros p τ _. apply assign_keeps. }
    destruct c as [|x].
    + destruct Hr as [segs' ->]. unfold listed. cbn. eexists.
      rewrite lookup_insert_eq. split; [done|]. by apply assigned_filter.
    + rewrite Hr. unfold listed. cbn. eexists. rewrite lookup_insert_eq. by split.
  - intros Hk.
    pose proof (powerUser_fails StringToNumber ToString u s Hs Hk) as Hm.
    split; [done|]. split.
    + intros Hn.
      assert (~ listed (analyzeUserPersona StringToNumber ToString ε uid pa).1 uid
                "power_user") as Hl.
      2:{ split; [done|]. intros Hmem. apply Hl. by apply listed_member. }
      pose proof (forEach_invariant
        (fun σ => (exists l, a_user σ = set_personas l u)
                  /\ forall pid, pid ∈ a_new σ -> pid <> "power_user")
        (assign StringToNumber ToString ε (list_to_set (map as_id (personas u))))
        (config_personas pa)
        {| a_user := u; a_segments := segments pa; a_new := ∅ |}) as Hloop.
      destruct (forEach _ _ _) as [σ c]. cbn in Hloop, Hr.
      destruct Hloop as [_ Hnew].
      { split; [exists (personas u); by destruct u|]. intros pid Hin.
        by apply elem_of_empty in Hin. }
      { intros p τ Hp. apply assign_new. intros Hmp Hid.
        rewrite Hcfg in Hp. apply elem_of_app in Hp as [Hp|Hp].
        - cbn in Hp.
          repeat (apply elem_of_cons in Hp as [->|Hp]);
            [..|by apply elem_of_nil in Hp]; try discriminate Hid.
          fold powerUser in Hmp. congruence.
        - by apply (Hcustom p). }
      destruct c as [|x].
      * destruct Hr as [segs' Hr]. rewrite Hr. unfold listed. cbn.
        intros (u' & Hu' & Ha). rewrite lookup_insert_eq in Hu'.
        inversion Hu'; subst u'. apply assigned_filter in Ha as [_ Ha].
        by apply (Hnew _ Ha).
      * rewrite Hr in Hn. discriminate Hn.
    + intros ->. rewrite app_nil_r in Hcfg.
      by apply (analyzeUserPersona_defaults_normal _ _ ε uid pa u).
Qed.

Lemma engaged_consistent : consistent engaged.
Proof. apply addUserEvents_consistent, create_consistent. Qed.

(** The visitor of the sample visit is a power user, and stays one when
    the analysis runs again. *)
Lemma power_user_membership_witness :
  let r := analyzeUserPersona hostNumber hostString (at_ 311000) "u1" engaged in
  (pageViews (sessionOf engaged) = 11 /\ duration (sessionOf engaged) = 310000
   /\ clicks (sessionOf engaged) = 55 ->
     userMatchesPersona hostNumber hostString (profileOf engaged) powerUser = Return true
     /\ listed r.1 "u1" "power_user" /\ member r.1 "u1" "power_user")
  /\ (clicks (sessionOf engaged) = 10 ->
        userMatchesPersona hostNumber hostString (profileOf engaged) powerUser
        = Return false
        /\ (r.2 = Normal ->
              ~ listed r.1 "u1" "power_user" /\ ~ member r.1 "u1" "power_user")
        /\ (@nil persona = [] -> r.2 = Normal)).
Proof.
  apply (power_user_membership hostNumber hostString (at_ 311000) engaged "u1"
           (profileOf engaged) (sessionOf engaged) []).
  - exact engaged_consistent.
  - vm_compute. reflexivity.
  - intros p Hp. by apply elem_of_nil in Hp.
  - vm_compute. reflexivity.
  - vm_compute. reflexivity.
Defined.

(** The sample visit end to end: a power user after the visit, no longer
    one after ten clicks of a later session. *)
Example power_user_run :
  (pageViews (sessionOf engaged), duration (sessionOf engaged), clicks (sessionOf engaged))
    = (11, 310000, 55)
  /\ isListed engaged "u1" "power_user" = true
  /\ isMember engaged "u1" "power_user" = true
  /\ clicks (sessionOf lapsed) = 10
  /\ isListed lapsed "u1" "power_user" = false
  /\ isMember lapsed "u1" "power_user" = false.
Proof. vm_compute. repeat split. Qed.

(** C9. The list of personas of every profile and the membership sets of
    the segments agree after every [addUserEvent], however the call ends:
    for every user and every persona of the configuration, the persona is
    on the list of the profile exactly when the user is in the set of the
    segment. The analyzer keeps this together with the facts it rests on
    ([consistent]): profiles are stored under their identifier, members
    are users, listed personas have a segment. *)
Theorem persona_membership_agrees StringToNumber ToString ε uid e pa :
  consistent pa ->
  let pa' := (addUserEvent StringToNumber ToString ε uid e pa).1 in
  consistent pa'
  /\ forall k u p,
       users pa' !! k = Some u -> p ∈ config_personas pa' ->
       exists seg, segments pa' !! p_id p = Some seg
         /\ (p_id p ∈ map as_id (personas u) <-> u_id u ∈ seg_users seg).
Proof.
  intros Hc. cbn zeta.
  pose proof (addUserEvent_consistent StringToNumber ToString ε uid e pa Hc) as Hc'.
  split; [done|]. intros k u p Hk Hp.
  destruct Hc' as (_ & _ & [Hcfg _] & Hagree).
  destruct (Hcfg p Hp) as [seg Hseg]. exists seg. split; [done|].
  by apply (Hagree k u (p_id p) seg).
Qed.

Lemma persona_membership_agrees_witness :
  let pa' := (addUserEvent hostNumber hostString (click 1).1.1 "u1" (click 1).2 create).1 in
  consistent pa'
  /\ forall k u p,
       users pa' !! k = Some u -> p ∈ config_personas pa' ->
       exists seg, segments pa' !! p_id p = Some seg
         /\ (p_id p ∈ map as_id (personas u) <-> u_id u ∈ seg_users seg).
Proof.
  apply (persona_membership_agrees hostNumber hostString (click 1).1.1 "u1" (click 1).2
           create).
  exact create_consistent.
Defined.

Lemma getUserMetric_sessionDuration_all u :
  getUserMetric u "sessionDuration" None
  = VNum (div (num (totalDuration (metrics u))) (num (totalSessions (metrics u)))).
Proof. reflexivity. Qed.

(** The [reduce] of the code computes the sum of the durations. *)
Lemma sumDurations_from (l : list session) (acc : Z) :
  fold_left (fun total s => total + duration s) l acc = acc + archivedDuration l.
Proof.
  revert acc. induction l as [|s l IH]; intros acc; cbn [fold_left archivedDuration].
  - lia.
  - rewrite IH. lia.
Qed.

Lemma sumDurations_archivedDuration (l : list session) :
  sumDurations l = archivedDuration l.
Proof. unfold sumDurations. rewrite sumDurations_from. lia. Qed.

Lemma archivedDuration_snoc (l : list session) (s : session) :
  archivedDuration (l ++ [s]) = archivedDuration l + duration s.
Proof. induction l as [|x l IH]; cbn [app archivedDuration]; lia. Qed.

(** C10. After [addUserEvent], however it ends, the profile has a
    session in progress whose duration runs up to the event, and
    [totalDuration] is the sum of the durations of the archived sessions
    only: the sum over all the sessions, the one in progress included, is
    [totalDuration] plus the duration of the session in progress. When
    the sessions of the profile were counted right before, they still
    are: [totalSessions] is the number of archived sessions plus one, so
    that the all-time session duration divides the archived total by a
    number that counts the session in progress. *)
Theorem totalDuration_archived_only StringToNumber ToString ε uid e pa :
  (forall u, users pa !! uid = Some u -> sessionsCounted u) ->
  exists u' s',
    users (addUserEvent StringToNumber ToString ε uid e pa).1 !! uid = Some u'
    /\ currentSession u' = Some s'
    /\ duration s' = ev_timestamp e - startTime s'
    /\ totalDuration (metrics u') = archivedDuration (sessions u')
    /\ archivedDuration (sessions u' ++ [s']) = totalDuration (metrics u') + duration s'
    /\ totalSessions (metrics u') = Z.of_nat (length (sessions u')) + 1
    /\ getUserMetric u' "sessionDuration" None
       = VNum (div (num (archivedDuration (sessions u')))
                   (num (Z.of_nat (length (sessions u')) + 1))).
Proof.
  intros Hcounted. unfold addUserEvent.
  set (u0 := default (createUserProfile ε uid) (users pa !! uid)).
  assert (sessionsCounted u0) as H0.
  { unfold u0. destruct (users pa !! uid) as [u|] eqn:Hu; cbn; [by apply Hcounted|].
    apply sessionsCounted_create. }
  destruct (updateUserProfile_sessions ε u0 e) as (s' & Hs & Hd & Ht & Hk).
  specialize (Hk H0). rewrite sumDurations_archivedDuration in Ht.
  destruct (analyzeUserPersona_activity StringToNumber ToString ε uid
              (set_users (<[uid := updateUserProfile ε u0 e]> (users pa)) pa)
              (updateUserProfile ε u0 e)) as [l Hl].
  { cbn. apply lookup_insert_eq. }
  exists (set_personas l (updateUserProfile ε u0 e)), s'.
  split; [exact Hl|]. cbn [set_personas currentSession metrics sessions].
  unfold sessionsCounted in Hk. rewrite Hs in Hk.
  split; [done|]. split; [done|]. split; [done|].
  split; [by rewrite archivedDuration_snoc, Ht|]. split; [done|].
  rewrite getUserMetric_sessionDuration_all.
  cbn [set_personas currentSession metrics sessions]. by rewrite Ht, Hk.
Qed.

(** The second session of the sample visitor: the archived visit of
    310000 ms is the whole of [totalDuration], the session in progress
    (9 ms so far) is left out, and two sessions are counted, so that the
    all-time session duration is 310000 / 2. *)
Lemma totalDuration_archived_only_witness :
  exists u' s',
    users (addUserEvent hostNumber hostString (click 3000009).1.1 "u1" (click 3000009).2
             lapsed).1 !! "u1" = Some u'
    /\ (map duration (sessions u'), duration s') = ([310000], 9)
    /\ totalDuration (metrics u') = 310000
    /\ getUserMetric u' "sessionDuration" None = VNum (div (num 310000) (num 2))
    /\ currentSession u' = Some s'
    /\ duration s' = 3000009 - startTime s'
    /\ totalDuration (metrics u') = archivedDuration (sessions u')
    /\ archivedDuration (sessions u' ++ [s']) = totalDuration (metrics u') + duration s'
    /\ totalSessions (metrics u') = Z.of_nat (length (sessions u')) + 1
    /\ getUserMetric u' "sessionDuration" None
       = VNum (div (num (archivedDuration (sessions u')))
                   (num (Z.of_nat (length (sessions u')) + 1))).
Proof.
  destruct (totalDuration_archived_only hostNumber hostString (click 3000009).1.1 "u1"
              (click 3000009).2 lapsed) as (u' & s' & Hu & Hs & Hrest).
  { intros u Hu. vm_compute in Hu. inversion Hu; subst u. reflexivity. }
  exists u', s'. split; [exact Hu|].
  vm_compute in Hu. injection Hu as <-.
  vm_compute in Hs. injection Hs as <-.
  split; [reflexivity|]. split; [reflexivity|]. split; [reflexivity|].
  split; [reflexivity|]. exact Hrest.
Defined.

Example totalDuration_run :
  let u := profileOf lapsed in
  (totalDuration (metrics u), map duration (sessions u), duration (sessionOf lapsed),
   totalSessions (metrics u))
  = (310000, [310000], 9, 2).
Proof. vm_compute. reflexivity. Qed.

End PersonaClaims.

(** ** Malformed steps and rules *)

Section MatchingClaims.
Import JS.

(** The selector test never raises: a missing element counts as no match. *)
Lemma elementMatchesSelector_missing selector :
  Funnel.elementMatchesSelector None selector = false.
Proof. reflexivity. Qed.

(** An operator that is not recognised makes the rule false. *)
Lemma evaluateRule_unknown_operator StringToNumber ToString u r :
  Persona.operator r ∉ [">"; "<"; ">="; "<="; "="; "!="; "between"; "in"] ->
  Persona.evaluateRule StringToNumber ToString u r = Return false.
Proof.
  intros Hop. unfold Persona.evaluateRule.
  repeat match goal with
         | |- context [String.eqb (Persona.operator r) ?s] =>
             destruct (String.eqb_spec (Persona.operator r) s) as [Heq|_];
             [exfalso; apply Hop; rewrite Heq; set_solver|]
         end.
  reflexivity.
Qed.

(** C8 on the code: matching can raise.
    - A step whose URL pattern contains [*] and is rejected by the RegExp
      constructor makes [eventMatchesStep] raise a SyntaxError on every
      page view with a URL ([urlMatches] has no [try], unlike
      [elementMatchesSelector]); the exception leaves [addEvent].
    - [evaluateRule] raises a TypeError on an ["in"] rule whose operand
      is a number or a boolean, and on a ["between"] or ["in"] rule
      whose operand is undefined or null. *)
Theorem matching_raises RegExp (e : Funnel.event) (s : Funnel.step) stepUrl eventUrl :
  truthy (Funnel.st_url s) = Some stepUrl ->
  includes stepUrl "*" = true ->
  RegExp (starToDotStar stepUrl) = None ->
  Funnel.ev_type e = "pageview" ->
  truthy (Funnel.ev_url e) = Some eventUrl ->
  Funnel.eventMatchesStep RegExp e s = Raise SyntaxError
  /\ (forall f registered i σ,
        Funnel.checkStep RegExp f registered e s i σ = (σ, Throw SyntaxError))
  /\ (forall StringToNumber ToString u m tf op v,
        op = "in" /\ (v = VUndefined \/ v = VNull \/ (exists n, v = VNum n)
                      \/ exists b, v = VBool b)
        \/ op = "between" /\ (v = VUndefined \/ v = VNull) ->
        Persona.evaluateRule StringToNumber ToString u
          {| Persona.metric := m; Persona.operator := op; Persona.value := v;
             Persona.timeframe := tf |}
        = Raise TypeError).
Proof.
  intros Hs Hstar Hre He Hu.
  assert (Funnel.eventMatchesStep RegExp e s = Raise SyntaxError) as Hm.
  { unfold Funnel.eventMatchesStep. rewrite Hs, He, Hu. cbn.
    unfold Funnel.urlMatches. by rewrite Hstar, Hre. }
  split; [done|]. split.
  - intros f registered i σ. unfold Funnel.checkStep. by rewrite Hm.
  - intros StringToNumber ToString u m tf op v
      [[-> Hv]|[-> Hv]]; unfold Persona.evaluateRule; cbn.
    + by destruct Hv as [-> | [-> | [[n ->] | [b ->]]]].
    + by destruct Hv as [-> | ->].
Qed.

(** The first step of the funnel [promo] has a URL pattern with an open
    parenthesis before its star: the pattern handed to the constructor
    has an unbalanced parenthesis and is rejected. *)
Lemma matching_raises_witness :
  let e := Funnel.tag FunnelExamples.tab (FunnelExamples.pageview "http://x/thanks" 5) in
  let s := Funnel.mkStep 0 (FunnelExamples.onUrl "/promo(*") in
  Funnel.eventMatchesStep FunnelExamples.globRegExp e s = Raise SyntaxError
  /\ (forall f registered i σ,
        Funnel.checkStep FunnelExamples.globRegExp f registered e s i σ
        = (σ, Throw SyntaxError))
  /\ (forall StringToNumber ToString u m tf op v,
        op = "in" /\ (v = VUndefined \/ v = VNull \/ (exists n, v = VNum n)
                      \/ exists b, v = VBool b)
        \/ op = "between" /\ (v = VUndefined \/ v = VNull) ->
        Persona.evaluateRule StringToNumber ToString u
          {| Persona.metric := m; Persona.operator := op; Persona.value := v;
             Persona.timeframe := tf |}
        = Raise TypeError).
Proof.
  apply (matching_raises FunnelExamples.globRegExp _ _ "/promo(*" "http://x/thanks");
    reflexivity.
Defined.

(** The exception leaves [addEvent]: the page view is not counted by the
    funnel [thanks], which is defined after [promo] and would match it. *)
Example broken_funnel_run :
  let r := Funnel.addEvent FunnelExamples.globRegExp FunnelExamples.tab
             (FunnelExamples.pageview "http://x/thanks" 5) FunnelExamples.broken in
  r.2 = Throw SyntaxError
  /\ FunnelExamples.reachedOf "thanks" r.1 = [0]
  /\ FunnelExamples.currentStepOf "thanks" "s1" r.1 = None.
Proof. vm_compute. repeat split. Qed.

End MatchingClaims.

(** * Properties of the delivery queues *)

Section TrackerFacts.
Import Tracker.

Implicit Types (t : tracker) (e : event) (i : input) (rq : request).

Lemma run_app t l1 l2 :
  run t (l1 ++ l2) =
    let '(t1, out1) := run t l1 in
    let '(t2, out2) := run t1 l2 in (t2, (out1 ++ out2)%list).
Proof.
  revert t. induction l1 as [|i l1 IH]; intros t; cbn.
  - by destruct (run t l2).
  - destruct (step t i) as [t1 o1]. rewrite IH.
    destruct (run t1 l1) as [t2 o2]. destruct (run t2 l2) as [t3 o3].
    by rewrite app_assoc.
Qed.

Lemma sendEvents_events b t : events (sendEvents b t).1 = events t.
Proof. unfold sendEvents. by destruct (events t) eqn:He. Qed.

(** A request carries the buffer as it is when the request is issued. *)
Lemma sendEvents_batch b t rq :
  rq ∈ (sendEvents b t).2 -> rq_events rq = events t.
Proof.
  unfold sendEvents. destruct (events t) eqn:He; cbn.
  - by intros ?%elem_of_nil.
  - intros ->%list_elem_of_singleton. done.
Qed.

Lemma step_batch t i rq :
  rq ∈ (step t i).2 -> rq_events rq = events (step t i).1.
Proof.
  destruct i as [e| | |id r]; cbn.
  - unfold addEvent. destruct (10 <=? _)%nat.
    + intros Hrq. rewrite sendEvents_events. by apply sendEvents_batch in Hrq.
    + by intros ?%elem_of_nil.
  - unfold tick. destruct (0 <? _)%nat.
    + intros Hrq. rewrite sendEvents_events. by apply sendEvents_batch in Hrq.
    + by intros ?%elem_of_nil.
  - intros Hrq. rewrite sendEvents_events. by apply sendEvents_batch in Hrq.
  - unfold respond. destruct (find _ _); [destruct r|]; by intros ?%elem_of_nil.
Qed.



End TrackerFacts.

Section AnalyticsFacts.
Import Analytics DeliverySpec.

Implicit Types (a : analytics) (e : event) (i : input) (rq : request) (k : task).

Lemma analytics_run_app a l1 l2 :
  run a (l1 ++ l2) =
    let '(a1, out1) := run a l1 in
    let '(a2, out2) := run a1 l2 in (a2, (out1 ++ out2)%list).
Proof.
  revert a. induction l1 as [|i l1 IH]; intros a; cbn.
  - by destruct (run a l2).
  - destruct (step a i) as [a1 o1]. rewrite IH.
    destruct (run a1 l1) as [a2 o2]. destruct (run a2 l2) as [a3 o3].
    by rewrite app_assoc.
Qed.

(** The task taken is one of the list, and the rest are the others. *)
Lemma take_Some {A} (f : task -> option A) (l : list task) x rest :
  take f l = Some (x, rest) ->
  exists l1 k l2, l = (l1 ++ k :: l2)%list /\ f k = Some x /\ rest = (l1 ++ l2)%list.
Proof.
  revert rest. induction l as [|k l IH]; intros rest; cbn; [done|].
  destruct (f k) as [y|] eqn:Hk.
  - intros [= <- <-]. by exists [], k, l.
  - destruct (take f l) as [[y rest']|]; [|done]. intros [= <- <-].
    destruct (IH rest' eq_refl) as (l1 & k' & l2 & -> & Hk' & ->).
    by exists (k :: l1), k', l2.
Qed.


Lemma take_elem {A} (f : task -> option A) (l : list task) x rest :
  take f l = Some (x, rest) -> exists k, k ∈ l /\ f k = Some x.
Proof.
  intros (l1 & k & l2 & -> & Hk & _)%take_Some. exists k. split; [|done].
  apply elem_of_app. right. by left.
Qed.


Lemma sendEvents_no_events_request b a rq :
  rq ∈ (sendEvents b a).2 -> isEventsRequest rq = false.
Proof.
  unfold sendEvents, ensureSession. destruct (events a); cbn; [by intros ?%elem_of_nil|].
  destruct (sessionCreated a); cbn; [by intros ?%elem_of_nil|].
  by intros ->%list_elem_of_singleton.
Qed.

(** An event request is issued by the continuation of [sendEvents] after
    [ensureSession]: when the answer to its own session request arrives,
    or in the microtask that follows an [ensureSession] that found the
    session created. It carries the session identifier and the buffer of
    that moment. *)
Lemma step_events_request a i id sid batch b :
  EventsRequest id sid batch b ∈ (step a i).2 ->
  (settles a i \/ (i = Microtask /\ is_Some (take isResume (tasks a))))
  /\ sid = sessionId (session (step a i).1)
  /\ batch = events (step a i).1.
Proof.
  destruct i as [e| | |sidr r|eid r]; cbn.
  - unfold addEvent. destruct (5 <=? _)%nat; [|by intros ?%elem_of_nil].
    by intros ?%sendEvents_no_events_request.
  - by intros ?%sendEvents_no_events_request.
  - destruct (take isResume (tasks a)) as [[b' rest]|] eqn:Ht; cbn;
      [|by intros ?%elem_of_nil].
    intros [= -> -> -> ->]%list_elem_of_singleton. split; [|done].
    right. split; [done|]. eauto.
  - destruct (take (isAwaitSession sidr) (tasks a)) as [[b' rest]|] eqn:Ht; cbn;
      [|by intros ?%elem_of_nil].
    intros [= -> -> -> ->]%list_elem_of_singleton. split; [|done].
    left. exists sidr, r. split; [done|]. rewrite Ht. eauto.
  - destruct (take _ (tasks a)) as [[u rest]|]; [destruct r|];
      by intros ?%elem_of_nil.
Qed.














(** Once the session is created and no session request is in flight, no
    answer brings a new identifier. *)
Lemma established_not_adopts a i : established a -> ~ adopts a i.
Proof.
  intros [_ Hk] (id & x & -> & _ & [[b rest] Ht]).
  apply take_elem in Ht as (k & Hin & Hm). specialize (Hk k Hin).
  destruct k as [id' b'| |]; cbn in Hm, Hk; done.
Qed.

End AnalyticsFacts.

(** ** The delivery queues: what a flush sends and what it clears *)

Section DeliveryClaims.
Import DeliveryExamples DeliverySpec.

(** C2 on the code: events enqueued while a flush is in flight are lost.
    The continuation of [sendEvents] empties the buffer, not the batch it
    sent.
    - Tracker: the answer to a request in flight, when it is a success,
      leaves the buffer empty whatever the buffer held. After [e1], a
      timer flush, [e2] and the success of the flush, the buffer is
      empty and the one request issued carried [e1] alone.
    - StandLogAnalytics: the same for every settled event request. Of
      seven events, with two flushes in flight, the first five are sent
      twice and the seventh is dropped unsent. *)
Theorem flush_clears_events_in_flight :
  (forall t id rq,
     rq ∈ Tracker.inflight t -> Tracker.rq_id rq = id ->
     Tracker.events (Tracker.respond id Tracker.Ok t).1 = [])
  /\ (forall key sid uid e1 e2,
        let t0 := Tracker.create key sid uid in
        let r := Tracker.run t0
                   [Tracker.AddEvent e1; Tracker.Tick; Tracker.AddEvent e2;
                    Tracker.Response 0 Tracker.Ok] in
        Tracker.events r.1 = []
        /\ r.2 = [{| Tracker.rq_id := 0; Tracker.rq_events := [Tracker.tag t0 e1];
                     Tracker.rq_keepalive := false |}])
  /\ (forall a id ok rest,
        Analytics.take (fun k => if Analytics.isAwaitEvents id k then Some tt else None)
          (Analytics.tasks a) = Some (tt, rest) ->
        Analytics.events (Analytics.step a (Analytics.EventsAnswer id (Analytics.Settled ok))).1
        = [])
  /\ (forall s e1 e2 e3 e4 e5 e6 e7,
        let r := Analytics.run (Analytics.create s)
                   [Analytics.AddEvent e1; Analytics.AddEvent e2; Analytics.AddEvent e3;
                    Analytics.AddEvent e4; Analytics.AddEvent e5;
                    Analytics.SessionAnswer 0 (Analytics.SessionOk None);
                    Analytics.AddEvent e6; Analytics.Microtask;
                    Analytics.EventsAnswer 1 (Analytics.Settled true);
                    Analytics.AddEvent e7;
                    Analytics.EventsAnswer 2 (Analytics.Settled true)] in
        Analytics.events r.1 = []
        /\ r.2 = [Analytics.SessionRequest 0 (Analytics.anonymousId s);
                  Analytics.EventsRequest 1 (Analytics.sessionId s) [e1; e2; e3; e4; e5] false;
                  Analytics.EventsRequest 2 (Analytics.sessionId s)
                    [e1; e2; e3; e4; e5; e6] false]).
Proof.
  split; [|split; [|split]].
  - intros t id rq Hin Hid. unfold Tracker.respond.
    destruct (find _ _) eqn:Hf; [done|].
    apply list_elem_of_In in Hin. apply (find_none _ _ Hf rq) in Hin.
    rewrite Hid, Nat.eqb_refl in Hin. done.
  - intros. split; reflexivity.
  - intros a id ok rest Ht. cbn. by rewrite Ht.
  - intros. split; reflexivity.
Qed.




(** Ten events, spelled out. *)
Lemma length_10 {A} (l : list A) :
  length l = 10%nat -> exists x1 x2 x3 x4 x5 x6 x7 x8 x9 x10,
    l = [x1; x2; x3; x4; x5; x6; x7; x8; x9; x10].
Proof.
  do 10 (destruct l as [|? l]; [discriminate|]).
  destruct l; [|discriminate]. intros _. by repeat eexists.
Qed.

Lemma length_9 {A} (l : list A) :
  length l = 9%nat -> exists x1 x2 x3 x4 x5 x6 x7 x8 x9,
    l = [x1; x2; x3; x4; x5; x6; x7; x8; x9].
Proof.
  do 9 (destruct l as [|? l]; [discriminate|]).
  destruct l; [|discriminate]. intros _. by repeat eexists.
Qed.

Lemma length_5 {A} (l : list A) :
  length l = 5%nat -> exists x1 x2 x3 x4 x5, l = [x1; x2; x3; x4; x5].
Proof.
  do 5 (destruct l as [|? l]; [discriminate|]).
  destruct l; [|discriminate]. intros _. by repeat eexists.
Qed.

(** C4 (as the code has it).
    - Tracker: [addEvent] starts a flush exactly when the buffer, the
      new event included, holds 10 events or more. Ten events enqueued on
      an empty buffer produce exactly one request, whose batch is those
      ten events as tagged; the buffer still holds them while the request
      is in flight and is empty once the request has succeeded. Nine
      events produce no request until the interval timer fires, which
      produces exactly one request with those nine.
    - StandLogAnalytics: the threshold is 5 and there is no interval
      timer. With the session created and nothing in flight, five events
      enqueued on an empty buffer produce, in the microtask that follows,
      exactly one event request with those five events, which stay
      buffered until the request is answered. *)
Theorem flush_threshold :
  (forall t e,
     (Tracker.addEvent e t).2 <> [] <-> (10 <= length (Tracker.events t) + 1)%nat)
  /\ (forall t l,
        Tracker.events t = [] -> length l = 10%nat ->
        let r := Tracker.run t (map Tracker.AddEvent l) in
        r.2 = [{| Tracker.rq_id := Tracker.nextRequest t;
                  Tracker.rq_events := map (Tracker.tag t) l;
                  Tracker.rq_keepalive := false |}]
        /\ Tracker.events r.1 = map (Tracker.tag t) l
        /\ Tracker.events (Tracker.respond (Tracker.nextRequest t) Tracker.Ok r.1).1 = [])
  /\ (forall t l,
        Tracker.events t = [] -> length l = 9%nat ->
        (Tracker.run t (map Tracker.AddEvent l)).2 = []
        /\ (Tracker.run t (map Tracker.AddEvent l ++ [Tracker.Tick])).2
           = [{| Tracker.rq_id := Tracker.nextRequest t;
                 Tracker.rq_events := map (Tracker.tag t) l;
                 Tracker.rq_keepalive := false |}])
  /\ (forall a e,
        (5 <= length (Analytics.events a) + 1)%nat ->
        Analytics.addEvent e a
        = Analytics.sendEvents false
            (Analytics.set_events (Analytics.events a ++ [e]) a))
  /\ (forall a e,
        (length (Analytics.events a) + 1 < 5)%nat ->
        Analytics.addEvent e a
        = (Analytics.set_events (Analytics.events a ++ [e]) a, []))
  /\ (forall a l,
        Analytics.events a = [] -> Analytics.tasks a = [] ->
        Analytics.sessionCreated a = true -> length l = 5%nat ->
        let r := Analytics.run a (map Analytics.AddEvent l ++ [Analytics.Microtask]) in
        r.2 = [Analytics.EventsRequest (Analytics.nextRequest a)
                 (Analytics.sessionId (Analytics.session a)) l false]
        /\ Analytics.events r.1 = l).
Proof.
  split; [|split; [|split; [|split; [|split]]]].
  - intros t e. unfold Tracker.addEvent.
    cbn [Tracker.events Tracker.set_events]. rewrite length_app. cbn [length].
    destruct (Nat.leb_spec 10 (length (Tracker.events t) + 1)) as [Hle|Hlt].
    + split; [done|]. intros _. unfold Tracker.sendEvents.
      cbn [Tracker.events Tracker.set_events].
      destruct (Tracker.events t ++ _)%list eqn:He; [|done].
      by apply app_eq_nil in He as [_ ?].
    + split; [done | lia].
  - intros t l He Hl. apply length_10 in Hl as (x1&x2&x3&x4&x5&x6&x7&x8&x9&x10&->).
    destruct t as [k s u evs fl n]. cbn in He. subst evs. cbn.
    repeat split. unfold Tracker.respond. cbn.
    destruct (find _ _) eqn:Hf; [done|].
    pose proof (find_none _ _ Hf
      {| Tracker.rq_id := n;
         Tracker.rq_events := map (Tracker.tag (Tracker.Build_tracker k s u [] fl n))
                                [x1; x2; x3; x4; x5; x6; x7; x8; x9; x10];
         Tracker.rq_keepalive := false |}) as Hn.
    cbn in Hn. rewrite Nat.eqb_refl in Hn. discriminate Hn.
    apply in_or_app. right. by left.
  - intros t l He Hl. apply length_9 in Hl as (x1&x2&x3&x4&x5&x6&x7&x8&x9&->).
    destruct t as [k s u evs fl n]. cbn in He. subst evs. by cbn.
  - intros a e Hle. unfold Analytics.addEvent.
    cbn [Analytics.events Analytics.set_events]. rewrite length_app. cbn [length].
    by destruct (Nat.leb_spec 5 (length (Analytics.events a) + 1)); [|lia].
  - intros a e Hlt. unfold Analytics.addEvent.
    cbn [Analytics.events Analytics.set_events]. rewrite length_app. cbn [length].
    by destruct (Nat.leb_spec 5 (length (Analytics.events a) + 1)); [lia|].
  - intros a l He Ht Hc Hl. apply length_5 in Hl as (x1&x2&x3&x4&x5&->).
    destruct a as [s evs c ts n]. cbn in He, Ht, Hc. subst evs ts c. by cbn.
Qed.

(** C4 fails on the code in two places: right after the tenth event the
    buffer of the tracker still holds the ten events (it is emptied when
    the request succeeds), and StandLogAnalytics starts its flush at the
    fifth event. *)
Lemma flush_threshold_counterexample :
  let t := (Tracker.run tracker0 (map (fun n => Tracker.AddEvent (hit n)) [1;2;3;4;5;6;7;8;9;10])).1 in
  let r := Analytics.run analytics0 (map (fun n => Analytics.AddEvent (shot n)) [1;2;3;4;5]) in
  Tracker.events t = map tagged [1;2;3;4;5;6;7;8;9;10]
  /\ length (Tracker.inflight t) = 1%nat
  /\ r.2 = [Analytics.SessionRequest 0 "a"].
Proof. cbn. repeat split. Qed.

(** Ten clicks on the new tracker. *)
Lemma flush_threshold_witness :
  let l := map hit [1; 2; 3; 4; 5; 6; 7; 8; 9; 10] in
  let r := Tracker.run tracker0 (map Tracker.AddEvent l) in
  r.2 = [{| Tracker.rq_id := 0; Tracker.rq_events := map tagged [1; 2; 3; 4; 5; 6; 7; 8; 9; 10];
            Tracker.rq_keepalive := false |}]
  /\ Tracker.events r.1 = map tagged [1; 2; 3; 4; 5; 6; 7; 8; 9; 10]
  /\ Tracker.events (Tracker.respond 0 Tracker.Ok r.1).1 = [].
Proof.
  apply (proj1 (proj2 flush_threshold) tracker0 (map hit [1; 2; 3; 4; 5; 6; 7; 8; 9; 10]));
    reflexivity.
Defined.






End DeliveryClaims.

(** * Registered funnels: analysis without exceptions *)

Section LoopEnds.
Import JS.
Context {A St : Type}.

(** An indexed loop whose rounds all end normally ends normally. *)
Lemma forEachFrom_normal (P : St -> Prop) (f : A -> nat -> St -> St * completion)
    (l : list A) (i : nat) (s : St) :
  P s ->
  (forall j x s, l !! j = Some x -> P s ->
     (f x (i + j)%nat s).2 = Normal /\ P (f x (i + j)%nat s).1) ->
  (forEachFrom f i l s).2 = Normal.
Proof.
  revert i s. induction l as [|x l IH]; intros i s Hs Hf; [done|].
  cbn [forEachFrom].
  destruct (Hf 0%nat x s eq_refl Hs) as [Hn Hx]. rewrite Nat.add_0_r in Hn, Hx.
  destruct (f x i s) as [s' c]. cbn in *. subst c.
  apply IH; [done|].
  intros j y t Hj Ht. replace (S i + j)%nat with (i + S j)%nat by lia.
  by apply Hf.
Qed.

Lemma forEachi_normal (P : St -> Prop) (f : A -> nat -> St -> St * completion)
    (l : list A) (s : St) :
  P s ->
  (forall j x s, l !! j = Some x -> P s -> (f x j s).2 = Normal /\ P (f x j s).1) ->
  (forEachi f l s).2 = Normal.
Proof.
  intros Hs Hf. unfold forEachi.
  apply (forEachFrom_normal P f l 0%nat s Hs). intros j x t. apply Hf.
Qed.

(** A loop one round of which cannot end normally does not end normally. *)
Lemma forEach_throws (P : St -> Prop) (f : A -> St -> St * completion)
    (l : list A) (s : St) (x0 : A) :
  x0 ∈ l -> P s ->
  (forall x s, x ∈ l -> P s -> P (f x s).1) ->
  (forall s, P s -> (f x0 s).2 <> Normal) ->
  (forEach f l s).2 <> Normal.
Proof.
  revert s. induction l as [|x l IH]; intros s Hin Hs Hf Hx0.
  - by apply elem_of_nil in Hin.
  - cbn [forEach].
    pose proof (Hf x s ltac:(left) Hs) as Hx.
    apply elem_of_cons in Hin as [->|Hin].
    + specialize (Hx0 s Hs). by destruct (f x s) as [s' [|err]].
    + destruct (f x s) as [s' [|err]]; [|done].
      apply IH; [done..| |done]. intros y t Hy. apply Hf. by right.
Qed.

End LoopEnds.

Section FunnelRunsFacts.
Import JS Funnel FunnelSpec FunnelRuns.

Variable RegExp : string -> option (string -> bool).

Implicit Types (f : funnel) (e : event) (σ : fstate) (i : nat) (s : session)
  (fd : funnelDataEntry) (fa : FunnelAnalyzer).

Lemma selectorClause_returns e (st : step) : exists b, selectorClause e st = Return b.
Proof.
  unfold selectorClause. destruct (truthy (st_selector st)); [|by eexists].
  destruct (String.eqb _ _); by eexists.
Qed.

Lemma eventClause_returns e (st : step) : exists b, eventClause e st = Return b.
Proof.
  unfold eventClause. destruct (truthy (st_event st)); [|apply selectorClause_returns].
  destruct (_ && _); [by eexists|].
  destruct (String.eqb _ _); [by eexists|apply selectorClause_returns].
Qed.

(** A step whose URL pattern the host accepts is matched without an
    exception. *)
Lemma eventMatchesStep_returns e (st : step) :
  (forall u, truthy (st_url st) = Some u -> includes u "*" = true ->
     is_Some (RegExp (starToDotStar u))) ->
  exists b, eventMatchesStep RegExp e st = Return b.
Proof.
  intros Hcomp. unfold eventMatchesStep.
  destruct (truthy (st_url st)) as [u|]; [|apply eventClause_returns].
  destruct (String.eqb _ _); [|apply eventClause_returns].
  destruct (truthy (ev_url e)) as [eventUrl|]; [|apply eventClause_returns].
  unfold urlMatches. destruct (includes u "*") eqn:Hstar; [|by eexists].
  destruct (Hcomp u eq_refl Hstar) as [test ->]. by eexists.
Qed.

Lemma updateFunnelStats_length (registered : funnel) i (st : funnelStats) :
  length (stat_steps (updateFunnelStats registered i st).1) = length (stat_steps st).
Proof.
  unfold updateFunnelStats. destruct (stat_steps st !! i) as [cur|]; [|done].
  assert (forall l2 : list stepStats,
            length l2 = length (stat_steps st) ->
            length (match i with
                    | O => l2
                    | S j => match l2 !! j with
                             | Some previousStep =>
                                 <[i := set_conversionFromPrevious
                                          (percent (reached (set_reached (reached cur + 1) cur))
                                             (reached previousStep))
                                          (set_reached (reached cur + 1) cur)]> l2
                             | None => l2
                             end
                    end) = length (stat_steps st)) as Hlen.
  { intros l2 Hl2. destruct i as [|j]; [done|].
    destruct (l2 !! j); [|done]. by rewrite length_insert. }
  destruct (_ =? _)%Z; cbn; apply Hlen; by rewrite length_insert.
Qed.

Lemma updateFunnelStats_normal (registered : funnel) i (st : funnelStats) :
  (i < length (stat_steps st))%nat ->
  (updateFunnelStats registered i st).2 = Normal.
Proof.
  intros Hi. unfold updateFunnelStats.
  destruct (lookup_lt_is_Some_2 _ _ Hi) as [cur ->].
  by destruct (_ =? _)%Z.
Qed.

Lemma finished_advance f i e s :
  finished f (advance i e s)
  <-> finished f s \/ Z.of_nat i = Z.of_nat (length (steps f)) - 1.
Proof.
  unfold finished, advance; cbn. split.
  - intros (c & Hc & Hlast). apply elem_of_app in Hc as [Hc|Hc].
    + left. by exists c.
    + apply list_elem_of_singleton in Hc. subst c. by right.
  - intros [(c & Hc & Hlast)|Hlast].
    + exists c. split; [|done]. apply elem_of_app. by left.
    + eexists. split; [apply elem_of_app; right; by apply list_elem_of_singleton|done].
Qed.

(** The state of the loop of [checkFunnelStep] on a registered funnel. *)
Lemma processStepCompletion_sound f i e σ :
  (i < length (steps f))%nat ->
  length (stat_steps (fs_stats σ)) = length (steps f) ->
  sound f (fs_session σ) ->
  (processStepCompletion f f i e σ).2 = Normal
  /\ length (stat_steps (fs_stats (processStepCompletion f f i e σ).1)) = length (steps f)
  /\ sound f (fs_session (processStepCompletion f f i e σ).1).
Proof.
  intros Hi Hlen [Hbound Hstatus]. unfold processStepCompletion.
  destruct (Z.eqb_spec (Z.of_nat i) (currentStep (fs_session σ) + 1)) as [Heq|Hne].
  - pose proof (updateFunnelStats_normal f i (fs_stats σ) ltac:(lia)) as Hn.
    pose proof (updateFunnelStats_length f i (fs_stats σ)) as Hl.
    destruct (updateFunnelStats f i (fs_stats σ)) as [st' c]. cbn in Hn, Hl. subst c.
    destruct (Z.eqb_spec (Z.of_nat i) (Z.of_nat (length (steps f)) - 1)) as [Hlast|Hnot];
      cbn.
    + split; [done|]. split; [congruence|]. split; [cbn; lia|].
      split; [intros _|done]. apply finished_advance. by right.
    + split; [done|]. split; [congruence|]. split; [cbn; lia|].
      rewrite finished_advance. cbn. rewrite Hstatus. intuition.
  - destruct (allowBacktrack f && (Z.of_nat i <? currentStep (fs_session σ) + 1)%Z)
      eqn:Hb; cbn; [|done].
    split; [done|]. split; [done|]. split; [cbn; lia|done].
Qed.

Lemma checkStep_sound f e (st : step) i σ :
  (i < length (steps f))%nat ->
  length (stat_steps (fs_stats σ)) = length (steps f) ->
  sound f (fs_session σ) ->
  length (stat_steps (fs_stats (checkStep RegExp f f e st i σ).1)) = length (steps f)
  /\ sound f (fs_session (checkStep RegExp f f e st i σ).1).
Proof.
  intros Hi Hlen Hs. unfold checkStep.
  destruct (eventMatchesStep RegExp e st) as [[|]|x]; [|done..].
  by apply processStepCompletion_sound.
Qed.

Lemma openSession_sound f e fd :
  registeredAs f fd -> sound f (openSession e fd).
Proof.
  intros (_ & _ & Hs). unfold openSession.
  destruct (sessions fd !! ev_sessionId e) as [s|] eqn:Hsid; cbn.
  - destruct (Hs _ _ Hsid) as [Hb Hst]. by split.
  - split; [cbn; lia|]. cbn. split; [done|].
    intros (c & Hc & _). cbn in Hc. by apply elem_of_nil in Hc.
Qed.

Lemma store_registeredAs f e σ fd :
  registeredAs f fd ->
  length (stat_steps (fs_stats σ)) = length (steps f) ->
  sound f (fs_session σ) ->
  registeredAs f (store e σ fd).
Proof.
  intros (Hf & _ & Hs) Hlen Hσ. split; [done|]. split; [done|].
  intros sid s. cbn. destruct (decide (ev_sessionId e = sid)) as [<-|Hne].
  - rewrite lookup_insert_eq. by intros [= <-].
  - rewrite lookup_insert_ne by done. apply Hs.
Qed.

Lemma checkFunnelStep_registered f e fa :
  f ∈ config_funnels fa ->
  registered fa -> registered (checkFunnelStep RegExp f e fa).1.
Proof.
  intros Hin Hreg. destruct (Hreg f Hin) as (fd & Hfd & Hfdreg).
  pose proof Hfdreg as (Hfun & Hlen & Hsess).
  unfold checkFunnelStep. rewrite Hfd, Hfun.
  set (σ0 := {| fs_session := openSession e fd; fs_stats := stats fd |}).
  pose proof (forEachi_invariant
    (fun σ => length (stat_steps (fs_stats σ)) = length (steps f)
              /\ sound f (fs_session σ))
    (checkStep RegExp f f e) (steps f) σ0) as Hloop.
  destruct (forEachi _ _ σ0) as [σ c]. cbn in Hloop |- *.
  destruct Hloop as [Hl Hs].
  { split; [done|]. by apply openSession_sound. }
  { intros j st τ Hj [Hτl Hτs]. apply checkStep_sound; [|done..].
    by apply lookup_lt_Some in Hj. }
  intros g Hg. cbn in Hg. destruct (decide (f_id g = f_id f)) as [Heq|Hne].
  - destruct (Hreg g Hg) as (gd & Hgd & Hgfun & _).
    rewrite Heq, Hfd in Hgd. inversion Hgd; subst gd.
    assert (g = f) as -> by congruence.
    exists (store e σ fd). cbn. rewrite lookup_insert_eq. split; [done|].
    by apply store_registeredAs.
  - destruct (Hreg g Hg) as (gd & Hgd & Hgreg).
    exists gd. cbn. by rewrite lookup_insert_ne.
Qed.

Lemma analyzeEvent_registered e fa :
  registered fa -> registered (analyzeEvent RegExp e fa).1.
Proof.
  intros Hreg. unfold analyzeEvent.
  apply (forEach_invariant
    (fun fa' => config_funnels fa' = config_funnels fa /\ registered fa')
    (fun f => checkFunnelStep RegExp f e) (config_funnels fa) fa); [done|].
  intros f fa' Hin [Hcfg Hr]. split.
  - by rewrite checkFunnelStep_config.
  - apply checkFunnelStep_registered; [by rewrite Hcfg | done].
Qed.

Lemma addEvent_registered ls e fa :
  registered fa -> registered (addEvent RegExp ls e fa).1.
Proof. intros Hreg. unfold addEvent. by apply analyzeEvent_registered. Qed.

Lemma length_initializeFunnelStats n :
  length (stat_steps (initializeFunnelStats n)) = n.
Proof. cbn. by rewrite length_map, length_seq. Qed.

Lemma defineFunnel_registered funnelId cs options fa :
  funnelData fa !! funnelId = None ->
  registered fa -> registered (defineFunnel funnelId cs options fa).
Proof.
  intros Hfresh Hreg g Hg. cbn in Hg. apply elem_of_app in Hg as [Hg|Hg].
  - destruct (Hreg g Hg) as (gd & Hgd & Hgreg). exists gd. split; [|done].
    cbn. rewrite lookup_insert_ne; [done|]. intros ->. congruence.
  - apply list_elem_of_singleton in Hg. subst g. cbn.
    eexists. rewrite lookup_insert_eq. split; [done|].
    split; [done|]. split; [apply length_initializeFunnelStats|].
    intros sid s Hs. cbn in Hs. by rewrite lookup_empty in Hs.
Qed.

Lemma defined_registered fa : defined RegExp fa -> registered fa.
Proof.
  induction 1 as [|fa funnelId cs options _ IH Hfresh|fa ls e _ IH].
  - intros f Hf. cbn in Hf. by apply elem_of_nil in Hf.
  - by apply defineFunnel_registered.
  - by apply addEvent_registered.
Qed.

Lemma checkFunnelStep_normal f e fa :
  f ∈ config_funnels fa ->
  registered fa ->
  (forall st u, st ∈ steps f -> truthy (st_url st) = Some u -> includes u "*" = true ->
     is_Some (RegExp (starToDotStar u))) ->
  (checkFunnelStep RegExp f e fa).2 = Normal.
Proof.
  intros Hin Hreg Hcomp. destruct (Hreg f Hin) as (fd & Hfd & Hfdreg).
  pose proof Hfdreg as (Hfun & Hlen & Hsess).
  unfold checkFunnelStep. rewrite Hfd, Hfun.
  set (σ0 := {| fs_session := openSession e fd; fs_stats := stats fd |}).
  pose proof (forEachi_normal
    (fun σ => length (stat_steps (fs_stats σ)) = length (steps f)
              /\ sound f (fs_session σ))
    (checkStep RegExp f f e) (steps f) σ0) as Hloop.
  destruct (forEachi _ _ σ0) as [σ c]. cbn in Hloop |- *.
  apply Hloop.
  - split; [done|]. by apply openSession_sound.
  - intros j st τ Hj [Hτl Hτs].
    pose proof (lookup_lt_Some _ _ _ Hj) as Hlt.
    split; [|by apply checkStep_sound].
    unfold checkStep.
    destruct (eventMatchesStep_returns e st) as [b ->].
    { intros u. apply Hcomp. by eapply list_elem_of_lookup_2. }
    destruct b; [|done].
    by apply processStepCompletion_sound.
Qed.

Lemma analyzeEvent_events e fa :
  events (analyzeEvent RegExp e fa).1 = events fa.
Proof.
  unfold analyzeEvent.
  apply (forEach_invariant (fun fa' => events fa' = events fa)
           (fun f => checkFunnelStep RegExp f e) (config_funnels fa) fa); [done|].
  intros f fa' _ <-. unfold checkFunnelStep.
  destruct (funnelData fa' !! f_id f); [|done]. by destruct (forEachi _ _ _).
Qed.

Lemma analyzeEvent_config e fa :
  config_funnels (analyzeEvent RegExp e fa).1 = config_funnels fa.
Proof.
  unfold analyzeEvent.
  apply (forEach_invariant (fun fa' => config_funnels fa' = config_funnels fa)
           (fun f => checkFunnelStep RegExp f e) (config_funnels fa) fa); [done|].
  intros f fa' _ <-. apply checkFunnelStep_config.
Qed.

End FunnelRunsFacts.

(** ** The overall counters and the drop-offs *)

Section ListFacts.
Context {A B : Type}.

(** [omap] with a function that succeeds on every element. *)
Lemma omap_total_lookup (f : A -> option B) (l : list A) (i : nat) :
  (forall x, x ∈ l -> is_Some (f x)) -> omap f l !! i = l !! i ≫= f.
Proof.
  revert i. induction l as [|x l IH]; intros i Hf; [done|].
  destruct (Hf x ltac:(left)) as [y Hy]. cbn. rewrite Hy.
  destruct i as [|i]; cbn; [done|]. apply IH. intros z Hz. apply Hf. by right.
Qed.

Lemma omap_total_length (f : A -> option B) (l : list A) :
  (forall x, x ∈ l -> is_Some (f x)) -> length (omap f l) = length l.
Proof.
  induction l as [|x l IH]; intros Hf; [done|].
  destruct (Hf x ltac:(left)) as [y Hy]. cbn. rewrite Hy. cbn.
  f_equal. apply IH. intros z Hz. apply Hf. by right.
Qed.

End ListFacts.

Section FunnelTallies.
Import JS Funnel FunnelSpec FunnelRuns FunnelAnalysis.

Variable RegExp : string -> option (string -> bool).

Implicit Types (f registered : funnel) (e : event) (σ : fstate) (i k : nat)
  (m : gmap string session) (s : session) (st : funnelStats).

Lemma updateFunnelStats_totals registered i st cur :
  stat_steps st !! i = Some cur ->
  totalSessions (updateFunnelStats registered i st).1
    = totalSessions st + (if bool_decide (i = 0%nat) then 1 else 0)
  /\ completedSessions (updateFunnelStats registered i st).1
     = completedSessions st
       + (if bool_decide (Z.of_nat i = Z.of_nat (length (steps registered)) - 1)
          then 1 else 0).
Proof.
  intros Hcur. unfold updateFunnelStats. rewrite Hcur.
  destruct (Z.eqb_spec (Z.of_nat i) (Z.of_nat (length (steps registered)) - 1));
    cbn; (split; [destruct i; cbn; case_bool_decide; (done || lia)
                 |case_bool_decide; (done || lia)]).
Qed.

Lemma updateFunnelStats_tallied registered i st :
  length (stat_steps st) = length (steps registered) ->
  tallied st -> tallied (updateFunnelStats registered i st).1.
Proof.
  intros Hlen [Hfirst Hlast].
  destruct (stat_steps st !! i) as [cur|] eqn:Hcur.
  2:{ unfold updateFunnelStats. by rewrite Hcur. }
  destruct (updateFunnelStats_totals registered i st cur Hcur) as [Ht Hc].
  pose proof (updateFunnelStats_length registered i st) as Hl.
  pose proof (lookup_lt_Some _ _ _ Hcur) as Hi.
  split.
  - intros a' Ha'. apply updateFunnelStats_reached in Ha' as (a & Ha & ->).
    rewrite Ht, (Hfirst a Ha). repeat case_bool_decide; (lia || congruence).
  - intros a' Ha'. rewrite last_lookup, Hl in Ha'.
    apply updateFunnelStats_reached in Ha' as (a & Ha & ->).
    rewrite Hc, (Hlast a) by (by rewrite last_lookup).
    repeat case_bool_decide; lia.
Qed.

Lemma processStepCompletion_shaped f registered i e σ :
  length (stat_steps (fs_stats σ)) = length (steps registered) ->
  tallied (fs_stats σ) ->
  length (stat_steps (fs_stats (processStepCompletion f registered i e σ).1))
    = length (steps registered)
  /\ tallied (fs_stats (processStepCompletion f registered i e σ).1).
Proof.
  intros Hlen Ht. unfold processStepCompletion.
  destruct (_ =? _)%Z.
  - pose proof (updateFunnelStats_length registered i (fs_stats σ)) as Hl.
    pose proof (updateFunnelStats_tallied registered i (fs_stats σ) Hlen Ht) as Ht'.
    destruct (updateFunnelStats registered i (fs_stats σ)) as [st' [|x]]; cbn in *.
    + destruct (_ =? _)%Z; cbn; split; (congruence || done).
    + split; (congruence || done).
  - by destruct (_ && _).
Qed.

Lemma checkFunnelStep_shaped f e fa :
  shaped fa -> shaped (checkFunnelStep RegExp f e fa).1.
Proof.
  intros Hall. unfold checkFunnelStep.
  destruct (funnelData fa !! f_id f) as [fd|] eqn:Hfd; [|done].
  destruct (Hall _ _ Hfd) as [Hlen Ht].
  set (σ0 := {| fs_session := openSession e fd; fs_stats := stats fd |}).
  pose proof (forEachi_invariant
    (fun σ => length (stat_steps (fs_stats σ)) = length (steps (fd_funnel fd))
              /\ tallied (fs_stats σ))
    (checkStep RegExp f (fd_funnel fd) e) (steps f) σ0) as Hloop.
  destruct (forEachi _ _ σ0) as [σ c]. cbn in Hloop |- *.
  destruct Hloop as [Hl Hs]; [done| |].
  { intros j st τ _ [Hτl Hτt]. unfold checkStep.
    destruct (eventMatchesStep RegExp e st) as [[|]|x]; [|done..].
    by apply processStepCompletion_shaped. }
  intros X fdX HX. cbn in HX.
  destruct (decide (f_id f = X)) as [<-|Hne].
  - rewrite lookup_insert_eq in HX. by inversion HX; subst fdX.
  - rewrite lookup_insert_ne in HX by done. by apply (Hall X).
Qed.

Lemma addEvent_shaped ls e fa : shaped fa -> shaped (addEvent RegExp ls e fa).1.
Proof.
  intros Hall. unfold addEvent, analyzeEvent.
  set (fa1 := {| config_funnels := config_funnels fa; events := _;
                 funnelData := funnelData fa |}).
  apply (forEach_invariant shaped
    (fun f => checkFunnelStep RegExp f (tag ls e)) (config_funnels fa1) fa1); [done|].
  intros f fa' _ Hfa'. by apply checkFunnelStep_shaped.
Qed.

Lemma defineFunnel_shaped funnelId cs options fa :
  shaped fa -> shaped (defineFunnel funnelId cs options fa).
Proof.
  intros Hall X fdX HX. cbn in HX.
  destruct (decide (funnelId = X)) as [<-|Hne].
  - rewrite lookup_insert_eq in HX. inversion HX; subst fdX.
    split; [apply length_initializeFunnelStats|]. split.
    + intros a Ha. cbn in Ha. rewrite list_lookup_fmap in Ha.
      destruct (seq 0 _ !! 0%nat); by inversion Ha.
    + intros a Ha. rewrite last_lookup in Ha. cbn in Ha.
      rewrite list_lookup_fmap in Ha.
      destruct (seq 0 _ !! _); by inversion Ha.
  - rewrite lookup_insert_ne in HX by done. by apply (Hall X).
Qed.

Lemma reachable_shaped fa : reachable RegExp fa -> shaped fa.
Proof.
  induction 1 as [funnels|fa funnelId cs options _ IH|fa ls e _ IH].
  - intros X fd HX. cbn in HX. by rewrite lookup_empty in HX.
  - by apply defineFunnel_shaped.
  - by apply addEvent_shaped.
Qed.

(** The sessions at a step or beyond are those at the step and those
    beyond it. *)
Lemma sessionsAt_empty k : sessionsAt k ∅ = 0.
Proof. unfold sessionsAt. by rewrite map_fold_empty. Qed.

Lemma sessionsAt_insert k m sid s :
  m !! sid = None ->
  sessionsAt k (<[sid := s]> m) = exactlyAt k s + sessionsAt k m.
Proof.
  intros Hnone. unfold sessionsAt.
  rewrite map_fold_insert_L; [done | intros; lia | done].
Qed.

Lemma sessionsAtLeast_split k m :
  sessionsAtLeast k m = sessionsAt k m + sessionsAtLeast (S k) m.
Proof.
  induction m as [|sid s m Hnone IH] using map_ind.
  - by rewrite !sessionsAtLeast_empty, sessionsAt_empty.
  - rewrite !sessionsAtLeast_insert, sessionsAt_insert by done.
    rewrite IH. unfold atLeast, exactlyAt. repeat case_bool_decide; lia.
Qed.

Lemma sessionsAt_nonneg k m : 0 <= sessionsAt k m.
Proof.
  induction m as [|sid s m Hnone IH] using map_ind.
  - by rewrite sessionsAt_empty.
  - rewrite sessionsAt_insert by done. unfold exactlyAt. case_bool_decide; lia.
Qed.

Lemma sessionsAtLeast_nonneg k m : 0 <= sessionsAtLeast k m.
Proof.
  induction m as [|sid s m Hnone IH] using map_ind.
  - by rewrite sessionsAtLeast_empty.
  - rewrite sessionsAtLeast_insert by done. unfold atLeast. case_bool_decide; lia.
Qed.

Lemma dropoffAt_is_Some st i :
  (S i < length (stat_steps st))%nat -> is_Some (dropoffAt st i).
Proof.
  intros Hi. unfold dropoffAt.
  destruct (lookup_lt_is_Some_2 (stat_steps st) i ltac:(lia)) as [cur ->].
  destruct (lookup_lt_is_Some_2 (stat_steps st) (S i) Hi) as [next ->].
  by eexists.
Qed.

(** The drop-offs of an entry, one per adjacent pair of steps. *)
Lemma analyzeDropoffs_lookup (fd : funnelDataEntry) i :
  analyzeDropoffs fd !! i
  = if bool_decide (S i < length (stat_steps (stats fd)))%nat
    then dropoffAt (stats fd) i else None.
Proof.
  unfold analyzeDropoffs. rewrite omap_total_lookup.
  2:{ intros j Hj. apply elem_of_seq in Hj. apply dropoffAt_is_Some. lia. }
  case_bool_decide as Hi.
  - rewrite lookup_seq_lt by lia. done.
  - rewrite lookup_seq_ge by lia. done.
Qed.

Lemma length_analyzeDropoffs (fd : funnelDataEntry) :
  length (analyzeDropoffs fd) = (length (stat_steps (stats fd)) - 1)%nat.
Proof.
  unfold analyzeDropoffs. rewrite omap_total_length; [by rewrite length_seq|].
  intros j Hj. apply elem_of_seq in Hj. apply dropoffAt_is_Some. lia.
Qed.

End FunnelTallies.

(** ** The funnel analyzer: what a run keeps and what it reports *)

Section FunnelExtras.
Import JS Funnel FunnelSpec FunnelRuns FunnelAnalysis FunnelExamples FunnelRunsExamples.

Lemma defined_addEvents RegExp l fa :
  defined RegExp fa -> defined RegExp (addEvents RegExp l fa).
Proof.
  revert fa. induction l as [|[ls e] l IH]; intros fa Hfa; [done|].
  cbn. apply IH. by constructor.
Qed.

Lemma defined_checkout : defined noRegExp checkout.
Proof. unfold checkout. apply defined_defineFunnel; [constructor|apply lookup_empty]. Qed.

Lemma compiles_checkout fa :
  config_funnels fa = config_funnels checkout -> compiles noRegExp fa.
Proof.
  intros Hcfg f s u Hf Hs Hu. rewrite Hcfg in Hf. vm_compute in Hf.
  apply list_elem_of_singleton in Hf. subst f.
  repeat (apply elem_of_cons in Hs as [->|Hs]; [discriminate Hu|]).
  by apply elem_of_nil in Hs.
Qed.

(** X1. An analyzer all of whose funnels were registered by
    [defineFunnel], each under an identifier of its own, handles every
    event without an exception, provided the host accepts the URL
    patterns of the steps: [addEvent] ends normally. *)
Theorem addEvent_completes RegExp fa ls e :
  defined RegExp fa -> compiles RegExp fa ->
  (addEvent RegExp ls e fa).2 = Normal.
Proof.
  intros Hdef Hcomp. apply defined_registered in Hdef.
  unfold addEvent, analyzeEvent.
  set (fa1 := {| config_funnels := config_funnels fa; events := _;
                 funnelData := funnelData fa |}).
  apply (forEach_normal
    (fun fa' => config_funnels fa' = config_funnels fa /\ registered fa')
    (fun f => checkFunnelStep RegExp f (tag ls e)) (config_funnels fa1) fa1); [done|].
  intros f fa' Hin [Hcfg Hreg]. cbn in Hin. split; [|split].
  - apply checkFunnelStep_normal; [by rewrite Hcfg|done|].
    intros st u Hst. by apply (Hcomp f st u).
  - by rewrite checkFunnelStep_config.
  - apply checkFunnelStep_registered; [by rewrite Hcfg|done].
Qed.

Lemma addEvent_completes_witness :
  (addEvent noRegExp tab (custom "payment" 5) checkoutRun).2 = Normal.
Proof.
  apply (addEvent_completes noRegExp checkoutRun tab (custom "payment" 5)).
  - apply defined_addEvents, defined_checkout.
  - apply compiles_checkout. reflexivity.
Defined.

(** X2. A funnel that is in the configuration without having been
    registered (one handed to the constructor) makes every [addEvent]
    end by an exception; the event is on the log of the analyzer all the
    same. *)
Theorem unregistered_funnel_raises RegExp fa f ls e :
  f ∈ config_funnels fa -> funnelData fa !! f_id f = None ->
  (addEvent RegExp ls e fa).2 <> Normal
  /\ events (addEvent RegExp ls e fa).1 = (events fa ++ [tag ls e])%list.
Proof.
  intros Hin Hnone. split.
  - unfold addEvent, analyzeEvent.
    set (fa1 := {| config_funnels := config_funnels fa; events := _;
                   funnelData := funnelData fa |}).
    apply (forEach_throws (fun fa' => funnelData fa' !! f_id f = None)
             (fun g => checkFunnelStep RegExp g (tag ls e)) (config_funnels fa1) fa1 f);
      [done|done| |].
    + intros g fa' _ Hfa'. unfold checkFunnelStep.
      destruct (funnelData fa' !! f_id g) as [gd|] eqn:Hgd; [|done].
      destruct (forEachi _ _ _) as [σ c]. cbn.
      rewrite lookup_insert_ne; [done|]. intros Heq. congruence.
    + intros fa' Hfa'. unfold checkFunnelStep. by rewrite Hfa'.
  - unfold addEvent. by rewrite analyzeEvent_events.
Qed.

Lemma unregistered_funnel_raises_witness :
  (addEvent noRegExp tab (custom "cart" 1) preconfigured).2 <> Normal
  /\ events (addEvent noRegExp tab (custom "cart" 1) preconfigured).1
     = [tag tab (custom "cart" 1)].
Proof.
  apply (unregistered_funnel_raises noRegExp preconfigured checkoutFunnel tab
           (custom "cart" 1)).
  - apply list_elem_of_singleton. reflexivity.
  - apply lookup_empty.
Defined.


(** X4. In an analyzer whose funnels were registered each under an
    identifier of its own, a session of a funnel is never beyond the last
    step ([-1 <= currentStep < steps.length]), and its status is
    ["completed"] exactly when the last step of the funnel is among its
    completed steps; this holds with backtracking too, where a completed
    session stays completed when it goes back. *)
Theorem session_completed_iff RegExp fa f fd sid s :
  defined RegExp fa ->
  f ∈ config_funnels fa ->
  funnelData fa !! f_id f = Some fd ->
  sessions fd !! sid = Some s ->
  -1 <= currentStep s < Z.of_nat (length (steps f))
  /\ (status s = completed <-> finished f s).
Proof.
  intros Hdef Hin Hfd Hs. apply defined_registered in Hdef.
  destruct (Hdef f Hin) as (fd' & Hfd' & _ & _ & Hsound).
  rewrite Hfd in Hfd'. inversion Hfd'; subst fd'.
  exact (Hsound sid s Hs).
Qed.

Lemma session_completed_iff_witness :
  exists fd s,
    funnelData checkoutDone !! "checkout" = Some fd
    /\ sessions fd !! "s1" = Some s
    /\ currentStep s = 2
    /\ (status s = completed <-> finished checkoutFunnel s).
Proof.
  destruct (funnelData checkoutDone !! "checkout") as [fd|] eqn:Hfd;
    [|vm_compute in Hfd; discriminate Hfd].
  destruct (sessions fd !! "s1") as [s|] eqn:Hs.
  2:{ vm_compute in Hfd. inversion Hfd; subst fd. vm_compute in Hs. discriminate Hs. }
  exists fd, s. split; [reflexivity|]. split; [exact Hs|]. split.
  - vm_compute in Hfd. inversion Hfd; subst fd. vm_compute in Hs.
    inversion Hs; subst s. reflexivity.
  - apply (session_completed_iff noRegExp checkoutDone checkoutFunnel fd "s1" s).
    + apply defined_addEvents, defined_checkout.
    + vm_compute. apply list_elem_of_singleton. reflexivity.
    + exact Hfd.
    + exact Hs.
Defined.

Lemma reachable_checkoutDone : reachable noRegExp checkoutDone.
Proof. apply reachable_addEvents. unfold checkout. apply reach_defineFunnel, reach_create. Qed.

Lemma noBacktrack_checkoutDone : noBacktrack "checkout" checkoutDone.
Proof.
  intros f Hin _. vm_compute in Hin. apply list_elem_of_singleton in Hin. by subst f.
Qed.

(** X5. After any sequence of funnel definitions and events, the overall
    counters of a funnel repeat the counters of its steps:
    [totalSessions] is [reached] of the first step and
    [completedSessions] is [reached] of the last step, and there is one
    statistics record per step of the registered funnel. *)
Theorem totals_repeat_step_counters RegExp fa funnelId fd :
  reachable RegExp fa ->
  funnelData fa !! funnelId = Some fd ->
  length (stat_steps (stats fd)) = length (steps (fd_funnel fd))
  /\ (forall a, stat_steps (stats fd) !! 0%nat = Some a ->
        totalSessions (stats fd) = reached a)
  /\ (forall a, last (stat_steps (stats fd)) = Some a ->
        completedSessions (stats fd) = reached a).
Proof.
  intros Hreach Hfd.
  destruct (reachable_shaped RegExp fa Hreach funnelId fd Hfd) as [Hlen [Hfirst Hlast]].
  done.
Qed.

Lemma totals_repeat_step_counters_witness :
  exists fd,
    funnelData checkoutDone !! "checkout" = Some fd
    /\ totalSessions (stats fd) = 2
    /\ completedSessions (stats fd) = 1
    /\ (forall a, stat_steps (stats fd) !! 0%nat = Some a -> totalSessions (stats fd) = reached a)
    /\ (forall a, last (stat_steps (stats fd)) = Some a ->
          completedSessions (stats fd) = reached a).
Proof.
  destruct (funnelData checkoutDone !! "checkout") as [fd|] eqn:Hfd;
    [|vm_compute in Hfd; discriminate Hfd].
  exists fd. split; [reflexivity|].
  split; [vm_compute in Hfd; by inversion Hfd|].
  split; [vm_compute in Hfd; by inversion Hfd|].
  apply (totals_repeat_step_counters noRegExp checkoutDone "checkout" fd).
  - apply reachable_checkoutDone.
  - exact Hfd.
Defined.

(** X6. For a funnel registered without backtracking, after any run,
    [analyzeDropoffs] lists one drop-off per adjacent pair of steps, and
    the [dropoffCount] from step [i] to step [i + 1] is the number of
    sessions that are at step [i] at that moment; it is never negative. *)
Theorem dropoffCount_counts_sessions RegExp fa funnelId fd :
  reachable RegExp fa ->
  funnelData fa !! funnelId = Some fd ->
  noBacktrack funnelId fa ->
  length (analyzeDropoffs fd) = (length (steps (fd_funnel fd)) - 1)%nat
  /\ forall i d, analyzeDropoffs fd !! i = Some d ->
       do_fromStep d = i /\ do_toStep d = S i
       /\ dropoffCount d = sessionsAt i (sessions fd)
       /\ 0 <= dropoffCount d.
Proof.
  intros Hreach Hfd Hnb.
  destruct (reachable_shaped RegExp fa Hreach funnelId fd Hfd) as [Hlen _].
  pose proof (reachable_countedAll RegExp fa Hreach funnelId fd Hfd Hnb) as Hc.
  split; [by rewrite length_analyzeDropoffs, Hlen|].
  intros i d Hd. rewrite analyzeDropoffs_lookup in Hd.
  case_bool_decide; [|done]. unfold dropoffAt in Hd.
  destruct (stat_steps (stats fd) !! i) as [cur|] eqn:Hcur; [|done].
  destruct (stat_steps (stats fd) !! S i) as [next|] eqn:Hnext; [|done].
  cbn in Hd. inversion Hd; subst d; clear Hd. cbn.
  rewrite (Hc _ _ Hcur), (Hc _ _ Hnext), (sessionsAtLeast_split i).
  pose proof (sessionsAt_nonneg i (sessions fd)).
  repeat split; lia.
Qed.

Lemma dropoffCount_counts_sessions_witness :
  exists fd,
    funnelData checkoutDone !! "checkout" = Some fd
    /\ map dropoffCount (analyzeDropoffs fd) = [1; 0]
    /\ forall i d, analyzeDropoffs fd !! i = Some d ->
         do_fromStep d = i /\ do_toStep d = S i
         /\ dropoffCount d = sessionsAt i (sessions fd)
         /\ 0 <= dropoffCount d.
Proof.
  destruct (funnelData checkoutDone !! "checkout") as [fd|] eqn:Hfd;
    [|vm_compute in Hfd; discriminate Hfd].
  exists fd. split; [reflexivity|].
  split; [vm_compute in Hfd; by inversion Hfd|].
  apply (dropoffCount_counts_sessions noRegExp checkoutDone "checkout" fd).
  - apply reachable_checkoutDone.
  - exact Hfd.
  - apply noBacktrack_checkoutDone.
Defined.

(** X7. For a funnel registered without backtracking, the [dropoffRate]
    from a step that no session has reached is NaN (0 / 0); from a step
    that [n > 0] sessions have reached, [k] of which are still at it, it
    is the number [k / n * 100], between 0 and 100. *)
Theorem dropoffRate_percentage RegExp fa funnelId fd i d :
  reachable RegExp fa ->
  funnelData fa !! funnelId = Some fd ->
  noBacktrack funnelId fa ->
  analyzeDropoffs fd !! i = Some d ->
  let n := sessionsAtLeast i (sessions fd) in
  let k := sessionsAt i (sessions fd) in
  (n = 0 -> dropoffRate d = NaN)
  /\ (n <> 0 ->
      dropoffRate d = Fin (inject_Z k / inject_Z n * inject_Z 100)
      /\ (0 <= inject_Z k / inject_Z n * inject_Z 100)%Q
      /\ (inject_Z k / inject_Z n * inject_Z 100 <= 100)%Q).
Proof.
  intros Hreach Hfd Hnb Hd n k.
  pose proof (reachable_countedAll RegExp fa Hreach funnelId fd Hfd Hnb) as Hc.
  rewrite analyzeDropoffs_lookup in Hd.
  case_bool_decide; [|done]. unfold dropoffAt in Hd.
  destruct (stat_steps (stats fd) !! i) as [cur|] eqn:Hcur; [|done].
  destruct (stat_steps (stats fd) !! S i) as [next|] eqn:Hnext; [|done].
  cbn in Hd. inversion Hd; subst d; clear Hd. cbn [dropoffRate].
  rewrite (Hc _ _ Hcur), (Hc _ _ Hnext).
  pose proof (sessionsAtLeast_split i (sessions fd)) as Hsplit.
  pose proof (sessionsAt_nonneg i (sessions fd)) as Hk.
  pose proof (sessionsAtLeast_nonneg (S i) (sessions fd)) as Hrest.
  pose proof (sessionsAtLeast_nonneg i (sessions fd)) as Hn.
  replace (sessionsAtLeast i (sessions fd) - sessionsAtLeast (S i) (sessions fd))
    with k by (unfold k; lia).
  fold n in Hsplit, Hn |- *. fold k in Hsplit, Hk.
  split.
  - intros Hzero. assert (k = 0) as -> by lia. rewrite Hzero. reflexivity.
  - intros Hpos.
    assert (0 < n) as Hlt by lia. assert (k <= n) as Hle by lia.
    clearbody n k. clear -Hlt Hle Hk.
    destruct n as [|p|p]; [lia| |lia].
    split; [|split].
    + unfold percent, div, num, Qsgn. cbn. reflexivity.
    + unfold Qle, Qdiv, Qmult, Qinv, inject_Z. cbn. nia.
    + unfold Qle, Qdiv, Qmult, Qinv, inject_Z. cbn. nia.
Qed.

Lemma dropoffRate_percentage_witness :
  exists fd d,
    funnelData checkoutDone !! "checkout" = Some fd
    /\ analyzeDropoffs fd !! 0%nat = Some d
    /\ dropoffRate d = Fin (inject_Z 1 / inject_Z 2 * inject_Z 100).
Proof.
  destruct (funnelData checkoutDone !! "checkout") as [fd|] eqn:Hfd;
    [|vm_compute in Hfd; discriminate Hfd].
  destruct (analyzeDropoffs fd !! 0%nat) as [d|] eqn:Hd.
  2:{ vm_compute in Hfd. inversion Hfd; subst fd. vm_compute in Hd. discriminate Hd. }
  exists fd, d. split; [reflexivity|]. split; [exact Hd|].
  pose proof (dropoffRate_percentage noRegExp checkoutDone "checkout" fd 0%nat d
                reachable_checkoutDone Hfd noBacktrack_checkoutDone Hd) as [_ Hrate].
  assert (sessionsAtLeast 0 (sessions fd) = 2 /\ sessionsAt 0 (sessions fd) = 1)
    as [Hn Hk].
  { vm_compute in Hfd. inversion Hfd; subst fd. split; vm_compute; reflexivity. }
  rewrite Hn, Hk in Hrate. apply Hrate. lia.
Defined.

End FunnelExtras.

(** ** The time analysis *)

Section Timings.
Import JS Funnel FunnelAnalysis.

Implicit Types (t : timing) (b : bucket) (k : string)
  (aggregated : list (string * bucket)) (timings : list timing).

Lemma pretty_N_char_not_underscore x : pretty_N_char x <> "_"%char.
Proof. unfold pretty_N_char. repeat case_match; done. Qed.

Lemma absent_pretty_N_go x s : absent "_" s -> absent "_" (pretty_N_go x s).
Proof.
  revert s. induction (N.lt_wf_0 x) as [x _ IH]; intros s Hs.
  destruct (decide (x = 0)%N) as [->|Hx]; [by rewrite pretty_N_go_0|].
  rewrite pretty_N_go_step by lia. apply IH.
  - apply N.div_lt; lia.
  - split; [apply pretty_N_char_not_underscore|done].
Qed.

Lemma absent_pretty_nat (n : nat) : absent "_" (pretty n).
Proof.
  unfold pretty, pretty_nat, pretty, pretty_N.
  destruct (decide _); [by split|]. by apply absent_pretty_N_go.
Qed.

(** Two strings cut at the first occurrence of a character. *)
Lemma append_absent_inj (c : ascii) (a a' r r' : string) :
  absent c a -> absent c a' ->
  a +:+ String c r = a' +:+ String c r' -> a = a' /\ r = r'.
Proof.
  revert a'. induction a as [|x a IH]; intros [|x' a'] Ha Ha' Heq; cbn in *.
  - by inversion Heq.
  - inversion Heq; subst. by destruct Ha' as [[] _].
  - inversion Heq; subst. by destruct Ha as [[] _].
  - inversion Heq; subst. destruct Ha as [_ Ha], Ha' as [_ Ha'].
    destruct (IH a' Ha Ha' ltac:(done)) as [-> ->]. done.
Qed.

(** The key of a timing stands for its two steps. *)
Lemma key_inj t t' :
  key t = key t' -> tm_fromStep t = tm_fromStep t' /\ tm_toStep t = tm_toStep t'.
Proof.
  unfold key. intros Heq.
  apply (append_absent_inj "_") in Heq as [Hfrom Hto];
    [|apply absent_pretty_nat..].
  split; by apply (inj pretty).
Qed.

Lemma collect_keys k t aggregated :
  (collect k t aggregated).*1
  = if bool_decide (k ∈ aggregated.*1) then aggregated.*1 else (aggregated.*1 ++ [k])%list.
Proof.
  induction aggregated as [|[k0 b0] rest IH]; cbn.
  - rewrite bool_decide_eq_false_2; [done|]. apply not_elem_of_nil.
  - destruct (String.eqb_spec k0 k) as [->|Hne]; cbn.
    + rewrite bool_decide_eq_true_2; [done|]. by left.
    + rewrite IH. case_bool_decide as Hin.
      * rewrite bool_decide_eq_true_2; [done|]. by right.
      * rewrite bool_decide_eq_false_2; [done|].
        intros Hin'. apply elem_of_cons in Hin' as [->|Hin']; done.
Qed.

Lemma collect_elem k t aggregated k' b' :
  NoDup aggregated.*1 ->
  (k', b') ∈ collect k t aggregated ->
  (k' <> k /\ (k', b') ∈ aggregated)
  \/ (k' = k /\ (k ∉ aggregated.*1) /\ b' = fresh t)
  \/ (k' = k /\ exists b, (k, b) ∈ aggregated /\ b' = extend b t).
Proof.
  induction aggregated as [|[k0 b0] rest IH]; cbn; intros Hnd Hin.
  - apply list_elem_of_singleton in Hin. inversion Hin; subst.
    right; left. split; [done|]. split; [apply not_elem_of_nil|done].
  - apply NoDup_cons in Hnd as [Hk0 Hnd].
    destruct (String.eqb_spec k0 k) as [->|Hne].
    + apply elem_of_cons in Hin as [Hin|Hin].
      * inversion Hin; subst. right; right. split; [done|].
        exists b0. split; [by left|done].
      * left. split; [|by right]. intros ->. apply Hk0.
        apply list_elem_of_fmap. by exists (k, b').
    + apply elem_of_cons in Hin as [Hin|Hin].
      * inversion Hin; subst. left. split; [done|by left].
      * destruct (IH Hnd Hin) as [[Hk' Hold]|[(-> & Hnew & ->)|(-> & b & Hb & ->)]].
        -- left. split; [done|by right].
        -- right; left. split; [done|]. split; [|done].
           intros Hin'. apply elem_of_cons in Hin' as [Heq|Hin']; [by subst|done].
        -- right; right. split; [done|]. exists b. split; [by right|done].
Qed.

Lemma filter_none {A} (P : A -> Prop) `{forall x, Decision (P x)} (l : list A) :
  (forall x, x ∈ l -> ~ P x) -> filter P l = [].
Proof.
  induction l as [|x l IH]; intros Hall; [done|].
  rewrite filter_cons, decide_False by (apply Hall; by left).
  apply IH. intros y Hy. apply Hall. by right.
Qed.

(** Every timing has its key in [aggregated]. *)
Lemma collected_present timings t :
  t ∈ timings ->
  key t ∈ (fold_left (fun aggregated t => collect (key t) t aggregated) timings []).*1.
Proof.
  induction timings as [|t0 ts IH] using rev_ind; intros Hin;
    [by apply elem_of_nil in Hin|].
  rewrite fold_left_app. cbn [fold_left]. rewrite collect_keys.
  apply elem_of_app in Hin as [Hin|Hin].
  - specialize (IH Hin). case_bool_decide; [done|]. apply elem_of_app. by left.
  - apply list_elem_of_singleton in Hin. subst t0.
    case_bool_decide; [done|]. apply elem_of_app. right.
    by apply list_elem_of_singleton.
Qed.

(** The entries of [aggregated] after the first loop of
    [aggregateTimings]. *)
Lemma collected_spec timings :
  let aggregated := fold_left (fun aggregated t => collect (key t) t aggregated) timings [] in
  NoDup aggregated.*1
  /\ forall k b, (k, b) ∈ aggregated ->
       bk_durations b = map tm_duration (filter (fun t => key t = k) timings)
       /\ exists t, t ∈ timings /\ key t = k
            /\ tm_fromStep t = bk_fromStep b /\ tm_toStep t = bk_toStep b.
Proof.
  induction timings as [|t ts IH] using rev_ind; cbn zeta.
  - split; [constructor|]. intros k b Hin. by apply elem_of_nil in Hin.
  - rewrite fold_left_app. cbn [fold_left].
    set (aggregated := fold_left _ ts []) in *. cbn zeta in IH.
    destruct IH as [Hnd Hall]. split.
    + rewrite collect_keys. case_bool_decide as Hin; [done|].
      apply NoDup_app. split; [done|]. split; [|apply NoDup_singleton].
      intros x Hx Hx'. apply list_elem_of_singleton in Hx'. by subst x.
    + intros k b Hin.
      rewrite filter_app, map_app, filter_cons, filter_nil.
      apply (collect_elem _ _ _ _ _ Hnd) in Hin
        as [[Hne Hold]|[(-> & Hnew & ->)|(-> & b0 & Hb0 & ->)]].
      * destruct (Hall k b Hold) as (Hd & t' & Ht' & Hk & Hft).
        rewrite decide_False by done. cbn. rewrite app_nil_r. split; [done|].
        exists t'. split; [|done]. apply elem_of_app. by left.
      * rewrite decide_True by done. cbn. split.
        -- rewrite filter_none; [done|].
           intros t' Ht' Hk. apply Hnew. rewrite <- Hk.
           by apply collected_present.
        -- exists t. split; [|done]. apply elem_of_app. right.
           by apply list_elem_of_singleton.
      * destruct (Hall _ b0 Hb0) as (Hd & t' & Ht' & Hk & Hft).
        rewrite decide_True by done. cbn. rewrite Hd. split; [done|].
        exists t'. split; [|done]. apply elem_of_app. by left.
Qed.

Lemma Sorted_lookup_le (l : list Z) i j x y :
  Sorted Z.le l -> l !! i = Some x -> l !! j = Some y -> (i <= j)%nat -> x <= y.
Proof.
  intros Hs. apply Sorted_StronglySorted in Hs; [|intros ???; lia].
  revert i j. induction Hs as [|a l Hs IH Hall]; intros i j Hi Hj Hij; [done|].
  destruct i as [|i], j as [|j]; cbn in *.
  - inversion Hi; inversion Hj; subst. lia.
  - inversion Hi; subst. rewrite Forall_forall in Hall. apply Hall.
    by eapply list_elem_of_lookup_2.
  - lia.
  - apply (IH i j); [done..|lia].
Qed.

Lemma sum_bounds (l : list Z) (lo hi acc : Z) :
  (forall d, d ∈ l -> lo <= d <= hi) ->
  acc + Z.of_nat (length l) * lo <= fold_left Z.add l acc
  /\ fold_left Z.add l acc <= acc + Z.of_nat (length l) * hi.
Proof.
  revert acc. induction l as [|d l IH]; intros acc Hall; cbn [fold_left length].
  - lia.
  - destruct (Hall d ltac:(left)) as [Hlo Hhi].
    destruct (IH (acc + d) ltac:(intros; apply Hall; by right)) as [H1 H2].
    split; lia.
Qed.

Lemma average_bounds (sum n lo hi : Z) :
  0 < n -> n * lo <= sum -> sum <= n * hi ->
  div (num sum) (num n) = Fin (inject_Z sum / inject_Z n)
  /\ (inject_Z lo <= inject_Z sum / inject_Z n)%Q
  /\ (inject_Z sum / inject_Z n <= inject_Z hi)%Q.
Proof.
  intros Hn Hlo Hhi. destruct n as [|p|p]; [lia| |lia].
  split; [reflexivity|].
  split; unfold Qle, Qdiv, Qmult, Qinv, inject_Z; cbn; nia.
Qed.

(** An entry of the result comes from an entry of [aggregated], which
    holds the durations of the timings of its transition. *)
Lemma aggregateTimings_elem timings (a : transition) :
  a ∈ aggregateTimings timings ->
  exists b t,
    a = summarize b
    /\ t ∈ timings /\ tm_fromStep t = bk_fromStep b /\ tm_toStep t = bk_toStep b
    /\ bk_durations b
       = map tm_duration (between (bk_fromStep b) (bk_toStep b) timings).
Proof.
  unfold aggregateTimings. intros Ha.
  destruct (collected_spec timings) as [_ Hall]. cbn zeta in Hall.
  apply list_elem_of_fmap in Ha as ([k b] & -> & Hin). cbn.
  destruct (Hall k b Hin) as (Hd & t & Ht & Hk & Hfrom & Hto).
  exists b, t. repeat (split; [done|]). rewrite Hd. f_equal.
  apply list_filter_iff. intros t0. split.
  - intros Ht0. rewrite <- Hk in Ht0. apply key_inj in Ht0. lia.
  - intros [H1 H2]. rewrite <- Hk. unfold key. congruence.
Qed.

End Timings.

Section TimingCounts.
Import JS Funnel FunnelSpec FunnelAnalysis.

Implicit Types (s : session) (i j : nat).

Lemma timingAt_Some s j t :
  timingAt s j = Some t -> tm_fromStep t = j /\ tm_toStep t = S j.
Proof.
  unfold timingAt. destruct (completedSteps s !! j); [|done].
  destruct (completedSteps s !! S j); [|done]. cbn. by intros [= <-].
Qed.

Lemma timingAt_is_Some s j :
  (S j < length (completedSteps s))%nat -> is_Some (timingAt s j).
Proof.
  intros Hj. unfold timingAt.
  destruct (lookup_lt_is_Some_2 (completedSteps s) j ltac:(lia)) as [cur ->].
  destruct (lookup_lt_is_Some_2 (completedSteps s) (S j) Hj) as [next ->].
  by eexists.
Qed.

(** A session has one timing from position [i] when it has completed
    more than [i + 1] steps, and none otherwise. *)
Lemma length_between_timings s i (a n : nat) :
  (a + n < length (completedSteps s))%nat ->
  length (between i (S i) (omap (timingAt s) (seq a n)))
  = if bool_decide (a <= i < a + n)%nat then 1%nat else 0%nat.
Proof.
  revert a. induction n as [|n IH]; intros a Hn; cbn [seq omap list_omap].
  - rewrite bool_decide_eq_false_2 by lia. done.
  - destruct (timingAt_is_Some s a ltac:(lia)) as [t Ht].
    change (omap (timingAt s) (a :: seq (S a) n))
      with (match timingAt s a with
            | Some y => y :: omap (timingAt s) (seq (S a) n)
            | None => omap (timingAt s) (seq (S a) n)
            end).
    rewrite Ht. apply timingAt_Some in Ht as [Hfrom Hto].
    unfold between in *. rewrite filter_cons.
    rewrite Hfrom, Hto. specialize (IH (S a) ltac:(lia)).
    destruct (decide (a = i /\ S a = S i)) as [[-> _]|Hne]; cbn [length].
    + rewrite IH. rewrite bool_decide_eq_false_2 by lia.
      rewrite bool_decide_eq_true_2 by lia. done.
    + rewrite IH. repeat case_bool_decide; lia.
Qed.

Lemma length_between_sessionTimings s i :
  length (between i (S i) (sessionTimings s))
  = if bool_decide (S i < length (completedSteps s))%nat then 1%nat else 0%nat.
Proof.
  unfold sessionTimings.
  destruct (length (completedSteps s)) as [|n] eqn:Hlen.
  - cbn. rewrite bool_decide_eq_false_2 by lia. done.
  - replace (S n - 1)%nat with n by lia.
    rewrite length_between_timings by lia. repeat case_bool_decide; lia.
Qed.

Lemma inOrder_atLeast s i :
  inOrder s ->
  atLeast (S i) s = if bool_decide (S i < length (completedSteps s))%nat then 1 else 0.
Proof.
  intros [Hlo Hseq]. apply (f_equal length) in Hseq.
  rewrite length_map, length_seq in Hseq. unfold atLeast.
  repeat case_bool_decide; lia.
Qed.

(** Summed over the sessions, the timings from position [i] are as many
    as the sessions beyond step [i]. *)
Lemma length_between_sessions (l : list (string * session)) i :
  (forall kv, kv ∈ l -> inOrder kv.2) ->
  Z.of_nat (length (between i (S i) (l.*2 ≫= sessionTimings)))
  = foldr (uncurry (fun (_ : string) s n => atLeast (S i) s + n)) 0 l.
Proof.
  induction l as [|[k s] l IH]; intros Hall; [done|].
  cbn [fmap list_fmap foldr snd mbind list_bind].
  change (between i (S i) (sessionTimings s ++ l.*2 ≫= sessionTimings)%list)
    with (filter (fun t => tm_fromStep t = i /\ tm_toStep t = S i)
            (sessionTimings s ++ l.*2 ≫= sessionTimings)%list).
  rewrite filter_app, length_app. fold (between i (S i) (sessionTimings s)).
  fold (between i (S i) (l.*2 ≫= sessionTimings)).
  rewrite Nat2Z.inj_add, IH by (intros kv Hkv; apply Hall; by right).
  rewrite length_between_sessionTimings. cbn [uncurry].
  rewrite (inOrder_atLeast s i) by (apply (Hall (k, s)); by left).
  by case_bool_decide.
Qed.

End TimingCounts.

Section TimingClaims.
Import JS Funnel FunnelSpec FunnelAnalysis FunnelExamples FunnelRunsExamples.

(** X8. [aggregateTimings] makes one entry per transition that occurs
    among the timings, and no two entries for the same transition. The
    durations of an entry are those of the timings of its transition, in
    ascending order; [min], [median] and [max] are defined, [min] and
    [max] are the least and the greatest duration, and the median and the
    average lie between them. *)
Theorem aggregateTimings_statistics (timings : list timing) :
  NoDup (map (fun a => (tr_fromStep a, tr_toStep a)) (aggregateTimings timings))
  /\ (forall t, t ∈ timings ->
        exists a, a ∈ aggregateTimings timings
          /\ tr_fromStep a = tm_fromStep t /\ tr_toStep a = tm_toStep t)
  /\ forall a, a ∈ aggregateTimings timings ->
       Sorted Z.le (durations a)
       /\ durations a ≡ₚ map tm_duration (between (tr_fromStep a) (tr_toStep a) timings)
       /\ exists lo mid hi q,
            tr_min a = Some lo /\ median a = Some mid /\ tr_max a = Some hi
            /\ average a = Fin q
            /\ lo <= mid <= hi
            /\ (forall d, d ∈ durations a -> lo <= d <= hi)
            /\ (inject_Z lo <= q)%Q /\ (q <= inject_Z hi)%Q.
Proof.
  unfold aggregateTimings.
  destruct (collected_spec timings) as [Hnd Hall].
  pose proof (collected_present timings) as Hpresent.
  set (aggregated := fold_left _ timings []) in *.
  split; [|split].
  - rewrite map_map. cbn.
    apply (NoDup_fmap_1 (fun p : nat * nat => pretty p.1 +:+ "_" +:+ pretty p.2)).
    replace (_ <$> _) with (aggregated.*1); [done|].
    rewrite <- list_fmap_compose. apply list_fmap_ext.
    intros i [k b] Hi. cbn.
    apply list_elem_of_lookup_2 in Hi.
    destruct (Hall k b Hi) as (_ & t & _ & <- & <- & <-). done.
  - intros t Ht. specialize (Hpresent t Ht).
    apply list_elem_of_fmap in Hpresent as ([k b] & Hk & Hin). cbn in Hk. subst k.
    exists (summarize b). split.
    + apply list_elem_of_fmap. by exists (key t, b).
    + destruct (Hall _ b Hin) as (_ & t' & _ & Hk & Hfrom & Hto). cbn.
      apply key_inj in Hk. lia.
  - intros a Ha.
    assert (a ∈ aggregateTimings timings) as Ha' by exact Ha.
    apply aggregateTimings_elem in Ha' as (b & t & -> & Ht & Hfrom & Hto & Hd). cbn.
    set (sorted := merge_sort Z.le (bk_durations b)).
    assert (Sorted Z.le sorted) as Hsorted by apply (Sorted_merge_sort Z.le).
    assert (sorted ≡ₚ bk_durations b) as Hperm by apply merge_sort_Permutation.
    assert (0 < length sorted)%nat as Hlen.
    { rewrite Hperm, Hd, length_map.
      assert (t ∈ between (bk_fromStep b) (bk_toStep b) timings) as Hin'
        by (by apply list_elem_of_filter).
      destruct (between _ _ timings); [by apply elem_of_nil in Hin'|cbn; lia]. }
    split; [done|]. split; [by rewrite Hperm, Hd|].
    destruct (lookup_lt_is_Some_2 sorted 0 Hlen) as [lo Hlo].
    assert (length sorted / 2 < length sorted)%nat as Hhalf
      by (apply Nat.div_lt; lia).
    assert (length sorted - 1 < length sorted)%nat as Hpred by lia.
    destruct (lookup_lt_is_Some_2 sorted _ Hhalf) as [mid Hmid].
    destruct (lookup_lt_is_Some_2 sorted _ Hpred) as [hi Hhi].
    assert (forall d, d ∈ sorted -> lo <= d <= hi) as Hrange.
    { intros d Hdin. apply list_elem_of_lookup in Hdin as [i Hi].
      pose proof (lookup_lt_Some _ _ _ Hi). split.
      - apply (Sorted_lookup_le sorted 0 i); [done..|lia].
      - apply (Sorted_lookup_le sorted i (length sorted - 1)); [done..|lia]. }
    destruct (sum_bounds sorted lo hi 0 Hrange) as [Hsum1 Hsum2].
    destruct (average_bounds (fold_left Z.add sorted 0) (Z.of_nat (length sorted)) lo hi)
      as (Havg & Hq1 & Hq2); [lia..|].
    exists lo, mid, hi, (inject_Z (fold_left Z.add sorted 0%Z)
                         / inject_Z (Z.of_nat (length sorted)))%Q.
    repeat (split; [done|]).
    split; [|done].
    apply Hrange. by eapply list_elem_of_lookup_2.
Qed.

(** X9. For a funnel registered without backtracking, after any run,
    the time analysis has the transitions from a step to the next one,
    and the number of durations it holds for the transition to step
    [j] is the number of sessions at step [j] or beyond: it is the
    [reached] counter of step [j]. *)
Theorem timeAnalysis_counts_sessions RegExp fa funnelId fd a :
  reachable RegExp fa ->
  funnelData fa !! funnelId = Some fd ->
  noBacktrack funnelId fa ->
  a ∈ analyzeTimings fd ->
  tr_toStep a = S (tr_fromStep a)
  /\ Z.of_nat (length (durations a)) = sessionsAtLeast (tr_toStep a) (sessions fd)
  /\ forall st, stat_steps (stats fd) !! tr_toStep a = Some st ->
        reached st = Z.of_nat (length (durations a)).
Proof.
  intros Hreach Hfd Hnb Ha.
  pose proof (reachable_countedAll RegExp fa Hreach funnelId fd Hfd Hnb) as Hc.
  pose proof (reachable_inOrderAll RegExp fa Hreach funnelId fd) as Hord.
  unfold analyzeTimings in Ha.
  apply aggregateTimings_elem in Ha as (b & t & -> & Ht & Hfrom & Hto & Hd).
  cbn [tr_toStep tr_fromStep durations summarize].
  assert (bk_toStep b = S (bk_fromStep b)) as Hnext.
  { apply list_elem_of_bind in Ht as (s & Ht & _).
    apply list_elem_of_omap in Ht as (j & _ & Ht).
    apply timingAt_Some in Ht. lia. }
  assert (Z.of_nat (length (merge_sort Z.le (bk_durations b)))
          = sessionsAtLeast (bk_toStep b) (sessions fd)) as Hlen.
  { rewrite merge_sort_Permutation, Hd, length_map, Hnext. unfold sessionList.
    rewrite length_between_sessions.
    - unfold sessionsAtLeast. rewrite map_fold_foldr. done.
    - intros [sid s] Hin. apply elem_of_map_to_list in Hin. cbn.
      by apply (Hord sid s Hfd Hnb). }
  split; [done|]. split; [done|].
  intros st Hst. by rewrite (Hc _ _ Hst).
Qed.

Lemma timeAnalysis_counts_sessions_witness :
  exists fd a,
    funnelData checkoutDone !! "checkout" = Some fd
    /\ a ∈ analyzeTimings fd
    /\ tr_fromStep a = 0%nat
    /\ durations a = [2000]
    /\ Z.of_nat (length (durations a)) = sessionsAtLeast (tr_toStep a) (sessions fd).
Proof.
  destruct (funnelData checkoutDone !! "checkout") as [fd|] eqn:Hfd;
    [|vm_compute in Hfd; discriminate Hfd].
  destruct (analyzeTimings fd) as [|a l] eqn:Ha.
  { vm_compute in Hfd. inversion Hfd; subst fd. vm_compute in Ha. discriminate Ha. }
  exists fd, a. split; [reflexivity|].
  assert (a ∈ analyzeTimings fd) as Hin by (rewrite Ha; left).
  split; [exact Hin|].
  split; [vm_compute in Hfd; inversion Hfd; subst fd; vm_compute in Ha; by inversion Ha|].
  split; [vm_compute in Hfd; inversion Hfd; subst fd; vm_compute in Ha; by inversion Ha|].
  apply (timeAnalysis_counts_sessions noRegExp checkoutDone "checkout" fd a).
  - apply reachable_addEvents. unfold checkout. apply reach_defineFunnel, reach_create.
  - exact Hfd.
  - intros f Hf _. vm_compute in Hf. apply list_elem_of_singleton in Hf. by subst f.
  - exact Hin.
Defined.

End TimingClaims.

(** ** The export of a funnel *)

Section ExportClaims.
Import JS Funnel FunnelSpec FunnelAnalysis FunnelExamples FunnelRunsExamples.

Variable NumberToString : jsnum -> string.
Variable stringify : option analysis -> string.

(** X10. After any run, the CSV export of a funnel that was defined is
    the header line and one line per step of the funnel, joined by line
    feeds. For an identifier under which no funnel was defined, the CSV
    export raises a TypeError, while the export in the default format
    returns what [JSON.stringify] makes of [null]. *)
Theorem exportFunnelData_csv RegExp fa funnelId :
  reachable RegExp fa ->
  match funnelData fa !! funnelId with
  | Some fd =>
      exists a,
        getFunnelAnalysis funnelId fa = Some a
        /\ exportFunnelData NumberToString stringify funnelId (Some "csv") fa
           = Return (String.concat (String "010"%char EmptyString)
                       (csvRows NumberToString a))
        /\ length (csvRows NumberToString a) = S (length (steps (fd_funnel fd)))
  | None =>
      exportFunnelData NumberToString stringify funnelId (Some "csv") fa
      = Raise TypeError
      /\ exportFunnelData NumberToString stringify funnelId None fa
         = Return (stringify None)
  end.
Proof.
  intros Hfa. unfold exportFunnelData, getFunnelAnalysis.
  destruct (funnelData fa !! funnelId) as [fd|] eqn:Hfd; [|done].
  eexists. split; [done|]. split; [done|].
  unfold csvRows. cbn [length an_stats]. rewrite length_imap.
  by destruct (reachable_shaped RegExp fa Hfa funnelId fd Hfd) as [-> _].
Qed.

End ExportClaims.

Section ExportExamples.
Import JS Funnel FunnelSpec FunnelAnalysis FunnelExamples FunnelRunsExamples.

Lemma exportFunnelData_csv_witness :
  (exists a,
     getFunnelAnalysis "checkout" checkoutDone = Some a
     /\ length (csvRows (fun _ => "") a) = 4%nat)
  /\ exportFunnelData (fun _ => "") (fun _ => "null") "signup" (Some "csv") checkoutDone
     = Raise TypeError.
Proof.
  pose proof reachable_checkoutDone as Hfa.
  split.
  - pose proof (exportFunnelData_csv (fun _ => "") (fun _ => "null") noRegExp
                  checkoutDone "checkout" Hfa) as H.
    destruct (funnelData checkoutDone !! "checkout") as [fd|] eqn:Hfd;
      [|vm_compute in Hfd; discriminate Hfd].
    destruct H as (a & Ha & _ & Hlen). exists a. split; [exact Ha|].
    rewrite Hlen. vm_compute in Hfd. inversion Hfd. reflexivity.
  - pose proof (exportFunnelData_csv (fun _ => "") (fun _ => "null") noRegExp
                  checkoutDone "signup" Hfa) as H.
    destruct (funnelData checkoutDone !! "signup") as [fd|] eqn:Hfd;
      [vm_compute in Hfd; discriminate Hfd|].
    exact (proj1 H).
Defined.

End ExportExamples.

(** * Profiles: what the counters count *)

Section ProfileFacts.
Import JS Persona PersonaSpec PersonaRuns.

Variable StringToNumber : string -> jsnum.
Variable ToString : jsval -> string.

Implicit Types (pa : PersonaAnalyzer) (u : userProfile) (s : session) (e : event)
  (ε : env) (l : counts).

Lemma sumOf_snoc (f : session -> Z) (ss : list session) s :
  sumOf f (ss ++ [s]) = sumOf f ss + f s.
Proof. unfold sumOf. by rewrite fold_left_app. Qed.

Lemma countEvents_snoc (f : event -> bool) (es : list event) e :
  countEvents f (es ++ [e]) = countEvents f es + (if f e then 1 else 0).
Proof.
  unfold countEvents. rewrite filter_app, length_app, filter_cons, filter_nil.
  destruct (f e); cbn; [rewrite decide_True by done|rewrite decide_False by done];
    cbn; lia.
Qed.

(** What the [switch] adds, by the type of the event. *)
Lemma switchOnType_spec e :
  dPageViews (switchOnType e) = (if hasType "pageview" e then 1 else 0)
  /\ dClicks (switchOnType e) = (if hasType "click" e then 1 else 0)
  /\ dConversions (switchOnType e) = (if isConversionEvent e then 1 else 0)
  /\ dForms (switchOnType e) = (if hasType "form_submit" e then 1 else 0).
Proof.
  unfold switchOnType, isConversionEvent, hasType.
  destruct (String.eqb_spec (ev_type e) "pageview") as [->|_]; [done|].
  destruct (String.eqb_spec (ev_type e) "click") as [->|_]; [done|].
  destruct (String.eqb_spec (ev_type e) "custom") as [->|_].
  { cbn. by destruct (isConversion e). }
  by destruct (String.eqb (ev_type e) "form_submit").
Qed.

Lemma logged_touch_new ε e : logged (touch e (switchOnType e) (newSession ε e)).
Proof.
  destruct (switchOnType_spec e) as (Hp & Hc & Hv & Hf).
  unfold logged. cbn -[countEvents]. rewrite Hp, Hc, Hv, Hf.
  change [e] with ([] ++ [e])%list. rewrite !countEvents_snoc. cbn.
  repeat split; try (by eexists); lia.
Qed.

Lemma logged_touch e s : logged s -> logged (touch e (switchOnType e) s).
Proof.
  intros (Hp & Hc & Hv & Hf & (first & Hfirst & Hstart) & _ & _).
  destruct (switchOnType_spec e) as (Hdp & Hdc & Hdv & Hdf).
  unfold logged. cbn. rewrite !countEvents_snoc, Hp, Hc, Hv, Hf, Hdp, Hdc, Hdv, Hdf.
  repeat split; try done.
  - exists first. split; [|done]. destruct (sess_events s); [done|]. done.
  - exists e. split; [|done]. by rewrite last_snoc.
Qed.

Lemma incr_keys k l :
  (incr k l).*1 = if bool_decide (k ∈ l.*1) then l.*1 else (l.*1 ++ [k])%list.
Proof.
  induction l as [|[k0 n0] rest IH]; cbn.
  - rewrite bool_decide_eq_false_2; [done|]. apply not_elem_of_nil.
  - destruct (String.eqb_spec k0 k) as [->|Hne]; cbn.
    + rewrite bool_decide_eq_true_2; [done|]. by left.
    + rewrite IH. case_bool_decide as Hin.
      * rewrite bool_decide_eq_true_2; [done|]. by right.
      * rewrite bool_decide_eq_false_2; [done|].
        intros Hin'. apply elem_of_cons in Hin' as [->|Hin']; done.
Qed.

Lemma incr_elem k l k' n' :
  (k', n') ∈ incr k l -> (k', n') ∈ l \/ n' = 1 \/ exists n, (k', n) ∈ l /\ n' = n + 1.
Proof.
  induction l as [|[k0 n0] rest IH]; cbn; intros Hin.
  - apply list_elem_of_singleton in Hin. inversion Hin. auto.
  - destruct (String.eqb k0 k).
    + apply elem_of_cons in Hin as [Hin|Hin].
      * inversion Hin; subst. right; right. exists n0. split; [by left|done].
      * left. by right.
    + apply elem_of_cons in Hin as [Hin|Hin].
      * inversion Hin; subst. left. by left.
      * destruct (IH Hin) as [H|[H|(n & H & ->)]]; [left; by right|auto|].
        right; right. exists n. split; [by right|done].
Qed.

Lemma incr_tidy k l : tidy l -> tidy (incr k l).
Proof.
  intros [Hnd Hpos]. split.
  - rewrite incr_keys. case_bool_decide; [done|].
    apply NoDup_app. split; [done|]. split; [|apply NoDup_singleton].
    intros x Hx Hx'. apply list_elem_of_singleton in Hx'. by subst x.
  - intros k' n' Hin. apply incr_elem in Hin as [H|[->|(n & H & ->)]].
    + by apply (Hpos k').
    + lia.
    + specialize (Hpos k' n H). lia.
Qed.

(** The fields of the metrics [updateUserProfile] leaves to the
    [switch]. *)
Lemma metrics_after e (m : userMetrics) (d : Z) :
  let m3 := set_totalDuration d
              match ev_device e with
              | Some dev =>
                  updateDeviceMetrics dev
                    (if String.eqb (ev_type e) "pageview"
                     then updatePageMetrics e (bump (switchOnType e) m)
                     else bump (switchOnType e) m)
              | None =>
                  if String.eqb (ev_type e) "pageview"
                  then updatePageMetrics e (bump (switchOnType e) m)
                  else bump (switchOnType e) m
              end in
  totalPageViews m3 = totalPageViews m + dPageViews (switchOnType e)
  /\ totalClicks m3 = totalClicks m + dClicks (switchOnType e)
  /\ conversionEvents m3 = conversionEvents m + dConversions (switchOnType e)
  /\ (tidy (deviceTypes m) -> tidy (deviceTypes m3))
  /\ (tidy (browsers m) -> tidy (browsers m3)).
Proof.
  cbn zeta.
  destruct (ev_device e); destruct (String.eqb (ev_type e) "pageview"); cbn;
    (split; [done|split; [done|split; [done|split; intros Ht; auto using incr_tidy]]]).
Qed.

(** The profile after [updateUserProfile], by the three ways the session
    in progress is found. *)
Lemma updateUserProfile_cases ε u e :
  let d := switchOnType e in
  exists m3 before session,
    updateUserProfile ε u e
    = {| u_id := u_id u; firstSeen := firstSeen u; lastSeen := ev_timestamp e;
         sessions := before; currentSession := Some (touch e d session);
         personas := personas u; metrics := m3 |}
    /\ totalPageViews m3 = totalPageViews (metrics u) + dPageViews d
    /\ totalClicks m3 = totalClicks (metrics u) + dClicks d
    /\ conversionEvents m3 = conversionEvents (metrics u) + dConversions d
    /\ (tidy (deviceTypes (metrics u)) -> tidy (deviceTypes m3))
    /\ (tidy (browsers (metrics u)) -> tidy (browsers m3))
    /\ ((currentSession u = Some session /\ isNewSession session e = false
         /\ before = sessions u)
        \/ (session = newSession ε e
            /\ before = (sessions u ++ option_list (currentSession u))%list
            /\ forall s, currentSession u = Some s -> isNewSession s e = true)).
Proof.
  cbn zeta. unfold updateUserProfile.
  set (u1 := set_lastSeen (ev_timestamp e) u).
  set (u2 := match currentSession u1 with
             | Some s => if isNewSession s e then startNewSession ε u1 e else u1
             | None => startNewSession ε u1 e
             end).
  assert (totalPageViews (metrics u2) = totalPageViews (metrics u)
          /\ totalClicks (metrics u2) = totalClicks (metrics u)
          /\ conversionEvents (metrics u2) = conversionEvents (metrics u)
          /\ deviceTypes (metrics u2) = deviceTypes (metrics u)
          /\ browsers (metrics u2) = browsers (metrics u)
          /\ u_id u2 = u_id u /\ firstSeen u2 = firstSeen u
          /\ lastSeen u2 = ev_timestamp e /\ personas u2 = personas u)
    as (Hm1 & Hm2 & Hm3 & Hm4 & Hm5 & Hid & Hfs & Hls & Hps).
  { unfold u2, u1. cbn. destruct (currentSession u) as [s|]; [|done].
    by destruct (isNewSession s e). }
  destruct (metrics_after e (metrics u2) (sumDurations (sessions u2)))
    as (Ht1 & Ht2 & Ht3 & Ht4 & Ht5).
  cbn zeta in Ht1, Ht2, Ht3, Ht4, Ht5.
  eexists _, (sessions u2), (default (newSession ε e) (currentSession u2)).
  split; [unfold set_current; by rewrite Hid, Hfs, Hls, Hps|].
  rewrite Ht1, Ht2, Ht3, Hm1, Hm2, Hm3.
  split; [done|]. split; [done|]. split; [done|].
  split; [intros Ht; apply Ht4; by rewrite Hm4|].
  split; [intros Ht; apply Ht5; by rewrite Hm5|].
  unfold u2, u1. cbn. destruct (currentSession u) as [s|] eqn:Hcur; cbn.
  - destruct (isNewSession s e) eqn:Hnew; cbn; rewrite ?Hcur; cbn.
    + right. split; [done|]. split; [done|]. by intros s0 [= <-].
    + by left.
  - right. split; [done|]. split; [by rewrite Hcur, app_nil_r|]. done.
Qed.

Lemma updateUserProfile_kept ε u e : kept u -> kept (updateUserProfile ε u e).
Proof.
  intros ((Hp & Hc & Hv) & Hlog & Hdev & Hbro).
  destruct (updateUserProfile_cases ε u e)
    as (m3 & before & session & -> & Ht1 & Ht2 & Ht3 & Ht4 & Ht5 & Hcase).
  cbn zeta in *.
  unfold kept, summed, allSessions in *.
  cbn [currentSession sessions metrics].
  change (option_list (Some (touch e (switchOnType e) session)))
    with [touch e (switchOnType e) session].
  rewrite Ht1, Ht2, Ht3, Hp, Hc, Hv, !sumOf_snoc.
  cbn [touch pageViews clicks conversions].
  destruct Hcase as [(Hcur & _ & ->)|(-> & -> & _)].
  - rewrite Hcur in *. change (option_list (Some session)) with [session] in *.
    rewrite !sumOf_snoc.
    split; [repeat split; lia|]. split; [|by auto].
    intros s Hs. apply elem_of_app in Hs as [Hs|Hs].
    + apply Hlog. apply elem_of_app. by left.
    + apply list_elem_of_singleton in Hs. subst s. apply logged_touch.
      apply Hlog. apply elem_of_app. right. by apply list_elem_of_singleton.
  - split; [cbn; repeat split; lia|]. split; [|by auto].
    intros s Hs. apply elem_of_app in Hs as [Hs|Hs].
    + by apply Hlog.
    + apply list_elem_of_singleton in Hs. subst s. apply logged_touch_new.
Qed.

Lemma kept_set_personas (a : list assignment) u : kept u -> kept (set_personas a u).
Proof. done. Qed.

Lemma kept_create ε uid : kept (createUserProfile ε uid).
Proof.
  split; [done|]. split; [|split; (split; [constructor|]);
                            intros k n Hin; by apply elem_of_nil in Hin].
  intros s Hs. by apply elem_of_nil in Hs.
Qed.

(** The analysis changes the profile it works on in its list of
    personas, and no other profile. *)
Lemma analyzeUserPersona_users ε uid pa k u' :
  users (analyzeUserPersona StringToNumber ToString ε uid pa).1 !! k = Some u' ->
  exists u a, users pa !! k = Some u /\ u' = set_personas a u.
Proof.
  destruct (users pa !! uid) as [u|] eqn:Hu.
  - destruct (decide (k = uid)) as [->|Hne].
    + destruct (analyzeUserPersona_activity StringToNumber ToString ε uid pa u Hu)
        as [a Ha].
      rewrite Ha. intros [= <-]. by exists u, a.
    + unfold analyzeUserPersona. rewrite Hu.
      destruct (forEach _ _ _) as [σ [|x]]; cbn.
      * destruct (revoke _ _ _ _) as [[kept' segs] [|x]]; cbn;
          rewrite lookup_insert_ne by done; intros Hk;
          exists u', (personas u'); (split; [done|by destruct u']).
      * rewrite lookup_insert_ne by done. intros Hk.
        exists u', (personas u'). split; [done|by destruct u'].
  - unfold analyzeUserPersona. rewrite Hu. cbn. intros Hk.
    exists u', (personas u'). split; [done|by destruct u'].
Qed.

Lemma reachable_kept pa :
  reachable StringToNumber ToString pa ->
  forall k u, users pa !! k = Some u -> kept u.
Proof.
  induction 1 as [|pa id config _ IH|pa ε uid e _ IH|pa ε _ IH]; intros k u Hk.
  - cbn in Hk. by rewrite lookup_empty in Hk.
  - cbn in Hk. by apply (IH k).
  - unfold addUserEvent in Hk. apply analyzeUserPersona_users in Hk as (u0 & a & Hk & ->).
    apply kept_set_personas. cbn in Hk.
    destruct (decide (uid = k)) as [->|Hne].
    + rewrite lookup_insert_eq in Hk. inversion Hk; subst u0.
      apply updateUserProfile_kept.
      destruct (users pa !! k) as [u1|] eqn:Hu1; cbn; [by apply (IH k)|].
      apply kept_create.
    + rewrite lookup_insert_ne in Hk by done. by apply (IH k).
  - cbn in Hk. by apply (IH k).
Qed.

(** A key of a tidy table counts what its entry says; a key that is not
    in the table counts 0. *)
Lemma count_elem k n l : NoDup l.*1 -> (k, n) ∈ l -> count k l = n.
Proof.
  induction l as [|[k0 n0] rest IH]; cbn; intros Hnd Hin.
  - by apply elem_of_nil in Hin.
  - apply NoDup_cons in Hnd as [Hk0 Hnd].
    apply elem_of_cons in Hin as [Hin|Hin].
    + inversion Hin; subst. by rewrite String.eqb_refl.
    + destruct (String.eqb_spec k0 k) as [->|_]; [|by apply IH].
      exfalso. apply Hk0. apply list_elem_of_fmap. by exists (k, n).
Qed.

Lemma count_absent k l : k ∉ l.*1 -> count k l = 0.
Proof.
  induction l as [|[k0 n0] rest IH]; cbn; intros Hout; [done|].
  destruct (String.eqb_spec k0 k) as [->|_].
  - exfalso. apply Hout. by left.
  - apply IH. intros Hin. apply Hout. by right.
Qed.

(** The loop of [getMostFrequentDevice]: the count it holds is the
    greatest seen, and it belongs to the key it holds. *)
Lemma mostFrequent_fold l (acc : Z * string) :
  let r := fold_left
             (fun acc entry =>
                if (fst acc <? snd entry)%Z then (snd entry, fst entry) else acc)
             l acc in
  fst acc <= fst r
  /\ (forall k n, (k, n) ∈ l -> n <= fst r)
  /\ (r = acc \/ (snd r, fst r) ∈ l).
Proof.
  revert acc. induction l as [|[k n] rest IH]; intros acc; cbn zeta; cbn [fold_left].
  - split; [lia|]. split; [|by left]. intros k n Hin. by apply elem_of_nil in Hin.
  - cbn [fst snd].
    destruct (Z.ltb_spec (fst acc) n) as [Hlt|Hge].
    + destruct (IH (n, k)) as (H1 & H2 & H3). cbn [fst snd] in H1.
      split; [lia|]. split.
      * intros k' n' Hin. apply elem_of_cons in Hin as [Hin|Hin].
        -- inversion Hin; subst. done.
        -- by apply (H2 k').
      * right. destruct H3 as [->|H3]; [by left|by right].
    + destruct (IH acc) as (H1 & H2 & H3).
      split; [lia|]. split.
      * intros k' n' Hin. apply elem_of_cons in Hin as [Hin|Hin].
        -- inversion Hin; subst. lia.
        -- by apply (H2 k').
      * destruct H3 as [H3|H3]; [by left|right; by right].
Qed.

End ProfileFacts.

(** ** The persona analyzer: profiles, sessions and devices *)

Section ProfileExtras.
Import JS Persona PersonaSpec PersonaRuns PersonaExamples PersonaRunsExamples.

Implicit Types (pa : PersonaAnalyzer) (u : userProfile) (s : session) (e : event)
  (ε : env).

Lemma reachable_addUserEvents StringToNumber ToString l pa :
  reachable StringToNumber ToString pa ->
  reachable StringToNumber ToString (addUserEvents StringToNumber ToString l pa).
Proof.
  unfold addUserEvents. revert pa.
  induction l as [|[[ε uid] e] l IH]; intros pa Hpa; [done|].
  cbn [fold_left]. apply IH. by constructor.
Qed.

Lemma reachable_engaged : reachable hostNumber hostString engaged.
Proof. apply reachable_addUserEvents. constructor. Qed.

Lemma reachable_lapsed : reachable hostNumber hostString lapsed.
Proof. apply reachable_addUserEvents, reachable_engaged. Qed.

Lemma reachable_roaming : reachable hostNumber hostString roaming.
Proof. apply reachable_addUserEvents. constructor. Qed.

(** X11. After any run of the analyzer, the counters of a profile are
    sums over all its sessions, the session in progress included:
    [totalPageViews], [totalClicks] and [conversionEvents] are the sums
    of [pageViews], [clicks] and [conversions] of the sessions (unlike
    [totalDuration], which leaves the session in progress out). *)
Theorem profile_totals_sum_sessions StringToNumber ToString pa uid u :
  reachable StringToNumber ToString pa ->
  users pa !! uid = Some u ->
  totalPageViews (metrics u) = sumOf pageViews (allSessions u)
  /\ totalClicks (metrics u) = sumOf clicks (allSessions u)
  /\ conversionEvents (metrics u) = sumOf conversions (allSessions u).
Proof.
  intros Hreach Hu.
  by destruct (reachable_kept StringToNumber ToString pa Hreach uid u Hu) as [Hsum _].
Qed.

Lemma profile_totals_sum_sessions_witness :
  length (allSessions (profileOf lapsed)) = 2%nat
  /\ totalClicks (metrics (profileOf lapsed)) = 65
  /\ totalPageViews (metrics (profileOf lapsed))
     = sumOf pageViews (allSessions (profileOf lapsed))
  /\ totalClicks (metrics (profileOf lapsed))
     = sumOf clicks (allSessions (profileOf lapsed))
  /\ conversionEvents (metrics (profileOf lapsed))
     = sumOf conversions (allSessions (profileOf lapsed)).
Proof.
  split; [vm_compute; reflexivity|]. split; [vm_compute; reflexivity|].
  apply (profile_totals_sum_sessions hostNumber hostString lapsed "u1" (profileOf lapsed)).
  - exact reachable_lapsed.
  - vm_compute. reflexivity.
Defined.

(** X12. After any run of the analyzer, the counters and the times of
    every session of a profile, archived or in progress, are those of the
    events on its list: [pageViews], [clicks] and [formSubmissions] count
    the events of these types, [conversions] the custom events whose name
    includes "conversion"; the session starts at its first event, its
    last activity is its last event, and its duration is the time
    between the two. *)
Theorem session_counters_count_events StringToNumber ToString pa uid u s :
  reachable StringToNumber ToString pa ->
  users pa !! uid = Some u ->
  s ∈ allSessions u ->
  pageViews s = countEvents (hasType "pageview") (sess_events s)
  /\ clicks s = countEvents (hasType "click") (sess_events s)
  /\ conversions s = countEvents isConversionEvent (sess_events s)
  /\ formSubmissions s = countEvents (hasType "form_submit") (sess_events s)
  /\ (exists first, head (sess_events s) = Some first /\ startTime s = ev_timestamp first)
  /\ (exists final, last (sess_events s) = Some final /\ lastActivity s = ev_timestamp final)
  /\ duration s = lastActivity s - startTime s.
Proof.
  intros Hreach Hu Hs.
  destruct (reachable_kept StringToNumber ToString pa Hreach uid u Hu) as (_ & Hlog & _).
  exact (Hlog s Hs).
Qed.

Lemma session_counters_count_events_witness :
  let s := sessionOf engaged in
  length (sess_events s) = 66%nat
  /\ pageViews s = countEvents (hasType "pageview") (sess_events s)
  /\ clicks s = countEvents (hasType "click") (sess_events s)
  /\ conversions s = countEvents isConversionEvent (sess_events s)
  /\ formSubmissions s = countEvents (hasType "form_submit") (sess_events s)
  /\ (exists first, head (sess_events s) = Some first /\ startTime s = ev_timestamp first)
  /\ (exists final, last (sess_events s) = Some final /\ lastActivity s = ev_timestamp final)
  /\ duration s = lastActivity s - startTime s.
Proof.
  cbn zeta. split; [vm_compute; reflexivity|].
  apply (session_counters_count_events hostNumber hostString engaged "u1"
           (profileOf engaged) (sessionOf engaged)).
  - exact reachable_engaged.
  - vm_compute. reflexivity.
  - unfold allSessions. apply elem_of_app. right.
    assert (currentSession (profileOf engaged) = Some (sessionOf engaged)) as ->
      by (vm_compute; reflexivity).
    apply list_elem_of_singleton. reflexivity.
Defined.

(** X13. The session in progress goes on when the event comes at most
    30 minutes (1800000 ms) after its last activity, the bound included:
    the event is added to its list and no session is archived. An event
    that comes later archives the session as it is and starts a new one
    with the event as its only event, under a new identifier, and
    [totalSessions] grows by one. *)
Theorem session_timeout_boundary ε u e s :
  currentSession u = Some s ->
  let u' := updateUserProfile ε u e in
  (ev_timestamp e - lastActivity s <= 1800000 ->
     sessions u' = sessions u
     /\ totalSessions (metrics u') = totalSessions (metrics u)
     /\ exists s', currentSession u' = Some s'
          /\ sess_id s' = sess_id s /\ startTime s' = startTime s
          /\ sess_events s' = (sess_events s ++ [e])%list)
  /\ (1800000 < ev_timestamp e - lastActivity s ->
        sessions u' = (sessions u ++ [s])%list
        /\ totalSessions (metrics u') = totalSessions (metrics u) + 1
        /\ exists s', currentSession u' = Some s'
             /\ sess_id s' = freshSessionId ε /\ startTime s' = ev_timestamp e
             /\ sess_events s' = [e] /\ duration s' = 0).
Proof.
  intros Hcur. cbn zeta. unfold updateUserProfile. cbn [currentSession set_lastSeen].
  rewrite Hcur. unfold isNewSession, SESSION_TIMEOUT.
  destruct (Z.ltb_spec 1800000 (ev_timestamp e - lastActivity s)) as [Hlt|Hle].
  - split; [lia|]. intros _. cbn. rewrite Hcur.
    split; [done|]. split.
    + by destruct (ev_device e); destruct (String.eqb (ev_type e) "pageview").
    + eexists. split; [done|]. cbn. repeat split. lia.
  - split; [|lia]. intros _. cbn. rewrite Hcur. cbn.
    split; [done|]. split.
    + by destruct (ev_device e); destruct (String.eqb (ev_type e) "pageview").
    + eexists. split; [done|]. by cbn.
Qed.

Lemma session_timeout_boundary_witness :
  let u := profileOf engaged in
  let s := sessionOf engaged in
  let e := (click (311000 + 1800000)).2 in
  let u' := updateUserProfile (at_ 2111000) u e in
  ev_timestamp e - lastActivity s = 1800000
  /\ sessions u' = sessions u
  /\ totalSessions (metrics u') = totalSessions (metrics u)
  /\ exists s', currentSession u' = Some s'
       /\ sess_id s' = sess_id s /\ startTime s' = startTime s
       /\ sess_events s' = (sess_events s ++ [e])%list.
Proof.
  cbn zeta. split; [vm_compute; reflexivity|].
  apply (session_timeout_boundary (at_ 2111000) (profileOf engaged)
           (click (311000 + 1800000)).2 (sessionOf engaged)).
  - vm_compute. reflexivity.
  - vm_compute. intros H. discriminate H.
Defined.

(** The device type [getMostFrequentDevice] returns has the greatest
    counter of the profile, and is ["desktop"] when there is none. *)
Lemma mostFrequentDevice_counts StringToNumber ToString pa uid u :
  reachable StringToNumber ToString pa ->
  users pa !! uid = Some u ->
  (forall d, count d (deviceTypes (metrics u))
             <= count (getMostFrequentDevice u) (deviceTypes (metrics u)))
  /\ (deviceTypes (metrics u) = [] -> getMostFrequentDevice u = "desktop").
Proof.
  intros Hreach Hu.
  destruct (reachable_kept StringToNumber ToString pa Hreach uid u Hu)
    as (_ & _ & [Hnd Hpos] & _).
  split; [|by (unfold getMostFrequentDevice; intros ->)].
  unfold getMostFrequentDevice.
  destruct (mostFrequent_fold (deviceTypes (metrics u)) (0, "desktop")) as (H0 & Hmax & Hr).
  cbn zeta in H0, Hmax, Hr. cbn [fst snd] in H0.
  set (r := fold_left _ (deviceTypes (metrics u)) (0, "desktop")) in *.
  assert (forall d, count d (deviceTypes (metrics u)) <= fst r) as Hle.
  { intros d. destruct (decide (d ∈ (deviceTypes (metrics u)).*1)) as [Hin|Hout].
    - apply list_elem_of_fmap in Hin as ([k n] & -> & Hin). cbn.
      rewrite (count_elem k n) by done. by apply (Hmax k).
    - rewrite count_absent by done. lia. }
  intros d. destruct Hr as [Hr|Hr].
  - rewrite Hr in Hle |- *. cbn [fst snd] in *.
    destruct (deviceTypes (metrics u)) as [|[k n] rest] eqn:Hl; [done|].
    specialize (Hpos k n ltac:(left)). specialize (Hmax k n ltac:(left)).
    rewrite Hr in Hmax. cbn in Hmax. lia.
  - rewrite (count_elem (snd r) (fst r)) by done. apply Hle.
Qed.

End ProfileExtras.

(** * Matching and assignment of personas *)

Section LoopReaches.
Import JS.
Context {A St : Type}.

(** In a loop that ends normally every round has run: what a round
    establishes, and the later rounds keep, holds at the end. *)
Lemma forEach_reaches (P Q : St -> Prop) (f : A -> St -> St * completion)
    (l : list A) (s : St) (x0 : A) :
  x0 ∈ l ->
  (forEach f l s).2 = Normal ->
  P s ->
  (forall x s, x ∈ l -> P s -> P (f x s).1) ->
  (forall s, P s -> Q (f x0 s).1) ->
  (forall x s, Q s -> Q (f x s).1) ->
  Q (forEach f l s).1.
Proof.
  revert s. induction l as [|x l IH]; intros s Hin Hn Hs HP Hx0 HQ.
  - by apply elem_of_nil in Hin.
  - cbn [forEach] in *.
    pose proof (HP x s ltac:(left) Hs) as Hx.
    pose proof (Hx0 s Hs) as Hq.
    apply elem_of_cons in Hin as [->|Hin].
    + destruct (f x s) as [s' [|err]]; [|done].
      apply forEach_invariant; [done|]. intros y t _. apply HQ.
    + destruct (f x s) as [s' [|err]]; [|done].
      apply IH; [done..| |done|done]. intros y t Hy. apply HP. by right.
Qed.

End LoopReaches.

Section Matching.
Import JS Persona PersonaSpec PersonaRuns.

Variable StringToNumber : string -> jsnum.
Variable ToString : jsval -> string.

Implicit Types (pa : PersonaAnalyzer) (u : userProfile) (p : persona) (ε : env)
  (σ : astate).

(** *** Comparisons of integers *)

Lemma Qcompare_inject_Z (a b : Z) : (inject_Z a ?= inject_Z b)%Q = (a ?= b)%Z.
Proof. unfold Qcompare, inject_Z. cbn. by rewrite !Z.mul_1_r. Qed.

Lemma numLess_num (a b : Z) : numLess (num a) (num b) = Some (a <? b)%Z.
Proof.
  unfold numLess, num. rewrite Qcompare_inject_Z. unfold Z.ltb.
  by destruct (a ?= b)%Z.
Qed.

Lemma gt_vnum (a b : Z) : gt StringToNumber ToString (vnum a) (vnum b) = (b <? a)%Z.
Proof. unfold gt, IsLessThan, vnum. cbn [ToPrimitive ToNumber]. by rewrite numLess_num. Qed.

Lemma lt_vnum (a b : Z) : lt StringToNumber ToString (vnum a) (vnum b) = (a <? b)%Z.
Proof. unfold lt, IsLessThan, vnum. cbn [ToPrimitive ToNumber]. by rewrite numLess_num. Qed.

Lemma ge_vnum (a b : Z) : ge StringToNumber ToString (vnum a) (vnum b) = (b <=? a)%Z.
Proof.
  unfold ge, IsLessThan, vnum. cbn [ToPrimitive ToNumber]. rewrite numLess_num.
  destruct (Z.ltb_spec a b), (Z.leb_spec b a); (done || lia).
Qed.

Lemma le_vnum (a b : Z) : le StringToNumber ToString (vnum a) (vnum b) = (a <=? b)%Z.
Proof.
  unfold le, IsLessThan, vnum. cbn [ToPrimitive ToNumber]. rewrite numLess_num.
  destruct (Z.ltb_spec b a), (Z.leb_spec a b); (done || lia).
Qed.

Lemma sessionField_inSession (field : session -> Z) u :
  sessionField field u = vnum (inSession field u).
Proof. unfold sessionField, inSession. by destruct (currentSession u). Qed.

(** *** What the built-in personas ask for *)

Lemma powerUser_criteria u :
  userMatchesPersona StringToNumber ToString u powerUser
  = Return ((10 <? inSession pageViews u)%Z && (300000 <? inSession duration u)%Z
            && (50 <? inSession clicks u)%Z).
Proof.
  unfold userMatchesPersona, powerUser, evaluateRule.
  cbn -[gt lt ge le sessionField].
  rewrite !sessionField_inSession, !gt_vnum.
  by destruct (10 <? _)%Z, (300000 <? _)%Z, (50 <? _)%Z.
Qed.

Lemma casualUser_criteria u :
  userMatchesPersona StringToNumber ToString u casualUser
  = Return ((3 <=? inSession pageViews u)%Z && (inSession pageViews u <=? 10)%Z
            && (60000 <=? inSession duration u)%Z
            && (inSession duration u <=? 300000)%Z).
Proof.
  unfold userMatchesPersona, casualUser, evaluateRule.
  cbn -[gt lt ge le sessionField].
  rewrite !sessionField_inSession, !ge_vnum, !le_vnum.
  by destruct (3 <=? _)%Z, (_ <=? 10)%Z, (60000 <=? _)%Z, (_ <=? 300000)%Z.
Qed.

Lemma bouncer_criteria u :
  userMatchesPersona StringToNumber ToString u bouncer
  = Return ((inSession pageViews u <=? 1)%Z && (inSession duration u <? 30000)%Z).
Proof.
  unfold userMatchesPersona, bouncer, evaluateRule.
  cbn -[gt lt ge le sessionField].
  rewrite !sessionField_inSession, le_vnum, lt_vnum.
  by destruct (_ <=? 1)%Z, (_ <? 30000)%Z.
Qed.

Lemma converter_criteria u :
  userMatchesPersona StringToNumber ToString u converter = Return (0 <? inSession conversions u)%Z.
Proof.
  unfold userMatchesPersona, converter, evaluateRule.
  cbn -[gt lt ge le sessionField].
  rewrite !sessionField_inSession, gt_vnum. unfold inSession.
  destruct (currentSession u) as [s|]; [|done].
  by destruct (0 <? conversions s)%Z.
Qed.

(** *** The loop of [analyzeUserPersona] *)

Lemma assign_looping ε ps u p σ :
  p ∈ ps -> looping StringToNumber ToString ps u σ ->
  looping StringToNumber ToString ps u
    (assign StringToNumber ToString ε (list_to_set (map as_id (personas u))) p σ).1.
Proof.
  intros Hp Hσ. pose proof Hσ as ([l Hl] & Hold & Hnew & Hex). unfold assign.
  rewrite Hl, userMatchesPersona_set_personas, <- Hl.
  destruct (userMatchesPersona StringToNumber ToString u p) as [[|]|x] eqn:Hm;
    [|exact Hσ..].
  assert (forall pid, pid ∈ a_new σ ∪ {[p_id p]} ->
            exists q, q ∈ ps /\ p_id q = pid /\ userMatchesPersona StringToNumber ToString u q = Return true) as Hex'.
  { intros pid [Hin| ->%elem_of_singleton]%elem_of_union; [by apply Hex|].
    by exists p. }
  destruct (decide (p_id p ∈ _)) as [Hin|Hout]; cbn.
  - split; [by exists l|]. split; [done|]. split; [|done].
    intros pid [Hpid| ->%elem_of_singleton]%elem_of_union; [by apply Hnew|].
    apply Hold. by apply elem_of_list_to_set in Hin.
  - assert (forall pid, assigned (a_user σ) pid \/ pid = p_id p ->
              assigned
                (set_personas
                   (personas (a_user σ)
                    ++ [{| as_id := p_id p; assignedAt := now ε;
                           confidence :=
                             calculatePersonaConfidence StringToNumber ToString
                               (a_user σ) p |}]) (a_user σ)) pid) as Hpush.
    { intros pid Hpid. by apply assigned_push. }
    assert (exists l', set_personas
                         (personas (a_user σ)
                          ++ [{| as_id := p_id p; assignedAt := now ε;
                                 confidence :=
                                   calculatePersonaConfidence StringToNumber ToString
                                     (a_user σ) p |}]) (a_user σ)
                       = set_personas l' u) as Hl'.
    { rewrite Hl. by eexists. }
    destruct (a_segments σ !! p_id p); cbn;
      (split; [done|]; split; [intros pid Hpid; apply Hpush; left; by apply Hold|];
       split; [|done];
       intros pid [Hpid| ->%elem_of_singleton]%elem_of_union;
         apply Hpush; [left; by apply Hnew|by right]).
Qed.

Lemma assign_new_grows ε current p σ pid :
  pid ∈ a_new σ -> pid ∈ a_new (assign StringToNumber ToString ε current p σ).1.
Proof.
  intros Hin. unfold assign.
  destruct (userMatchesPersona _ _ _ p) as [[|]|x]; [|done..].
  assert (pid ∈ a_new σ ∪ {[p_id p]}) by (apply elem_of_union; by left).
  destruct (decide _); [done|]. by destruct (a_segments σ !! p_id p).
Qed.

Lemma assign_new_matched ε ps u p σ :
  looping StringToNumber ToString ps u σ -> userMatchesPersona StringToNumber ToString u p = Return true ->
  p_id p ∈ a_new
    (assign StringToNumber ToString ε (list_to_set (map as_id (personas u))) p σ).1.
Proof.
  intros ([l Hl] & _) Hm. unfold assign.
  rewrite Hl, userMatchesPersona_set_personas, Hm.
  assert (p_id p ∈ a_new σ ∪ {[p_id p]})
    by (apply elem_of_union; right; by apply elem_of_singleton).
  destruct (decide _); [done|]. by destruct (a_segments σ !! p_id p).
Qed.

(** After an analysis that ends normally, the personas on the list of
    the profile are those of the configuration that the profile
    matches. *)
Lemma analyzeUserPersona_exact ε uid pa u :
  consistent pa ->
  users pa !! uid = Some u ->
  (analyzeUserPersona StringToNumber ToString ε uid pa).2 = Normal ->
  exists u',
    users (analyzeUserPersona StringToNumber ToString ε uid pa).1 !! uid = Some u'
    /\ forall pid,
         assigned u' pid
         <-> exists p, p ∈ config_personas pa /\ p_id p = pid
               /\ userMatchesPersona StringToNumber ToString u p = Return true.
Proof.
  intros Hc Hu Hn.
  destruct (analyzeUserPersona_unfold StringToNumber ToString ε uid pa u Hc Hu) as [_ Hr].
  cbn zeta in Hr.
  set (σ0 := {| a_user := u; a_segments := segments pa; a_new := ∅ |}) in *.
  set (current := list_to_set (map as_id (personas u)) : gset string) in *.
  assert (looping StringToNumber ToString (config_personas pa) u σ0) as H0.
  { split; [exists (personas u); by destruct u|]. split; [done|].
    split; intros pid Hin; by apply elem_of_empty in Hin. }
  pose proof (forEach_invariant (looping StringToNumber ToString (config_personas pa) u)
    (assign StringToNumber ToString ε current) (config_personas pa) σ0 H0
    (fun p σ Hp Hσ => assign_looping ε (config_personas pa) u p σ Hp Hσ)) as Hloop.
  pose proof (fun p (Hp : p ∈ config_personas pa) (Hm : userMatchesPersona StringToNumber ToString u p = Return true) Hnorm =>
    forEach_reaches (looping StringToNumber ToString (config_personas pa) u) (fun σ => p_id p ∈ a_new σ)
      (assign StringToNumber ToString ε current) (config_personas pa) σ0 p Hp Hnorm H0
      (fun q σ Hq Hσ => assign_looping ε (config_personas pa) u q σ Hq Hσ)
      (fun σ Hσ => assign_new_matched ε (config_personas pa) u p σ Hσ Hm)
      (fun q σ Hσ => assign_new_grows ε current q σ (p_id p) Hσ)) as Hreach.
  destruct (forEach _ _ σ0) as [σ c]. cbn in Hr, Hloop, Hreach.
  destruct c as [|x].
  2:{ rewrite Hr in Hn. discriminate Hn. }
  destruct Hr as [segs' Hr]. rewrite Hr. cbn.
  rewrite lookup_insert_eq. eexists. split; [done|].
  destruct Hloop as (_ & _ & Hnew & Hex).
  intros pid. unfold assigned. cbn. split.
  - intros Hin. apply list_elem_of_fmap in Hin as (a & -> & Ha).
    apply list_elem_of_filter in Ha as [Ha _]. by apply Hex.
  - intros (p & Hp & <- & Hm). specialize (Hreach p Hp Hm eq_refl).
    specialize (Hnew _ Hreach). unfold assigned in Hnew.
    apply list_elem_of_fmap in Hnew as (a & Heq & Ha).
    apply list_elem_of_fmap. exists a. split; [done|].
    apply list_elem_of_filter. split; [by rewrite <- Heq|done].
Qed.

End Matching.

(** ** The persona analyzer: assignment, confidence and segments *)

Section ConfidenceFacts.
Import JS Persona PersonaSpec PersonaRuns.

Variable StringToNumber : string -> jsnum.
Variable ToString : jsval -> string.

Implicit Types (u : userProfile) (p : persona) (r : rule).

(** A rule with another operator than [>] and [=] scores 0. *)
Lemma ruleScore_unscored u r :
  ~ scored r -> ruleScore StringToNumber ToString u r = num 0.
Proof.
  intros Hns. unfold ruleScore.
  destruct (String.eqb_spec (operator r) ">") as [Heq|_].
  { exfalso. apply Hns. by left. }
  destruct (String.eqb_spec (operator r) "=") as [Heq|_]; [|done].
  exfalso. apply Hns. by right.
Qed.

(** The sum of scores that are all 0. *)
Lemma score_unscored u (rs : list rule) (q : Q) :
  (forall r, r ∈ rs -> ~ scored r) -> (q == 0)%Q ->
  exists q', fold_left (fun score r => add score (ruleScore StringToNumber ToString u r))
               rs (Fin q) = Fin q'
             /\ (q' == 0)%Q.
Proof.
  revert q. induction rs as [|r rs IH]; intros q Hall Hq; cbn [fold_left].
  - by exists q.
  - rewrite ruleScore_unscored by (apply Hall; by left). cbn [add num].
    apply IH; [intros r' Hr'; apply Hall; by right|].
    rewrite Hq. reflexivity.
Qed.

Lemma inject_Z_pos (z : Z) : 0 < z -> (0 < inject_Z z)%Q.
Proof. intros Hz. change 0%Q with (inject_Z 0). by rewrite <- Zlt_Qlt. Qed.

Lemma div_Fin_pos (q : Q) (n : Z) :
  0 < n -> div (Fin q) (num n) = Fin (q / inject_Z n).
Proof. intros Hn. destruct n as [|pn|pn]; [lia| |lia]. reflexivity. Qed.

(** The score of a rule [metric > r] that an integer metric [v]
    greater than [r > 0] satisfies. *)
Lemma ruleScore_greater u (m : string) (tf : option string) (v r : Z) :
  getUserMetric u m tf = vnum v -> 0 < r < v ->
  exists s, ruleScore StringToNumber ToString u
              {| metric := m; operator := ">"; value := vnum r; timeframe := tf |}
            = Fin s
            /\ (1 # 2 < s)%Q /\ (s <= 1)%Q.
Proof.
  intros Hv Hr. unfold ruleScore. cbn [metric operator value timeframe].
  rewrite Hv, gt_vnum. change (String.eqb ">" ">") with true.
  destruct (Z.ltb_spec r v) as [_|?]; [|lia]. cbn [andb].
  unfold vnum. cbn [ToNumber].
  assert (mul (num r) (num 2) = num (r * 2)) as ->.
  { unfold mul, num. by rewrite inject_Z_mult. }
  assert (div (num v) (num (r * 2)) = Fin (inject_Z v / inject_Z (r * 2))) as ->.
  { apply div_Fin_pos. lia. }
  assert (1 # 2 < inject_Z v / inject_Z (r * 2))%Q as Hhalf.
  { pose proof (inject_Z_pos r ltac:(lia)) as HR.
    assert (inject_Z r < inject_Z v)%Q as HV by (rewrite <- Zlt_Qlt; lia).
    rewrite inject_Z_mult. change (inject_Z 2) with 2%Q.
    apply Qlt_shift_div_l; lra. }
  unfold min, numLess, num.
  destruct (Qcompare_spec (inject_Z 1) (inject_Z v / inject_Z (r * 2)))
    as [Heq|Hlt|Hgt].
  - eexists. split; [done|]. split; [done|]. rewrite <- Heq. done.
  - eexists. split; [done|]. split; done.
  - eexists. split; [done|]. split; [done|]. by apply Qlt_le_weak.
Qed.

Lemma Qfloor_half (z : Z) : Qfloor (inject_Z z + (1 # 2)) = z.
Proof.
  apply Z.le_antisymm.
  - apply Z.lt_succ_r. rewrite Zlt_Qlt.
    eapply Qle_lt_trans; [apply Qfloor_le|].
    unfold Z.succ. rewrite inject_Z_plus. change (inject_Z 1) with 1%Q. lra.
  - rewrite <- (Qfloor_Z z) at 1. apply Qfloor_resp_le. lra.
Qed.

(** The confidence from the sum [q] of the scores of [n] rules. *)
Lemma round_percentage (q : Q) (n lo hi : Z) :
  0 < n ->
  (inject_Z lo * inject_Z n <= q * inject_Z 100)%Q ->
  (q * inject_Z 100 <= inject_Z hi * inject_Z n)%Q ->
  exists c, round (mul (div (Fin q) (num n)) (num 100)) = num c /\ lo <= c <= hi.
Proof.
  intros Hn Hlo Hhi. rewrite div_Fin_pos by done. cbn [mul num round].
  eexists. split; [reflexivity|].
  pose proof (inject_Z_pos n Hn) as HN.
  assert (q / inject_Z n * inject_Z 100 == (q * inject_Z 100) / inject_Z n)%Q as Heq.
  { field. intros H0. rewrite H0 in HN. by apply Qlt_irrefl in HN. }
  assert (inject_Z lo <= q / inject_Z n * inject_Z 100)%Q as H1.
  { rewrite Heq. by apply Qle_shift_div_l. }
  assert (q / inject_Z n * inject_Z 100 <= inject_Z hi)%Q as H2.
  { rewrite Heq. by apply Qle_shift_div_r. }
  split.
  - rewrite <- (Qfloor_Z lo). apply Qfloor_resp_le. lra.
  - rewrite <- (Qfloor_half hi). apply Qfloor_resp_le. lra.
Qed.

Lemma confidence_unscored u p :
  (forall r, r ∈ rules p -> ~ scored r) ->
  calculatePersonaConfidence StringToNumber ToString u p
  = match rules p with [] => NaN | _ => num 0 end.
Proof.
  intros Hall. unfold calculatePersonaConfidence.
  destruct (score_unscored u (rules p) (inject_Z 0) Hall ltac:(reflexivity))
    as (q & Hq & Hzero).
  change (num 0) with (Fin (inject_Z 0)) at 1. rewrite Hq.
  destruct (rules p) as [|r rs] eqn:Hrules.
  - cbn in Hq. inversion Hq; subst q. reflexivity.
  - destruct (round_percentage q (Z.of_nat (length (r :: rs))) 0 0) as (c & Hc & Hc0).
    + cbn [length]. lia.
    + rewrite Hzero. change (inject_Z 0) with 0%Q. lra.
    + rewrite Hzero. change (inject_Z 0) with 0%Q. lra.
    + rewrite Hc. f_equal. lia.
Qed.

Lemma powerUser_confidence_range u :
  userMatchesPersona StringToNumber ToString u powerUser = Return true ->
  exists c, calculatePersonaConfidence StringToNumber ToString u powerUser = num c
            /\ 50 <= c <= 100.
Proof.
  rewrite powerUser_criteria. intros [= Hm].
  apply andb_true_iff in Hm as [Hm Hcl]. apply andb_true_iff in Hm as [Hpv Hdu].
  apply Z.ltb_lt in Hpv, Hdu, Hcl.
  destruct (ruleScore_greater u "pageViews" (Some "session") (inSession pageViews u) 10)
    as (s1 & Hs1 & Hs1lo & Hs1hi);
    [by (cbn; rewrite sessionField_inSession)|lia|].
  destruct (ruleScore_greater u "sessionDuration" (Some "session")
              (inSession duration u) 300000)
    as (s2 & Hs2 & Hs2lo & Hs2hi);
    [by (cbn; rewrite sessionField_inSession)|lia|].
  destruct (ruleScore_greater u "clickCount" (Some "session") (inSession clicks u) 50)
    as (s3 & Hs3 & Hs3lo & Hs3hi);
    [by (cbn; rewrite sessionField_inSession)|lia|].
  unfold calculatePersonaConfidence, powerUser.
  cbn [rules mkPersona powerUserConfig default from_option cfg_rules].
  unfold id, mkRule. cbn [fold_left length].
  rewrite Hs1, Hs2, Hs3. cbn [add num].
  apply round_percentage; [done| |];
    change (inject_Z 0) with 0%Q; change (inject_Z 50) with 50%Q;
    change (inject_Z 100) with 100%Q; change (inject_Z (Z.of_nat 3)) with 3%Q; lra.
Qed.

Lemma converter_confidence_full u :
  userMatchesPersona StringToNumber ToString u converter = Return true ->
  calculatePersonaConfidence StringToNumber ToString u converter = num 100.
Proof.
  rewrite converter_criteria. intros [= Hm]. apply Z.ltb_lt in Hm.
  unfold inSession in Hm. destruct (currentSession u) as [s|] eqn:Hcur; [|lia].
  unfold calculatePersonaConfidence, converter.
  cbn [rules mkPersona converterConfig default from_option cfg_rules].
  unfold id, mkRule. cbn [fold_left length].
  assert (ruleScore StringToNumber ToString u
            {| metric := "conversionEvents"; operator := ">"; value := vnum 0;
               timeframe := Some "session" |} = num 1) as ->.
  { unfold ruleScore. cbn [metric operator value timeframe].
    assert (getUserMetric u "conversionEvents" (Some "session") = vnum (conversions s))
      as -> by (cbn; unfold sessionField; by rewrite Hcur).
    rewrite gt_vnum. destruct (Z.ltb_spec 0 (conversions s)) as [_|?]; [|lia].
    change (String.eqb ">" ">") with true. cbn [andb].
    unfold vnum. cbn [ToNumber].
    destruct (conversions s) as [|pc|pc] eqn:Hcv; [lia| |lia]. reflexivity. }
  assert (ruleScore StringToNumber ToString u
            {| metric := "funnelCompletion"; operator := "="; value := VBool true;
               timeframe := Some "session" |} = num 1) as ->.
  { unfold ruleScore. cbn [metric operator value timeframe].
    assert (getUserMetric u "funnelCompletion" (Some "session") = VBool true) as ->.
    { cbn. rewrite Hcur. by destruct (Z.ltb_spec 0 (conversions s)) as [_|?]; [|lia]. }
    reflexivity. }
  reflexivity.
Qed.

End ConfidenceFacts.

Section AssignmentClaims.
Import JS Persona PersonaSpec PersonaRuns PersonaAnalysis PersonaExamples
  PersonaRunsExamples.

Implicit Types (pa : PersonaAnalyzer) (u : userProfile) (p : persona) (ε : env).

(** The built-in personas are known by their identifiers. *)
Lemma builtin_by_id p :
  p ∈ config_personas create ->
  (p_id p = "power_user" -> p = powerUser)
  /\ (p_id p = "casual_user" -> p = casualUser)
  /\ (p_id p = "bouncer" -> p = bouncer).
Proof.
  intros Hp. cbn in Hp.
  repeat (apply elem_of_cons in Hp as [->|Hp]); [..|by apply elem_of_nil in Hp];
    repeat split; (done || (intros Hid; by vm_compute in Hid)).
Qed.

(** X15. After an analysis that ends normally, the personas on the list
    of the profile are the personas of the configuration that the profile
    matches: those that match are on the list, those that do not match
    are not. *)
Theorem analysis_lists_matching_personas StringToNumber ToString ε uid pa u :
  consistent pa ->
  users pa !! uid = Some u ->
  (analyzeUserPersona StringToNumber ToString ε uid pa).2 = Normal ->
  exists u',
    users (analyzeUserPersona StringToNumber ToString ε uid pa).1 !! uid = Some u'
    /\ forall pid,
         pid ∈ map as_id (personas u')
         <-> exists p, p ∈ config_personas pa /\ p_id p = pid
               /\ userMatchesPersona StringToNumber ToString u p = Return true.
Proof. apply analyzeUserPersona_exact. Qed.

Lemma analysis_lists_matching_personas_witness :
  exists u',
    users (analyzeUserPersona hostNumber hostString (at_ 311000) "u1" engaged).1 !! "u1"
      = Some u'
    /\ forall pid,
         pid ∈ map as_id (personas u')
         <-> exists p, p ∈ config_personas engaged /\ p_id p = pid
               /\ userMatchesPersona hostNumber hostString (profileOf engaged) p
                  = Return true.
Proof.
  apply (analysis_lists_matching_personas hostNumber hostString (at_ 311000) "u1"
           engaged (profileOf engaged)).
  - exact engaged_consistent.
  - vm_compute. reflexivity.
  - vm_compute. reflexivity.
Defined.

(** X16. In a consistent analyzer with the built-in personas only, a
    user is on at most one of the lists Power User, Casual User and
    Bouncer after [addUserEvent]: the three ask for more than 10, for 3 to
    10 and for at most 1 page view of the session in progress. *)
Theorem engagement_personas_exclusive StringToNumber ToString ε uid e pa u' :
  consistent pa ->
  config_personas pa = config_personas create ->
  users (addUserEvent StringToNumber ToString ε uid e pa).1 !! uid = Some u' ->
  ~ (assigned u' "power_user" /\ assigned u' "casual_user")
  /\ ~ (assigned u' "power_user" /\ assigned u' "bouncer")
  /\ ~ (assigned u' "casual_user" /\ assigned u' "bouncer").
Proof.
  intros Hc Hcfg Hu'. unfold addUserEvent in Hu'.
  set (u1 := updateUserProfile ε (default (createUserProfile ε uid) (users pa !! uid)) e)
    in *.
  set (pa1 := set_users (<[uid := u1]> (users pa)) pa) in *.
  assert (consistent pa1) as Hc1 by apply (updateUserProfile_consistent ε uid e pa Hc).
  assert (users pa1 !! uid = Some u1) as Hu1 by apply lookup_insert_eq.
  pose proof (analyzeUserPersona_defaults_normal StringToNumber ToString ε uid pa1 u1
                Hc1 Hcfg Hu1) as Hn.
  destruct (analyzeUserPersona_exact StringToNumber ToString ε uid pa1 u1 Hc1 Hu1 Hn)
    as (u'' & Hu'' & Hex).
  rewrite Hu' in Hu''. inversion Hu''; subst u''.
  assert (forall pid, assigned u' pid ->
            exists p, p ∈ config_personas create /\ p_id p = pid
              /\ userMatchesPersona StringToNumber ToString u1 p = Return true) as Hm.
  { intros pid Ha. apply Hex in Ha as (p & Hp & Hid & Hm). exists p.
    split; [|done]. by rewrite <- Hcfg. }
  assert (assigned u' "power_user" -> 10 < inSession pageViews u1) as Hpower.
  { intros Ha. destruct (Hm _ Ha) as (p & Hp & Hid & Hp').
    destruct (builtin_by_id p Hp) as (Heq & _). rewrite (Heq Hid) in Hp'.
    rewrite powerUser_criteria in Hp'. inversion Hp' as [Hb].
    apply andb_true_iff in Hb as [Hb _]. apply andb_true_iff in Hb as [Hb _]. lia. }
  assert (assigned u' "casual_user" -> 3 <= inSession pageViews u1 <= 10) as Hcasual.
  { intros Ha. destruct (Hm _ Ha) as (p & Hp & Hid & Hp').
    destruct (builtin_by_id p Hp) as (_ & Heq & _). rewrite (Heq Hid) in Hp'.
    rewrite casualUser_criteria in Hp'. inversion Hp' as [Hb].
    apply andb_true_iff in Hb as [Hb _]. apply andb_true_iff in Hb as [Hb _].
    apply andb_true_iff in Hb as [Hb1 Hb2]. lia. }
  assert (assigned u' "bouncer" -> inSession pageViews u1 <= 1) as Hbouncer.
  { intros Ha. destruct (Hm _ Ha) as (p & Hp & Hid & Hp').
    destruct (builtin_by_id p Hp) as (_ & _ & Heq). rewrite (Heq Hid) in Hp'.
    rewrite bouncer_criteria in Hp'. inversion Hp' as [Hb].
    apply andb_true_iff in Hb as [Hb _]. lia. }
  split; [|split]; intros [H1 H2].
  - specialize (Hpower H1). specialize (Hcasual H2). lia.
  - specialize (Hpower H1). specialize (Hbouncer H2). lia.
  - specialize (Hcasual H1). specialize (Hbouncer H2). lia.
Qed.

Lemma engagement_personas_exclusive_witness :
  let u' := profileOf (addUserEvent hostNumber hostString (at_ 312000) "u1"
                         (click 312000).2 engaged).1 in
  assigned u' "power_user"
  /\ ~ (assigned u' "power_user" /\ assigned u' "casual_user")
  /\ ~ (assigned u' "power_user" /\ assigned u' "bouncer")
  /\ ~ (assigned u' "casual_user" /\ assigned u' "bouncer").
Proof.
  cbn zeta. split.
  - vm_compute. apply list_elem_of_singleton. reflexivity.
  - apply (engagement_personas_exclusive hostNumber hostString (at_ 312000) "u1"
             (click 312000).2 engaged).
    + exact engaged_consistent.
    + vm_compute. reflexivity.
    + vm_compute. reflexivity.
Defined.

(** X17. The confidence recorded with an assignment of a built-in
    persona: for Power User it is an integer between 50 and 100 (each of
    its three rules scores more than one half), and for Converter it is
    100, whenever the profile matches the persona. *)
Theorem builtin_confidence StringToNumber ToString u :
  (userMatchesPersona StringToNumber ToString u powerUser = Return true ->
     exists c, calculatePersonaConfidence StringToNumber ToString u powerUser = num c
               /\ 50 <= c <= 100)
  /\ (userMatchesPersona StringToNumber ToString u converter = Return true ->
        calculatePersonaConfidence StringToNumber ToString u converter = num 100).
Proof.
  split; [apply powerUser_confidence_range|apply converter_confidence_full].
Qed.

Lemma builtin_confidence_witness :
  (exists c,
     calculatePersonaConfidence hostNumber hostString (profileOf engaged) powerUser = num c
     /\ 50 <= c <= 100)
  /\ calculatePersonaConfidence hostNumber hostString (profileOf converted) converter
     = num 100.
Proof.
  split.
  - apply (proj1 (builtin_confidence hostNumber hostString (profileOf engaged))).
    vm_compute. reflexivity.
  - apply (proj2 (builtin_confidence hostNumber hostString (profileOf converted))).
    vm_compute. reflexivity.
Defined.

(** X18. [calculatePersonaConfidence] scores the rules with the
    operators [>] and [=] only: a persona none of whose rules has one of
    them is assigned with confidence 0, as Casual User and Bouncer are,
    and a persona without rules, which every profile matches, with
    confidence NaN. *)
Theorem confidence_ignores_other_operators StringToNumber ToString u p :
  (forall r, r ∈ rules p -> operator r <> ">" /\ operator r <> "=") ->
  calculatePersonaConfidence StringToNumber ToString u p
  = match rules p with [] => NaN | _ => num 0 end
  /\ (rules p = [] -> userMatchesPersona StringToNumber ToString u p = Return true).
Proof.
  intros Hall. split.
  - apply confidence_unscored. intros r Hr [Hgt|Heq]; by destruct (Hall r Hr).
  - unfold userMatchesPersona. by intros ->.
Qed.

Lemma confidence_ignores_other_operators_witness :
  calculatePersonaConfidence hostNumber hostString (profileOf engaged) bouncer = num 0
  /\ calculatePersonaConfidence hostNumber hostString (profileOf engaged) casualUser
     = num 0.
Proof.
  split.
  - apply (confidence_ignores_other_operators hostNumber hostString (profileOf engaged)
             bouncer).
    intros r Hr. cbn in Hr.
    repeat (apply elem_of_cons in Hr as [->|Hr]; [by split|]).
    by apply elem_of_nil in Hr.
  - apply (confidence_ignores_other_operators hostNumber hostString (profileOf engaged)
             casualUser).
    intros r Hr. cbn in Hr.
    repeat (apply elem_of_cons in Hr as [->|Hr]; [by split|]).
    by apply elem_of_nil in Hr.
Defined.

Lemma members_known pa seg pid :
  consistent pa -> segments pa !! pid = Some seg ->
  forall x, x ∈ elements (seg_users seg) -> is_Some (users pa !! x).
Proof.
  intros (_ & Hknown & _) Hseg x Hx. apply (Hknown pid seg x Hseg).
  by apply elem_of_elements.
Qed.

Lemma members_elem pa seg pid u :
  consistent pa -> segments pa !! pid = Some seg ->
  u ∈ membersOf (users pa) seg ->
  users pa !! u_id u = Some u /\ u_id u ∈ seg_users seg /\ assigned u pid.
Proof.
  intros Hc Hseg Hu. pose proof Hc as (Hkey & _ & _ & Hagree).
  apply list_elem_of_omap in Hu as (x & Hx & Hux).
  apply elem_of_elements in Hx.
  rewrite (Hkey _ _ Hux). split; [done|]. split; [done|].
  apply (Hagree x u pid seg Hux Hseg). by rewrite (Hkey _ _ Hux).
Qed.

(** X19. In a consistent analyzer [getPersonaAnalysis] answers [null]
    for an unknown persona, and for a known one lists its members, each
    once: the rows are as many as the members, their identifiers are
    those of the members, and the confidence of a row is the one recorded
    with the assignment on the list of the member (0 in place of NaN). *)
Theorem persona_analysis_lists_members toFixed1 pa pid :
  consistent pa ->
  match segments pa !! pid with
  | None => getPersonaAnalysis toFixed1 pid pa = None
  | Some seg =>
      exists a,
        getPersonaAnalysis toFixed1 pid pa = Some a
        /\ length (an_users a) = size (seg_users seg)
        /\ (forall x, x ∈ map row_id (an_users a) <-> x ∈ seg_users seg)
        /\ forall row, row ∈ an_users a ->
             exists u asg,
               users pa !! row_id row = Some u
               /\ asg ∈ personas u /\ as_id asg = pid
               /\ row_confidence row = orZero (Some (confidence asg))
  end.
Proof.
  intros Hc. unfold getPersonaAnalysis.
  destruct (segments pa !! pid) as [seg|] eqn:Hseg; [|done].
  eexists. split; [done|]. cbn [an_users].
  pose proof (members_known pa seg pid Hc Hseg) as Hknown.
  split; [|split].
  - rewrite length_map. unfold membersOf. by rewrite omap_total_length.
  - intros x. rewrite <- list_fmap_compose. split.
    + intros Hx. apply list_elem_of_fmap in Hx as (u & -> & Hu). cbn.
      by apply (members_elem pa seg pid u Hc Hseg) in Hu as (_ & Hin & _).
    + intros Hx. destruct (Hknown x ltac:(by apply elem_of_elements)) as [u Hu].
      apply list_elem_of_fmap. exists u. cbn. pose proof Hc as (Hkey & _).
      split; [by rewrite (Hkey _ _ Hu)|].
      apply list_elem_of_omap. exists x. split; [by apply elem_of_elements|done].
  - intros row Hrow. apply list_elem_of_fmap in Hrow as (u & -> & Hu).
    apply (members_elem pa seg pid u Hc Hseg) in Hu as (Hu & _ & Ha).
    cbn [row_id row_confidence rowOf].
    destruct (find (fun x : assignment => String.eqb (as_id x) pid) (personas u))
      as [asg|] eqn:Hfind.
    + apply find_some in Hfind as [Hin Heq]. apply String.eqb_eq in Heq.
      exists u, asg. split; [done|]. split; [by apply list_elem_of_In|]. done.
    + exfalso. unfold assigned in Ha. apply list_elem_of_fmap in Ha as (asg & Hid & Hin).
      apply list_elem_of_In in Hin.
      pose proof (find_none _ _ Hfind asg Hin) as Hne. cbn in Hne.
      rewrite <- Hid, String.eqb_refl in Hne. discriminate Hne.
Qed.

Lemma persona_analysis_lists_members_witness :
  exists a,
    getPersonaAnalysis (fun _ => "") "power_user" engaged = Some a
    /\ map row_id (an_users a) = ["u1"].
Proof.
  pose proof (persona_analysis_lists_members (fun _ => "") engaged "power_user"
                engaged_consistent) as H.
  destruct (segments engaged !! "power_user") as [seg|] eqn:Hseg;
    [|vm_compute in Hseg; discriminate Hseg].
  destruct H as (a & Ha & _). exists a. split; [exact Ha|].
  vm_compute in Ha. inversion Ha. reflexivity.
Defined.

(** X20. After [updatePersonaMetrics] on a consistent analyzer, the
    [totalUsers] of every segment is the number of its members, and its
    [activeUsers] is between 0 and [totalUsers]. *)
Theorem segment_metrics_count_members ε pa pid seg :
  consistent pa ->
  segments (updatePersonaMetrics ε pa) !! pid = Some seg ->
  totalUsers (seg_metrics seg) = Z.of_nat (size (seg_users seg))
  /\ 0 <= activeUsers (seg_metrics seg) <= totalUsers (seg_metrics seg).
Proof.
  intros Hc Hseg. cbn in Hseg. rewrite lookup_fmap in Hseg.
  destruct (segments pa !! pid) as [seg0|] eqn:Hseg0; [|done].
  cbn in Hseg. inversion Hseg; subst seg; clear Hseg. cbn.
  pose proof (members_known pa seg0 pid Hc Hseg0) as Hknown.
  pose proof (omap_total_length (fun id => users pa !! id) (elements (seg_users seg0))
                Hknown) as Hlen.
  unfold segmentMetrics.
  set (members := omap (fun id => users pa !! id) (elements (seg_users seg0))) in *.
  assert (0 <= count_if (fun u => (now ε - lastSeen u <? 86400000)%Z) members
          <= Z.of_nat (length members)) as Hactive.
  { unfold count_if. pose proof (length_filter
      (fun x => (now ε - lastSeen x <? 86400000)%Z = true) members). lia. }
  assert (size (seg_users seg0) = length members) as Hsize by (by rewrite Hlen).
  rewrite Hsize.
  destruct members as [|u0 rest]; cbn [totalUsers activeUsers length] in *; lia.
Qed.

Lemma segment_metrics_count_members_witness :
  exists seg,
    segments (updatePersonaMetrics (at_ 400000) engaged) !! "power_user" = Some seg
    /\ totalUsers (seg_metrics seg) = 1
    /\ totalUsers (seg_metrics seg) = Z.of_nat (size (seg_users seg))
    /\ 0 <= activeUsers (seg_metrics seg) <= totalUsers (seg_metrics seg).
Proof.
  destruct (segments (updatePersonaMetrics (at_ 400000) engaged) !! "power_user")
    as [seg|] eqn:Hseg; [|vm_compute in Hseg; discriminate Hseg].
  exists seg. split; [reflexivity|].
  split; [vm_compute in Hseg; by inversion Hseg|].
  apply (segment_metrics_count_members (at_ 400000) engaged "power_user" seg).
  - exact engaged_consistent.
  - exact Hseg.
Defined.

End AssignmentClaims.

(** ** Profiles: devices and sessions *)

Section DeviceFacts.
Import JS Persona PersonaSpec PersonaRuns PersonaExamples PersonaRunsExamples.

Variable StringToNumber : string -> jsnum.
Variable ToString : jsval -> string.

Implicit Types (pa : PersonaAnalyzer) (u : userProfile) (s : session) (e : event)
  (ε : env) (l : counts).

Lemma count_incr k k' l :
  count k' (incr k l) = count k' l + (if String.eqb k k' then 1 else 0).
Proof.
  induction l as [|[k0 n0] rest IH]; cbn [incr count].
  - destruct (String.eqb k k'); lia.
  - destruct (String.eqb_spec k0 k) as [->|Hne]; cbn [count].
    + destruct (String.eqb k k'); lia.
    + destruct (String.eqb_spec k0 k') as [->|Hne'].
      * destruct (String.eqb_spec k k') as [->|_]; [done|lia].
      * apply IH.
Qed.

(** What [updateUserProfile] does to the device counters and to the
    number of sessions. *)
Lemma updateUserProfile_devices ε u e :
  deviceTypes (metrics (updateUserProfile ε u e))
  = match ev_device e with
    | Some dev => incr (getDeviceType (userAgent dev)) (deviceTypes (metrics u))
    | None => deviceTypes (metrics u)
    end
  /\ totalSessions (metrics (updateUserProfile ε u e))
     = totalSessions (metrics u)
       + match currentSession u with
         | Some s => if isNewSession s e then 1 else 0
         | None => 1
         end.
Proof.
  unfold updateUserProfile. cbn [currentSession set_lastSeen].
  destruct (currentSession u) as [s|]; [destruct (isNewSession s e)|];
    destruct (ev_device e); destruct (String.eqb (ev_type e) "pageview"); cbn;
    (split; [done|lia]).
Qed.

Lemma allEvents_snoc (ss : list session) s :
  ((ss ++ [s]) ≫= sess_events)%list = ((ss ≫= sess_events) ++ sess_events s)%list.
Proof. rewrite bind_app. cbn. by rewrite app_nil_r. Qed.

Lemma updateUserProfile_counted ε u e :
  deviceCounted u ->
  deviceCounted (updateUserProfile ε u e) /\ is_Some (currentSession (updateUserProfile ε u e)).
Proof.
  intros [Hn Hdev].
  destruct (updateUserProfile_devices ε u e) as [Hd Ht].
  destruct (updateUserProfile_cases ε u e)
    as (m3 & before & session & Heq & _ & _ & _ & _ & _ & Hcase).
  cbn zeta in *. rewrite Heq in Hd, Ht |- *. cbn [metrics currentSession] in *.
  split; [|by eexists].
  unfold deviceCounted, allEvents, allSessions in *. cbn [metrics currentSession sessions].
  change (option_list (Some (touch e (switchOnType e) session)))
    with [touch e (switchOnType e) session].
  rewrite Hd, Ht, length_app, allEvents_snoc. cbn [length touch sess_events].
  assert (forall ty,
            count ty match ev_device e with
                     | Some dev => incr (getDeviceType (userAgent dev)) (deviceTypes (metrics u))
                     | None => deviceTypes (metrics u)
                     end
            = count ty (deviceTypes (metrics u)) + (if onDevice ty e then 1 else 0)) as Hc.
  { intros ty. unfold onDevice. destruct (ev_device e) as [dev|]; [|lia].
    apply count_incr. }
  destruct Hcase as [(Hcur & Hnew & ->)|(-> & -> & Hnew)].
  - rewrite Hcur in *. change (option_list (Some session)) with [session] in *.
    rewrite Hnew. rewrite length_app in Hn. cbn [length] in Hn.
    split; [lia|]. intros ty.
    rewrite Hc, Hdev, allEvents_snoc, app_assoc, countEvents_snoc. done.
  - split.
    + rewrite Hn. destruct (currentSession u) as [s|]; [rewrite (Hnew s eq_refl)|]; lia.
    + intros ty. cbn [newSession sess_events app].
      by rewrite Hc, Hdev, countEvents_snoc.
Qed.

Lemma counted_create ε uid : deviceCounted (createUserProfile ε uid).
Proof. by split. Qed.

Lemma reachable_counted pa :
  reachable StringToNumber ToString pa ->
  forall k u, users pa !! k = Some u -> deviceCounted u /\ is_Some (currentSession u).
Proof.
  induction 1 as [|pa id config _ IH|pa ε uid e _ IH|pa ε _ IH]; intros k u Hk.
  - cbn in Hk. by rewrite lookup_empty in Hk.
  - cbn in Hk. by apply (IH k).
  - unfold addUserEvent in Hk.
    apply (analyzeUserPersona_users StringToNumber ToString) in Hk as (u0 & a & Hk & ->).
    change (deviceCounted u0 /\ is_Some (currentSession u0)). cbn in Hk.
    destruct (decide (uid = k)) as [->|Hne].
    + rewrite lookup_insert_eq in Hk. inversion Hk; subst u0.
      apply updateUserProfile_counted.
      destruct (users pa !! k) as [u1|] eqn:Hu1; cbn; [by apply (IH k)|].
      apply counted_create.
    + rewrite lookup_insert_ne in Hk by done. by apply (IH k).
  - cbn in Hk. by apply (IH k).
Qed.

Lemma countEvents_none (f : event -> bool) (es : list event) :
  (forall e, e ∈ es -> f e = false) -> countEvents f es = 0.
Proof.
  intros Hall. unfold countEvents.
  induction es as [|e es IH]; [done|]. rewrite filter_cons.
  rewrite decide_False by (rewrite (Hall e) by (by left); done).
  apply IH. intros e' He'. apply Hall. by right.
Qed.

End DeviceFacts.

Section DeviceClaims.
Import JS Persona PersonaSpec PersonaRuns PersonaExamples PersonaRunsExamples.

(** X24. After any run of the analyzer, a profile has at least one
    session, its [totalSessions] is the number of its sessions, and the
    [mobileSessionRatio] that the Mobile User persona reads is the number
    of its events that came from a mobile device divided by the number
    of its sessions: a ratio of events to sessions, which is 2 after one
    session with two page views on a phone. *)
Theorem mobileSessionRatio_counts_events StringToNumber ToString pa uid u :
  reachable StringToNumber ToString pa ->
  users pa !! uid = Some u ->
  (1 <= length (allSessions u))%nat
  /\ totalSessions (metrics u) = Z.of_nat (length (allSessions u))
  /\ getMobileSessionRatio u
     = div (num (countEvents (onDevice "mobile") (allEvents u)))
           (num (Z.of_nat (length (allSessions u)))).
Proof.
  intros Hreach Hu.
  destruct (reachable_counted StringToNumber ToString pa Hreach uid u Hu)
    as [[Hn Hdev] [s Hs]].
  assert (1 <= length (allSessions u))%nat as Hlen.
  { unfold allSessions. rewrite Hs, length_app. cbn. lia. }
  split; [done|]. split; [done|].
  unfold getMobileSessionRatio. rewrite Hdev, Hn.
  destruct (Z.ltb_spec 0 (Z.of_nat (length (allSessions u)))); [done|lia].
Qed.

Lemma mobileSessionRatio_counts_events_witness :
  getMobileSessionRatio (profileOf roaming) = num 2
  /\ (1 <= length (allSessions (profileOf roaming)))%nat
  /\ totalSessions (metrics (profileOf roaming))
     = Z.of_nat (length (allSessions (profileOf roaming)))
  /\ getMobileSessionRatio (profileOf roaming)
     = div (num (countEvents (onDevice "mobile") (allEvents (profileOf roaming))))
           (num (Z.of_nat (length (allSessions (profileOf roaming))))).
Proof.
  split; [vm_compute; reflexivity|].
  apply (mobileSessionRatio_counts_events hostNumber hostString roaming "u1"
           (profileOf roaming)).
  - exact reachable_roaming.
  - vm_compute. reflexivity.
Defined.

(** X14. After any run of the analyzer, [getMostFrequentDevice] returns
    a device type from which at least as many events of the profile came
    as from any other, and ["desktop"] when no event of the profile
    carried device information. *)
Theorem mostFrequentDevice_is_most_frequent StringToNumber ToString pa uid u :
  reachable StringToNumber ToString pa ->
  users pa !! uid = Some u ->
  (forall ty, countEvents (onDevice ty) (allEvents u)
              <= countEvents (onDevice (getMostFrequentDevice u)) (allEvents u))
  /\ ((forall e, e ∈ allEvents u -> ev_device e = None) ->
        getMostFrequentDevice u = "desktop").
Proof.
  intros Hreach Hu.
  destruct (reachable_counted StringToNumber ToString pa Hreach uid u Hu)
    as [[_ Hdev] _].
  destruct (mostFrequentDevice_counts StringToNumber ToString pa uid u Hreach Hu)
    as [Hmax Hnone].
  split.
  - intros ty. rewrite <- !Hdev. apply Hmax.
  - intros Hall. apply Hnone.
    destruct (reachable_kept StringToNumber ToString pa Hreach uid u Hu)
      as (_ & _ & [Hnd Hpos] & _).
    destruct (deviceTypes (metrics u)) as [|[k n] rest] eqn:Hl; [done|]. exfalso.
    assert (count k ((k, n) :: rest) = n) as Hk.
    { apply count_elem; [done|by left]. }
    specialize (Hpos k n ltac:(left)).
    rewrite Hdev, countEvents_none in Hk; [lia|].
    intros e He. unfold onDevice. by rewrite (Hall e He).
Qed.

Lemma mostFrequentDevice_is_most_frequent_witness :
  getMostFrequentDevice (profileOf roaming) = "mobile"
  /\ countEvents (onDevice "mobile") (allEvents (profileOf roaming)) = 2
  /\ (forall ty, countEvents (onDevice ty) (allEvents (profileOf roaming))
                 <= countEvents (onDevice (getMostFrequentDevice (profileOf roaming)))
                      (allEvents (profileOf roaming))).
Proof.
  split; [vm_compute; reflexivity|]. split; [vm_compute; reflexivity|].
  apply (mostFrequentDevice_is_most_frequent hostNumber hostString roaming "u1"
           (profileOf roaming)).
  - exact reachable_roaming.
  - vm_compute. reflexivity.
Defined.

End DeviceClaims.

(** ** The delivery queues: the batches of a run *)

Section SegmentFacts.
Import DeliveryRuns.
Context {A : Type}.

Implicit Types (b l pre : list A).

Lemma segment_suffix b l pre : segment b l -> segment b (pre ++ l).
Proof.
  intros (p & q & ->). exists (pre ++ p)%list, q. by rewrite <- app_assoc.
Qed.

Lemma segment_app b l post : segment b l -> segment b (l ++ post).
Proof.
  intros (p & q & ->). exists p, (q ++ post)%list. by rewrite <- !app_assoc.
Qed.

Lemma segment_refl l : segment l l.
Proof. exists [], []. by rewrite app_nil_r. Qed.

End SegmentFacts.

Section TrackerBatches.
Import Tracker DeliveryRuns DeliveryExamples DeliveryRunsExamples.

Implicit Types (t : tracker) (e : event) (i : input) (rq : request).

Lemma sendEvents_tag b t : tag (sendEvents b t).1 = tag t.
Proof. unfold sendEvents. by destruct (events t). Qed.

Lemma step_tag t i : tag (step t i).1 = tag t.
Proof.
  destruct i as [e| | |id r]; cbn.
  - unfold addEvent. destruct (10 <=? _)%nat; by rewrite ?sendEvents_tag.
  - unfold tick. destruct (0 <? _)%nat; by rewrite ?sendEvents_tag.
  - apply sendEvents_tag.
  - unfold respond. destruct (find _ _); [destruct r|]; done.
Qed.

(** After a step the buffer is an end of what it was, followed by the
    event added. *)
Lemma step_buffer t i :
  exists pre,
    (events t ++ map (tag t) (trackerAdded [i]))%list = (pre ++ events (step t i).1)%list.
Proof.
  destruct i as [e| | |id r]; cbn.
  - exists []. unfold addEvent. destruct (10 <=? _)%nat; by rewrite ?sendEvents_events.
  - exists []. unfold tick. rewrite app_nil_r.
    destruct (0 <? _)%nat; by rewrite ?sendEvents_events.
  - exists []. by rewrite app_nil_r, sendEvents_events.
  - unfold respond. rewrite app_nil_r.
    destruct (find _ _); [destruct r|]; cbn; [exists (events t); by rewrite app_nil_r|by exists []..].
Qed.

Lemma sendEvents_nonempty b t rq : rq ∈ (sendEvents b t).2 -> rq_events rq <> [].
Proof.
  unfold sendEvents. destruct (events t) eqn:He; cbn.
  - by intros ?%elem_of_nil.
  - by intros ->%list_elem_of_singleton.
Qed.

Lemma step_nonempty t i rq : rq ∈ (step t i).2 -> rq_events rq <> [].
Proof.
  destruct i as [e| | |id r]; cbn.
  - unfold addEvent. destruct (10 <=? _)%nat; [apply sendEvents_nonempty|].
    by intros ?%elem_of_nil.
  - unfold tick. destruct (0 <? _)%nat; [apply sendEvents_nonempty|].
    by intros ?%elem_of_nil.
  - apply sendEvents_nonempty.
  - unfold respond. destruct (find _ _); [destruct r|]; by intros ?%elem_of_nil.
Qed.

Lemma trackerAdded_cons i l :
  trackerAdded (i :: l) = (trackerAdded [i] ++ trackerAdded l)%list.
Proof. unfold trackerAdded. cbn. by destruct i. Qed.

(** X21. The tracker never posts an empty batch, and what it posts is a
    part, in one piece and in order, of the events it was handed as
    [addEvent] tagged them (after those its buffer held at the start): no
    event is invented, changed or reordered. *)
Theorem tracker_batches_in_order t l rq :
  rq ∈ (run t l).2 ->
  rq_events rq <> []
  /\ segment (rq_events rq) (events t ++ map (tag t) (trackerAdded l)).
Proof.
  revert t. induction l as [|i l IH]; intros t; [by intros ?%elem_of_nil|].
  cbn [run]. destruct (step t i) as [t1 o1] eqn:Hs.
  specialize (IH t1). destruct (run t1 l) as [t2 o2]. cbn [fst snd] in *.
  assert (t1 = (step t i).1) as Ht1 by (by rewrite Hs).
  destruct (step_buffer t i) as [pre Hpre]. rewrite <- Ht1 in Hpre.
  rewrite trackerAdded_cons, map_app, app_assoc, Hpre.
  intros [Hin|Hin]%elem_of_app.
  - assert (rq ∈ (step t i).2) as Hrq by (by rewrite Hs).
    split; [by apply (step_nonempty t i)|].
    rewrite (step_batch t i rq Hrq), <- Ht1.
    apply segment_app, segment_suffix, segment_refl.
  - destruct (IH Hin) as [Hne Hseg]. split; [done|].
    rewrite <- app_assoc. apply segment_suffix.
    assert (tag t1 = tag t) as Htag by (rewrite Ht1; apply step_tag).
    by rewrite <- Htag.
Qed.

Lemma tracker_batches_in_order_witness :
  let rq := {| rq_id := 1; rq_events := [tagged 2]; rq_keepalive := true |} in
  (run tracker0 shortVisit).2
    = [{| rq_id := 0; rq_events := [tagged 1]; rq_keepalive := false |}; rq]
  /\ rq_events rq <> []
  /\ segment (rq_events rq)
       (events tracker0 ++ map (tag tracker0) (trackerAdded shortVisit)).
Proof.
  cbn zeta. split; [vm_compute; reflexivity|].
  apply (tracker_batches_in_order tracker0 shortVisit).
  vm_compute. apply elem_of_cons. right. apply list_elem_of_singleton. reflexivity.
Defined.

End TrackerBatches.

Section AnalyticsBatches.
Import Analytics DeliverySpec DeliveryRuns DeliveryExamples DeliveryRunsExamples.

Implicit Types (a : analytics) (e : event) (i : input) (rq : request) (k : task).

Lemma sendEvents_buffer b a : events (sendEvents b a).1 = events a.
Proof.
  unfold sendEvents, ensureSession. destruct (events a) eqn:He; [done|].
  by destruct (sessionCreated a).
Qed.

Lemma analytics_step_buffer a i :
  exists pre, (events a ++ analyticsAdded [i])%list = (pre ++ events (step a i).1)%list.
Proof.
  destruct i as [e| | |sid r|eid r]; cbn.
  - exists []. unfold addEvent. destruct (5 <=? _)%nat; by rewrite ?sendEvents_buffer.
  - exists []. by rewrite app_nil_r, sendEvents_buffer.
  - exists []. rewrite app_nil_r. by destruct (take isResume (tasks a)) as [[b rest]|].
  - exists []. rewrite app_nil_r.
    destruct (take (isAwaitSession sid) (tasks a)) as [[b rest]|]; [|done].
    by destruct r.
  - rewrite app_nil_r. destruct (take _ (tasks a)) as [[u rest]|]; [destruct r|]; cbn;
      [exists (events a); by rewrite app_nil_r|by exists []..].
Qed.

Lemma analyticsAdded_cons i l :
  analyticsAdded (i :: l) = (analyticsAdded [i] ++ analyticsAdded l)%list.
Proof. unfold analyticsAdded. cbn. by destruct i. Qed.

(** X22. What the main script posts is a part, in one piece and in
    order, of the events it was handed (after those its buffer held at
    the start). Unlike the tracker it can post an empty batch: a flush
    tests the buffer before it waits for the session and builds the
    batch after, so that of two flushes that wait for a session the
    second finds the buffer emptied by the first. *)
Theorem analytics_batches_in_order :
  (forall a l id sid batch b,
     EventsRequest id sid batch b ∈ (run a l).2 ->
     segment batch (events a ++ analyticsAdded l))
  /\ exists id sid b, EventsRequest id sid [] b ∈ (run analytics0 doubleFlush).2.
Proof.
  split.
  - intros a l. revert a. induction l as [|i l IH]; intros a id sid batch b;
      [by intros ?%elem_of_nil|].
    cbn [run]. destruct (step a i) as [a1 o1] eqn:Hs.
    specialize (IH a1 id sid batch b). destruct (run a1 l) as [a2 o2]. cbn [fst snd] in *.
    assert (a1 = (step a i).1) as Ha1 by (by rewrite Hs).
    destruct (analytics_step_buffer a i) as [pre Hpre]. rewrite <- Ha1 in Hpre.
    rewrite analyticsAdded_cons, app_assoc, Hpre.
    intros [Hin|Hin]%elem_of_app.
    + assert (EventsRequest id sid batch b ∈ (step a i).2) as Hrq by (by rewrite Hs).
      apply step_events_request in Hrq as (_ & _ & ->). rewrite <- Ha1.
      apply segment_app, segment_suffix, segment_refl.
    + rewrite <- app_assoc. by apply segment_suffix, IH.
  - exists 3%nat, "s", false. vm_compute.
    do 3 (apply elem_of_cons; right). apply list_elem_of_singleton. reflexivity.
Qed.

End AnalyticsBatches.

(** ** Selectors: what the tracker generates and what the analyzer matches *)

Section SelectorFacts.
Import JS Funnel Selectors SelectorsExamples.

Lemma length_toLowerCase s : String.length (toLowerCase s) = String.length s.
Proof. induction s as [|a s IH]; [done|]. cbn [toLowerCase String.length]. by rewrite IH. Qed.

Lemma length_removeFirst c s : (String.length s <= S (String.length (removeFirst c s)))%nat.
Proof.
  induction s as [|a s IH]; cbn; [lia|]. destruct (Ascii.eqb a c); cbn; lia.
Qed.

Lemma string_length_app (s1 s2 : string) :
  String.length (s1 +:+ s2) = (String.length s1 + String.length s2)%nat.
Proof. induction s1 as [|a s1 IH]; [reflexivity|]. simpl. by rewrite IH. Qed.

Lemma string_prefix_length s1 s2 :
  String.prefix s1 s2 = true -> (String.length s1 <= String.length s2)%nat.
Proof.
  revert s2. induction s1 as [|a s1 IH]; intros s2; [cbn; lia|].
  destruct s2 as [|b s2]; [done|]. cbn. destruct (ascii_dec a b); [|done].
  intros H%IH. lia.
Qed.

Lemma includes_length s sub :
  includes s sub = true -> (String.length sub <= String.length s)%nat.
Proof.
  induction s as [|a s IH]; cbn [includes].
  - destruct (String.prefix sub "") eqn:Hp; [|done]. intros _.
    by apply string_prefix_length in Hp.
  - destruct (String.prefix sub (String a s)) eqn:Hp.
    + intros _. by apply string_prefix_length in Hp.
    + intros H%IH. cbn [String.length]. lia.
Qed.

Lemma split_cons sep s : exists w ws, split sep s = w :: ws.
Proof.
  induction s as [|c s (w & ws & IH)]; cbn; [by eexists _, _|].
  destruct (Ascii.eqb c sep); [by eexists _, _|]. rewrite IH. by eexists _, _.
Qed.

(** [s.split(" ").join(".")] has the length of [s]. *)
Lemma length_join_split (sep c : ascii) s :
  String.length (String.concat (String c EmptyString) (split sep s)) = String.length s.
Proof.
  induction s as [|a s IH]; [done|]. cbn [split].
  destruct (split_cons sep s) as (w & ws & Hs). rewrite Hs in IH |- *.
  destruct (Ascii.eqb a sep).
  - exact (f_equal S IH).
  - destruct ws as [|w' ws]; exact (f_equal S IH).
Qed.

Lemma string_eqb_length s1 s2 :
  String.length s1 <> String.length s2 -> String.eqb s1 s2 = false.
Proof. intros Hne. apply String.eqb_neq. by intros ->. Qed.

(** X23. The selector that the tracker generates for an element matches
    this element in the funnel analyzer exactly when the element has an
    identifier or has no class: for an element with classes and no
    identifier, the selector [tag.class1.class2] matches none of the
    three tests of [elementMatchesSelector]. *)
Theorem generated_selector_matches el :
  dom_tagName el <> "" ->
  elementMatchesSelector (Some (getElementInfo el)) (generateSelector el) = true
  <-> dom_id el <> "" \/ dom_className el = "".
Proof.
  intros Htag. unfold elementMatchesSelector, generateSelector, getElementInfo.
  cbn [el_id className tagName].
  destruct (dom_id el) as [|a i] eqn:Hid.
  - destruct (dom_className el) as [|c cls] eqn:Hcls.
    + cbn zeta. rewrite String.eqb_refl, orb_true_r. split; [by right|done].
    + cbn zeta. split; [|by intros [?|?]]. intros Hm. exfalso.
      set (tag := toLowerCase (dom_tagName el)) in *.
      set (joined := String.concat "." (split " " (String c cls))) in *.
      assert (String.length joined = S (String.length cls)) as Hj
        by apply (length_join_split " " "." (String c cls)).
      assert (1 <= String.length tag)%nat as Ht.
      { unfold tag. rewrite length_toLowerCase.
        destruct (dom_tagName el); [done|cbn; lia]. }
      assert (String.length (tag +:+ "." +:+ joined)
              = (String.length tag + S (S (String.length cls)))%nat) as Hsel.
      { rewrite !string_length_app, Hj. cbn. lia. }
      pose proof (length_removeFirst "#" (tag +:+ "." +:+ joined)) as Hhash.
      pose proof (length_removeFirst "." (tag +:+ "." +:+ joined)) as Hdot.
      rewrite Hsel in Hhash, Hdot.
      apply orb_true_iff in Hm as [Hm|Hm]; [apply orb_true_iff in Hm as [Hm|Hm]|].
      * apply String.eqb_eq in Hm. rewrite <- Hm in Hhash. cbn [String.length] in Hhash. lia.
      * apply includes_length in Hm. cbn [String.length] in Hm. lia.
      * rewrite string_eqb_length in Hm; [done|]. rewrite !length_toLowerCase, Hsel. lia.
  - split; [by left|]. intros _.
    change (removeFirst "#" ("#" +:+ String a i)) with (String a i).
    by rewrite String.eqb_refl.
Qed.

Lemma generated_selector_matches_witness :
  generateSelector buyButton = "button.btn.primary"
  /\ elementMatchesSelector (Some (getElementInfo buyButton)) (generateSelector buyButton)
     = false.
Proof.
  split; [vm_compute; reflexivity|].
  destruct (elementMatchesSelector (Some (getElementInfo buyButton))
              (generateSelector buyButton)) eqn:Hm; [|reflexivity].
  apply (generated_selector_matches buyButton) in Hm.
  - destruct Hm as [Hm|Hm]; [by destruct Hm|discriminate Hm].
  - discriminate.
Defined.

End SelectorFacts.

(** ** The personas of the main script: membership *)

Section ScriptPersonaFacts.
Import JS ScriptPersonas ScriptPersonasSpec ScriptPersonasExamples PersonaExamples.

Variable StringToNumber : string -> jsnum.
Variable ToString : jsval -> string.

Implicit Types (m pre : list (string * persona)) (p : persona) (u : userProfile).

(** The loop of [analyzeUserPersona] over personas that all have rules:
    the entries before position [i] have been visited. *)
Lemma analyze_loop u uid m :
  (forall entry, entry ∈ m -> is_Some (rules entry.2)) ->
  forall i (acc : list string) pre,
    length pre = i ->
    forEachFrom
      (fun (entry : string * persona) i (σ : list string * list (string * persona)) =>
         match userMatchesPersona StringToNumber ToString u entry.2 with
         | Raise x => (σ, Throw x)
         | Return true => ((σ.1 ++ [entry.1])%list, alter (addUser uid) i σ.2, Normal)
         | Return false => (σ, Normal)
         end)
      i m (acc, (pre ++ m)%list)
    = ((acc ++ map fst (filter (fun e => matching StringToNumber ToString u e = true) m),
        pre ++ map (analyzed StringToNumber ToString u uid) m)%list, Normal).
Proof.
  induction m as [|x m IH]; intros Hrules i acc pre Hlen.
  - cbn. by rewrite !app_nil_r.
  - destruct (Hrules x ltac:(left)) as [rs Hrs].
    assert (forall entry, entry ∈ m -> is_Some (rules entry.2)) as Hrest
      by (intros entry He; apply Hrules; by right).
    pose proof (eq_refl : userMatchesPersona StringToNumber ToString u x.2
                          = userMatchesPersona StringToNumber ToString u x.2) as Hx.
    unfold userMatchesPersona at 2 in Hx. rewrite Hrs in Hx.
    assert (matching StringToNumber ToString u x
            = forallb (ruleHolds StringToNumber ToString u) rs) as Hmx.
    { unfold matching. rewrite Hx. by destruct (forallb _ rs). }
    assert (analyzed StringToNumber ToString u uid x
            = if forallb (ruleHolds StringToNumber ToString u) rs
              then addUser uid x else x) as Hax.
    { unfold analyzed. by rewrite Hmx. }
    cbn [forEachFrom]. rewrite Hx, filter_cons. cbn [map]. rewrite Hax.
    destruct (forallb (ruleHolds StringToNumber ToString u) rs).
    + rewrite decide_True by done. cbn [fst snd map].
      replace i with (length pre + 0)%nat by lia. rewrite alter_app_r.
      replace (alter (addUser uid) 0%nat (x :: m)) with ([addUser uid x] ++ m)%list
        by reflexivity.
      rewrite (app_assoc pre).
      rewrite (IH Hrest (S (length pre + 0)) (acc ++ [x.1])%list
                 (pre ++ [addUser uid x])%list
                 ltac:(rewrite length_app; cbn; lia)).
      by rewrite <- !app_assoc.
    + rewrite decide_False by (by rewrite Hmx).
      change (pre ++ x :: m)%list with (pre ++ [x] ++ m)%list.
      rewrite (app_assoc pre).
      rewrite (IH Hrest (S i) acc (pre ++ [x])%list
                 ltac:(rewrite length_app; cbn; lia)).
      by rewrite <- !app_assoc.
Qed.

Lemma analyzeUserPersona_map now sd uid m :
  (forall entry, entry ∈ m -> is_Some (rules entry.2)) ->
  let u := getUserProfile now sd uid in
  analyzeUserPersona StringToNumber ToString now sd uid m
  = (map (analyzed StringToNumber ToString u uid) m,
     Return (map fst (filter (fun e => matching StringToNumber ToString u e = true) m))).
Proof.
  intros Hrules. cbn zeta. unfold analyzeUserPersona, forEachi.
  pose proof (analyze_loop (getUserProfile now sd uid) uid m Hrules 0 [] [] eq_refl) as H.
  cbn [app] in H. by rewrite H.
Qed.

End ScriptPersonaFacts.

Section ScriptPersonaClaims.
Import JS ScriptPersonas ScriptPersonasSpec ScriptPersonasExamples PersonaExamples.

(** X25. On personas that all have rules, [analyzeUserPersona] of the
    main script returns the identifiers of the personas the user
    matches, in the order of the map, and adds the user to the members of
    these; it changes nothing else, and takes no member away: a user
    who matched a persona once stays a member of it when the match is
    over, unlike in the persona analyzer. *)
Theorem script_membership_only_grows StringToNumber ToString now sd uid m :
  (forall entry, entry ∈ m -> is_Some (rules entry.2)) ->
  let u := getUserProfile now sd uid in
  let r := analyzeUserPersona StringToNumber ToString now sd uid m in
  r.2 = Return (map fst (filter (fun e => matching StringToNumber ToString u e = true) m))
  /\ length r.1 = length m
  /\ forall i k p,
       m !! i = Some (k, p) ->
       exists p',
         r.1 !! i = Some (k, p')
         /\ p_id p' = p_id p /\ name p' = name p /\ rules p' = rules p
         /\ forall x, x ∈ users p'
              <-> x ∈ users p
                  \/ (x = uid /\ matching StringToNumber ToString u (k, p) = true).
Proof.
  intros Hrules. cbn zeta.
  rewrite (analyzeUserPersona_map StringToNumber ToString now sd uid m Hrules).
  cbn [fst snd]. split; [done|]. split; [by rewrite length_map|].
  intros i k p Hi. rewrite list_lookup_fmap, Hi. cbn [fmap option_fmap option_map].
  unfold analyzed.
  destruct (matching StringToNumber ToString (getUserProfile now sd uid) (k, p)).
  - eexists. split; [done|]. cbn. repeat split; try done.
    + intros [->%elem_of_singleton|Hx]%elem_of_union; [right; by split|by left].
    + intros [Hx|[-> _]]; apply elem_of_union; [by right|left; by apply elem_of_singleton].
  - exists p. split; [done|]. repeat split; try done; [by left|].
    by intros [Hx|[_ Hm]].
Qed.

Lemma script_membership_only_grows_witness :
  let r := analyzeUserPersona hostNumber hostString 60000 oneView "u1" early in
  (analyzeUserPersona hostNumber hostString 1000 oneView "u1" initPersonas).2
    = Return ["bouncer"]
  /\ r.2 = Return []
  /\ exists p', r.1 !! 1%nat = Some ("bouncer", p') /\ "u1" ∈ users p'.
Proof.
  cbn zeta. split; [vm_compute; reflexivity|].
  assert (forall entry, entry ∈ early -> is_Some (rules entry.2)) as Hrules.
  { intros entry He. vm_compute in He.
    repeat (apply elem_of_cons in He as [->|He]; [by eexists|]).
    by apply elem_of_nil in He. }
  destruct (script_membership_only_grows hostNumber hostString 60000 oneView "u1" early
              Hrules) as (Hret & _ & Hkeep).
  split; [rewrite Hret; vm_compute; reflexivity|].
  destruct (early !! 1%nat) as [[k p]|] eqn:Hp; [|vm_compute in Hp; discriminate Hp].
  destruct (Hkeep 1%nat k p Hp) as (p' & Hp' & _ & _ & _ & Hin).
  assert (k = "bouncer" /\ "u1" ∈ users p) as [-> Hu].
  { vm_compute in Hp. inversion Hp. split; [done|]. vm_compute. reflexivity. }
  exists p'. split; [exact Hp'|]. apply Hin. by left.
Defined.

End ScriptPersonaClaims.
